(** * DFEMFRSR: the MFRSR video super-resolution network (dlkcnet_arch.py)

    A shallow embedding of the control flow, the tensor shapes and the
    instance state of [MFRSR] and [SecondOrderDeformableAlignment].

    - A tensor is a shape together with an opaque payload; the numerics of
      the framework's operators are a parameter ([kernel]), their shape
      rules are written out.
    - A five-dimensional tensor (n, t, c, h, w) keeps its time axis as a
      list of per-frame payloads, so that slicing, [chunk] and [flip(1)]
      are list operations.
    - The operators imported from the vendored basicsr package and from
      deform_conv_arch are a fallible parameter ([ext]).
    - Python exceptions and the calls of the sub-networks are recorded by a
      small writer/error monad. *)

From Stdlib Require Import String DecimalString ZArith Bool Arith Lia.
From Stdlib Require Import Reals Lra.
From Stdlib Require Import List.
Import ListNotations.

Set Implicit Arguments.

Local Open Scope string_scope.
Local Open Scope nat_scope.
Local Open Scope list_scope.

(** ** Python values *)

Inductive exn : Type :=
| AssertionError (msg : string)
| NameError (name : string)
| AttributeError (attr : string)
| KeyError (key : string)
| IndexError
| ValueError (msg : string)
| RuntimeError (what : string).

(** [needle in hay] on Python strings. *)
Fixpoint str_in (needle hay : string) : bool :=
  String.prefix needle hay ||
  match hay with
  | EmptyString => false
  | String _ rest => str_in needle rest
  end.

(** [l[i]] with Python's negative indices. *)
Definition py_index {A : Type} (l : list A) (i : Z) : option A :=
  let n := Z.of_nat (length l) in
  if (0 <=? i)%Z && (i <? n)%Z then nth_error l (Z.to_nat i)
  else if (- n <=? i)%Z && (i <? 0)%Z then nth_error l (Z.to_nat (n + i))
  else None.

(** [range(0, n)] *)
Definition range (n : nat) : list nat := seq 0 n.

(** [enumerate(l)] *)
Definition enumerate {A : Type} (l : list A) : list (nat * A) :=
  combine (seq 0 (length l)) l.

(** A [dict] with string keys; Python keeps the insertion order, which the
    comprehensions over [feats] rely on. *)
Definition dict (A : Type) : Type := list (string * A).

Fixpoint dict_get {A : Type} (d : dict A) (k : string) : option A :=
  match d with
  | [] => None
  | (k', v) :: d' => if String.eqb k k' then Some v else dict_get d' k
  end.

Fixpoint dict_set {A : Type} (d : dict A) (k : string) (v : A) : dict A :=
  match d with
  | [] => [(k, v)]
  | (k', v') :: d' =>
      if String.eqb k k' then (k, v) :: d' else (k', v') :: dict_set d' k v
  end.

Definition dict_keys {A : Type} (d : dict A) : list string := map fst d.

(** ** Shapes *)

Definition shape : Type := list nat.

Definition numel (s : shape) : nat := fold_right Nat.mul 1 s.

(** Product of the explicit sizes of a [view]/[reshape] argument; [None]
    for a size below -1. *)
Fixpoint known_size (dims : list Z) : option nat :=
  match dims with
  | [] => Some 1
  | d :: ds =>
      match known_size ds with
      | None => None
      | Some p =>
          if (d =? -1)%Z then Some p
          else if (d <? 0)%Z then None
          else Some (Z.to_nat d * p)
      end
  end.

(** The framework's [infer_size]: at most one size may be -1; it is
    inferred from the number of elements, which is refused when the other
    sizes multiply to 0. *)
Definition infer_size (dims : list Z) (n : nat) : option shape :=
  match known_size dims with
  | None => None
  | Some p =>
      match count_occ Z.eq_dec dims (-1)%Z with
      | 0 => if n =? p then Some (map Z.to_nat dims) else None
      | 1 =>
          if (n =? p) || ((0 <? p) && (n mod p =? 0)) then
            if p =? 0 then None
            else Some (map (fun d => if (d =? -1)%Z then n / p else Z.to_nat d) dims)
          else None
      | _ => None
      end
  end.

(** Broadcasting of two shapes, aligned at the last axis. *)
Fixpoint broadcast_rev (a b : shape) : option shape :=
  match a, b with
  | [], _ => Some b
  | _, [] => Some a
  | x :: a', y :: b' =>
      match broadcast_rev a' b' with
      | None => None
      | Some r =>
          if x =? y then Some (x :: r)
          else if x =? 1 then Some (y :: r)
          else if y =? 1 then Some (x :: r)
          else None
      end
  end.

Definition broadcast (a b : shape) : option shape :=
  option_map (@rev nat) (broadcast_rev (rev a) (rev b)).

Definition shape_eqb (a b : shape) : bool :=
  if list_eq_dec Nat.eq_dec a b then true else false.

(** [torch.cat(ts, dim=1)] on 4-D shapes: every axis but the second must
    agree. *)
Fixpoint cat1_shape (ss : list shape) : option shape :=
  match ss with
  | [] => None
  | [[n; c; h; w]] => Some [n; c; h; w]
  | [n; c; h; w] :: rest =>
      match cat1_shape rest with
      | Some [n'; c'; h'; w'] =>
          if (n =? n') && (h =? h') && (w =? w') then Some [n; c + c'; h; w]
          else None
      | _ => None
      end
  | _ => None
  end.

(** Output size of a convolution along one axis. *)
Definition conv_out (size k stride pad : nat) : option nat :=
  if (stride =? 0) || (size + 2 * pad <? k) then None
  else Some ((size + 2 * pad - k) / stride + 1).

(** [nn.Conv2d(cin, cout, k, stride, pad)] on a 4-D shape. *)
Definition conv2d_shape (cin cout k stride pad : nat) (s : shape) : option shape :=
  match s with
  | [n; c; h; w] =>
      if c =? cin then
        match conv_out h k stride pad, conv_out w k stride pad with
        | Some h', Some w' => Some [n; cout; h'; w']
        | _, _ => None
        end
      else None
  | _ => None
  end.

(** [nn.PixelShuffle(r)] *)
Definition pixel_shuffle_shape (r : nat) (s : shape) : option shape :=
  match s with
  | [n; c; h; w] =>
      if (0 <? r) && (c mod (r * r) =? 0) then Some [n; c / (r * r); h * r; w * r]
      else None
  | _ => None
  end.

(** [F.interpolate(x, size=(h', w'))]: sizes must be positive. *)
Definition interpolate_shape (h' w' : nat) (s : shape) : option shape :=
  match s with
  | [n; c; h; w] =>
      if (0 <? h) && (0 <? w) && (0 <? h') && (0 <? w') then Some [n; c; h'; w']
      else None
  | _ => None
  end.

(** [torch.chunk(x, k, dim=1)]: the sizes of the chunks along the axis. *)
Definition chunk_sizes (c k : nat) : list nat :=
  let step := (c + k - 1) / k in
  if step =? 0 then repeat 0 k
  else
    let full := c / step in
    repeat step full ++ (if c mod step =? 0 then [] else [c mod step]).

(** ** Operators *)

(** Operators of the framework whose numerics stay opaque.  A learned layer
    carries its attribute path, which stands for its weights. *)
Inductive op : Type :=
| Flatten
| Frame (t i : nat)
| Zeros
| Add
| Sub
| Mul
| Norm
| Cat
| LeakyReLU
| Sigmoid
| Tanh
| Scale (m : Z)
| Conv2d (layer : string)
| PixelShuffle
| Interpolate (mode : string)
| Permute0231
| FlipChannels
| RepeatChannels (k : nat)
| Chunk (k i : nat)
| DeformConvOp (layer : string).

(** Operators of the vendored basicsr package and of deform_conv_arch,
    whose code is not part of the file under study. *)
Inductive extmod : Type :=
| SpyNet
| ConvResidualBlocks (layer : string) (cin cout nblk : nat)
| ConvResidualBlocksModified (layer : string) (cin cout nblk : nat)
| DeformConv2d (layer : string) (cin cout k pad : nat)
| TSAFusion (layer : string) (num_feat num_frame center : nat)
| flow_warp.

(** The shapes these operators are documented to produce.  The spatial
    size produced by [DeformConv2d] and [ConvResidualBlocksModified] is not
    constrained. *)
Definition ext_shape_ok (f : extmod) (args : list shape) (out : shape) : Prop :=
  match f, args with
  | SpyNet, [[n; c; h; w]; s2] => s2 = [n; c; h; w] /\ out = [n; 2; h; w]
  | ConvResidualBlocks _ cin cout _, [[n; c; h; w]] => c = cin /\ out = [n; cout; h; w]
  | ConvResidualBlocksModified _ cin cout _, [[n; c; h; w]] =>
      c = cin /\ exists h' w', out = [n; cout; h'; w']
  | DeformConv2d _ cin cout _ _, [[n; c; h; w]] =>
      c = cin /\ exists h' w', out = [n; cout; h'; w']
  | TSAFusion _ nf _ _, [n; c; h; w] :: rest =>
      c = nf /\ Forall (eq [n; c; h; w]) rest /\ out = [n; c; h; w]
  | flow_warp, [[n; c; h; w]; [n'; h'; w'; two]] =>
      h = h' /\ w = w' /\ out = [n; c; h; w]
  | _, _ => False
  end.

(** ** Tensors *)

(** A tensor: its size and an opaque payload. *)
Record tensor (V : Type) : Type := mkTensor { shape_of : shape; val : V }.

(** A tensor of size (batch, len frames, chans, height, width). *)
Record tseq (V : Type) : Type := mkSeq {
  batch : nat;
  chans : nat;
  height : nat;
  width : nat;
  frames : list V }.

Arguments mkTensor {V} _ _.
Arguments shape_of {V} _.
Arguments val {V} _.
Arguments mkSeq {V} _ _ _ _ _.
Arguments batch {V} _.
Arguments chans {V} _.
Arguments height {V} _.
Arguments width {V} _.
Arguments frames {V} _.

(** What the embedding takes from the surroundings of the file:
    - [kernel]: the numerics of the framework's operators;
    - [is_zero]: the value of [x == 0] for the payload [x] of a tensor
      without axes, in the floating-point arithmetic of the framework;
    - [ext]: the vendored operators, [None] when the operator raises;
    - [cuda_is_available]: the value of [torch.cuda.is_available()];
    - [ctor_ok]: whether the constructor of a vendored class returns
      normally. *)
Class Runtime (V : Type) : Type := {
  kernel : op -> list V -> V;
  is_zero : V -> bool;
  ext : extmod -> list (tensor V) -> option (tensor V);
  cuda_is_available : bool;
  ctor_ok : string -> bool }.

Section Network.

Context {V : Type} {R : Runtime V}.

Local Abbreviation tensor := (tensor V).
Local Abbreviation tseq := (tseq V).

Definition size5 (x : tseq) : shape :=
  [batch x; length (frames x); chans x; height x; width x].

Definition ext_respects_shapes : Prop :=
  forall f args r, ext f args = Some r ->
    ext_shape_ok f (map shape_of args) (shape_of r).

(** *** Calls that are observed *)

Inductive event : Type :=
| EvWarning (msg : string)
| EvSpyNet (ref supp : tensor)
| EvAlign (module_name : string) (i : nat) (feat_prop : tensor)
| EvFusion (module_name : string) (i : nat) (feat_current feat_prop : tensor).

(** *** Exceptions and the log of calls *)

Definition M (A : Type) : Type := (list event * (exn + A))%type.

Definition ret {A : Type} (a : A) : M A := ([], inr a).

Definition raise {A : Type} (e : exn) : M A := ([], inl e).

Definition bind {A B : Type} (m : M A) (k : A -> M B) : M B :=
  match m with
  | (tr, inl e) => (tr, inl e)
  | (tr, inr a) => let (tr', r) := k a in (tr ++ tr', r)
  end.

Definition emit (e : event) : M unit := ([e], inr tt).

Definition trace {A : Type} (m : M A) : list event := fst m.

Definition outcome {A : Type} (m : M A) : exn + A := snd m.

Definition lift_opt {A : Type} (e : exn) (o : option A) : M A :=
  match o with
  | Some a => ret a
  | None => raise e
  end.

Notation "x <- m ;; k" := (bind m (fun x => k))
  (at level 61, m at next level, right associativity).
Notation "' pat <- m ;; k" := (bind m (fun x => match x with pat => k end))
  (at level 61, pat pattern, m at next level, right associativity).

(** [for x in xs: acc = body(x, acc)] *)
Fixpoint for_each {A S : Type} (xs : list A) (body : A -> S -> M S) (acc : S) : M S :=
  match xs with
  | [] => ret acc
  | x :: xs' => acc' <- body x acc ;; for_each xs' body acc'
  end.

(** *** Framework operators on tensors *)

Definition prim (what : string) (o : op) (s : option shape) (args : list tensor) : M tensor :=
  match s with
  | Some s' => ret (mkTensor s' (kernel o (map val args)))
  | None => raise (RuntimeError what)
  end.

Definition call (f : extmod) (args : list tensor) : M tensor :=
  lift_opt (RuntimeError "vendored operator") (ext f args).

Definition pointwise (o : op) (x : tensor) : tensor :=
  mkTensor (shape_of x) (kernel o [val x]).

Definition add (a b : tensor) : M tensor :=
  prim "broadcast" Add (broadcast (shape_of a) (shape_of b)) [a; b].

Definition mul (a b : tensor) : M tensor :=
  prim "broadcast" Mul (broadcast (shape_of a) (shape_of b)) [a; b].

(** [a += b]: the broadcast result must have the size of [a]. *)
Definition iadd (a b : tensor) : M tensor :=
  prim "in-place broadcast" Add
    (match broadcast (shape_of a) (shape_of b) with
     | Some s => if shape_eqb s (shape_of a) then Some s else None
     | None => None
     end) [a; b].

Definition cat1 (ts : list tensor) : M tensor :=
  prim "cat" Cat (cat1_shape (map shape_of ts)) ts.

(** [torch.stack(ts, dim=1)] of 4-D tensors of one size. *)
Definition stack1 (ts : list tensor) : M tseq :=
  match ts with
  | [] => raise (RuntimeError "stack expects a non-empty list")
  | x :: _ =>
      match shape_of x with
      | [n; c; h; w] =>
          if forallb (fun y => shape_eqb (shape_of y) [n; c; h; w]) ts
          then ret (mkSeq n c h w (map val ts))
          else raise (RuntimeError "stack expects each tensor to be equal size")
      | _ => raise (RuntimeError "stack")
      end
  end.

Definition conv2d (layer : string) (cin cout k stride pad : nat) (x : tensor) : M tensor :=
  prim "conv2d" (Conv2d layer) (conv2d_shape cin cout k stride pad (shape_of x)) [x].

Definition lrelu (x : tensor) : tensor := pointwise LeakyReLU x.

Definition sigmoid (x : tensor) : tensor := pointwise Sigmoid x.

Definition pixel_shuffle (r : nat) (x : tensor) : M tensor :=
  prim "pixel_shuffle" PixelShuffle (pixel_shuffle_shape r (shape_of x)) [x].

Definition interpolate_size (mode : string) (h w : nat) (x : tensor) : M tensor :=
  prim "interpolate" (Interpolate mode) (interpolate_shape h w (shape_of x)) [x].

(** [size=x.shape[2:]] *)
Definition spatial_of (x : tensor) : M (nat * nat) :=
  match shape_of x with
  | [_; _; h; w] => ret (h, w)
  | _ => raise (RuntimeError "not enough values to unpack")
  end.

(** [nn.Upsample(scale_factor=4, mode='bilinear')] *)
Definition img_upsample (x : tensor) : M tensor :=
  match shape_of x with
  | [_; _; h; w] => interpolate_size "bilinear" (4 * h) (4 * w) x
  | _ => raise (RuntimeError "interpolate")
  end.

Definition new_zeros (s : shape) : tensor := mkTensor s (kernel Zeros []).

Definition zeros_like (x : tensor) : tensor := new_zeros (shape_of x).

(** [x.permute(0, 2, 3, 1)] *)
Definition permute0231 (x : tensor) : M tensor :=
  prim "permute" Permute0231
    (match shape_of x with
     | [n; c; h; w] => Some [n; h; w; c]
     | _ => None
     end) [x].

(** Device transfers keep sizes and values; [.cuda()] raises without a
    device. *)
Definition cpu (x : tensor) : M tensor := ret x.

Definition cuda (x : tensor) : M tensor :=
  if cuda_is_available then ret x else raise (RuntimeError "no CUDA device").

(** *** Five-dimensional tensors *)

(** [x[:, i, :, :, :]] *)
Definition select_t (x : tseq) (i : Z) : M tensor :=
  v <- lift_opt IndexError (py_index (frames x) i) ;;
  ret (mkTensor [batch x; chans x; height x; width x] v).

Definition with_frames (x : tseq) (l : list V) : tseq :=
  mkSeq (batch x) (chans x) (height x) (width x) l.

(** [x.flip(1)] *)
Definition flip_t (x : tseq) : tseq := with_frames x (rev (frames x)).

(** [x[:, :-1]] and [x[:, 1:]] *)
Definition drop_last (x : tseq) : tseq := with_frames x (removelast (frames x)).

Definition drop_first (x : tseq) : tseq := with_frames x (tl (frames x)).

(** [torch.chunk(x, 2, dim=1)] for an even number of frames. *)
Definition chunk2_t (x : tseq) : tseq * tseq :=
  let half := length (frames x) / 2 in
  (with_frames x (firstn half (frames x)), with_frames x (skipn half (frames x))).

(** [x.view(-1, c, h, w)] and [x.reshape(-1, c, h, w)] *)
Definition flatten4 (x : tseq) (c h w : nat) : M tensor :=
  match infer_size [(-1)%Z; Z.of_nat c; Z.of_nat h; Z.of_nat w] (numel (size5 x)) with
  | Some s => ret (mkTensor s (kernel Flatten (frames x)))
  | None => raise (RuntimeError "view")
  end.

(** [x.view(n, t, c, h, w)], any one size possibly -1. *)
Definition view5 (x : tensor) (dims : list Z) : M tseq :=
  match infer_size dims (numel (shape_of x)) with
  | Some [n; t; c; h; w] =>
      ret (mkSeq n c h w (map (fun i => kernel (Frame t i) [val x]) (seq 0 t)))
  | _ => raise (RuntimeError "view")
  end.

(** [torch.chunk(x, k, dim=1)] *)
Definition chunk1 (x : tensor) (k : nat) : M (list tensor) :=
  match shape_of x with
  | [n; c; h; w] =>
      ret (map (fun '(i, ci) => mkTensor [n; ci; h; w] (kernel (Chunk k i) [val x]))
               (enumerate (chunk_sizes c k)))
  | _ => raise (RuntimeError "chunk")
  end.

(** [x.flip(1)] on a 4-D tensor *)
Definition flip_channels (x : tensor) : tensor := pointwise FlipChannels x.

(** [x.repeat(1, k, 1, 1)] *)
Definition repeat_channels (x : tensor) (k : nat) : M tensor :=
  prim "repeat" (RepeatChannels k)
    (match shape_of x with
     | [n; c; h; w] => Some [n; c * k; h; w]
     | _ => None
     end) [x].

(** [x.size(1)] *)
Definition size1 (x : tensor) : M nat :=
  lift_opt IndexError (nth_error (shape_of x) 1).

(** [torchvision.ops.deform_conv2d(x, offset, weight, bias, stride,
    padding, dilation, mask)] for a weight of size (cout, cin_w, k, k). *)
Definition deform_conv2d_shape (cin_w cout k stride pad dil : nat)
    (x offset mask : shape) : option shape :=
  match x, offset, mask with
  | [b; c; h; w], [bo; co; ho; wo], [bm; cm; hm; wm] =>
      let offset_grps := co / (2 * k * k) in
      let weight_grps := c / cin_w in
      let span := dil * (k - 1) + 1 in
      if (0 <? cin_w) && (0 <? offset_grps) && (0 <? weight_grps) && (0 <? stride)
         && (cin_w * weight_grps =? c) && (cout mod weight_grps =? 0)
         && (co =? offset_grps * 2 * k * k) && (cm =? offset_grps * k * k)
         && (c mod offset_grps =? 0) && (bo =? b) && (bm =? b)
         && (span <=? h + 2 * pad) && (span <=? w + 2 * pad)
      then
        let oh := (h + 2 * pad - span) / stride + 1 in
        let ow := (w + 2 * pad - span) / stride + 1 in
        if (ho =? oh) && (wo =? ow) && (hm =? oh) && (wm =? ow)
        then Some [b; cout; oh; ow]
        else None
      else None
  | _, _, _ => None
  end.

(** ** MultiScaleSmallKernelConvAndAttention *)

Definition MultiScaleSmallKernelConvAndAttention_forward
    (layer : string) (c : nat) (x : tensor) : M tensor :=
  d1 <- call (DeformConv2d (layer ++ ".deform_conv1x1") c c 1 0) [x] ;;
  let x1 := lrelu d1 in
  d2 <- call (DeformConv2d (layer ++ ".deform_conv3x3") c c 3 1) [x] ;;
  let x2 := lrelu d2 in
  d3 <- call (DeformConv2d (layer ++ ".deform_conv5x5") c c 5 2) [x] ;;
  let x3 := lrelu d3 in
  s12 <- add x1 x2 ;;
  multi_scale_features <- add s12 x3 ;;
  att1 <- conv2d (layer ++ ".att_conv1") c c 1 1 0 multi_scale_features ;;
  att2 <- conv2d (layer ++ ".att_conv2") c c 3 1 1 multi_scale_features ;;
  att3 <- conv2d (layer ++ ".att_conv3") c c 5 1 2 multi_scale_features ;;
  a12 <- add att1 att2 ;;
  a123 <- add a12 att3 ;;
  let attention_map := sigmoid a123 in
  gated <- mul multi_scale_features attention_map ;;
  add gated multi_scale_features.

(** ** MultiScaleLargeKernelConvAndAttention *)

Definition MultiScaleLargeKernelConvAndAttention_forward
    (layer : string) (c : nat) (x : tensor) : M tensor :=
  d1 <- call (DeformConv2d (layer ++ ".deform_conv7x7") c c 7 3) [x] ;;
  let x1 := lrelu d1 in
  d2 <- call (DeformConv2d (layer ++ ".deform_conv11x11") c c 11 5) [x] ;;
  let x2 := lrelu d2 in
  d3 <- call (DeformConv2d (layer ++ ".deform_conv13x13") c c 13 6) [x] ;;
  let x3 := lrelu d3 in
  '(h3, w3) <- spatial_of x3 ;;
  x1 <- interpolate_size "bilinear" h3 w3 x1 ;;
  x2 <- interpolate_size "bilinear" h3 w3 x2 ;;
  s12 <- add x1 x2 ;;
  multi_scale_features <- add s12 x3 ;;
  att1 <- conv2d (layer ++ ".att_conv1") c c 1 1 0 multi_scale_features ;;
  att2 <- conv2d (layer ++ ".att_conv2") c c 3 1 1 multi_scale_features ;;
  att3 <- conv2d (layer ++ ".att_conv3") c c 5 1 2 multi_scale_features ;;
  a12 <- add att1 att2 ;;
  a123 <- add a12 att3 ;;
  let attention_map := sigmoid a123 in
  gated <- mul multi_scale_features attention_map ;;
  add gated multi_scale_features.

(** ** SecondOrderDeformableAlignment *)

(** The attributes set by the constructor: those of the vendored
    [ModulatedDeformConvPack] and [max_residue_magnitude]. *)
Record SecondOrderDeformableAlignment : Type := {
  sa_layer : string;
  in_channels : nat;
  out_channels : nat;
  kernel_size : nat;
  stride : nat;
  padding : nat;
  dilation : nat;
  deformable_groups : nat;
  sa_max_residue_magnitude : Z }.

Definition conv_offset (a : SecondOrderDeformableAlignment) (x : tensor) : M tensor :=
  let c := out_channels a in
  y <- conv2d (sa_layer a ++ ".conv_offset.0") (3 * c + 4) c 3 1 1 x ;;
  y <- conv2d (sa_layer a ++ ".conv_offset.2") c c 3 1 1 (lrelu y) ;;
  y <- conv2d (sa_layer a ++ ".conv_offset.4") c c 3 1 1 (lrelu y) ;;
  conv2d (sa_layer a ++ ".conv_offset.6") c (27 * deformable_groups a) 3 1 1 (lrelu y).

Definition SecondOrderDeformableAlignment_forward
    (a : SecondOrderDeformableAlignment) (x extra_feat flow_1 flow_2 : tensor) : M tensor :=
  extra_feat <- cat1 [extra_feat; flow_1; flow_2] ;;
  out <- conv_offset a extra_feat ;;
  chunks <- chunk1 out 3 ;;
  match chunks with
  | [o1; o2; mask] =>
      o12 <- cat1 [o1; o2] ;;
      let offset := pointwise (Scale (sa_max_residue_magnitude a)) (pointwise Tanh o12) in
      halves <- chunk1 offset 2 ;;
      match halves with
      | [offset_1; offset_2] =>
          c1 <- size1 offset_1 ;;
          r1 <- repeat_channels (flip_channels flow_1) (c1 / 2) ;;
          offset_1 <- add offset_1 r1 ;;
          c2 <- size1 offset_2 ;;
          r2 <- repeat_channels (flip_channels flow_2) (c2 / 2) ;;
          offset_2 <- add offset_2 r2 ;;
          offset <- cat1 [offset_1; offset_2] ;;
          let mask := sigmoid mask in
          prim "deform_conv2d" (DeformConvOp (sa_layer a))
            (deform_conv2d_shape (in_channels a) (out_channels a) (kernel_size a)
               (stride a) (padding a) (dilation a)
               (shape_of x) (shape_of offset) (shape_of mask))
            [x; offset; mask]
      | _ => raise (ValueError "not enough values to unpack")
      end
  | _ => raise (ValueError "not enough values to unpack")
  end.

(** ** MFRSR *)

(** The attributes of an instance.  [attributes] lists the sub-modules
    that only one branch of the constructor defines; [is_mirror_extended]
    and [cpu_cache] are the two attributes that [forward] assigns. *)
Record MFRSR : Type := {
  mid_channels : nat;
  is_low_res_input : bool;
  cpu_cache_length : Z;
  attributes : list string;
  deform_align : dict SecondOrderDeformableAlignment;
  backbone : dict (nat * nat * nat);
  fusion : dict (nat * nat * nat);
  is_mirror_extended : bool;
  is_with_alignment : bool;
  cpu_cache : option bool }.

Definition set_is_mirror_extended (self : MFRSR) (b : bool) : MFRSR :=
  {| mid_channels := mid_channels self;
     is_low_res_input := is_low_res_input self;
     cpu_cache_length := cpu_cache_length self;
     attributes := attributes self;
     deform_align := deform_align self;
     backbone := backbone self;
     fusion := fusion self;
     is_mirror_extended := b;
     is_with_alignment := is_with_alignment self;
     cpu_cache := cpu_cache self |}.

Definition set_cpu_cache (self : MFRSR) (b : bool) : MFRSR :=
  {| mid_channels := mid_channels self;
     is_low_res_input := is_low_res_input self;
     cpu_cache_length := cpu_cache_length self;
     attributes := attributes self;
     deform_align := deform_align self;
     backbone := backbone self;
     fusion := fusion self;
     is_mirror_extended := is_mirror_extended self;
     is_with_alignment := is_with_alignment self;
     cpu_cache := Some b |}.

Definition getattr (self : MFRSR) (name : string) : M unit :=
  if existsb (String.eqb name) (attributes self) then ret tt
  else raise (AttributeError name).

Definition get_cpu_cache (self : MFRSR) : M bool :=
  lift_opt (AttributeError "cpu_cache") (cpu_cache self).

Definition getitem {A : Type} (d : dict A) (k : string) : M A :=
  lift_opt (KeyError k) (dict_get d k).

Definition list_item {A : Type} (l : list A) (i : nat) : M A :=
  lift_opt IndexError (nth_error l i).

(** [x = x.cuda()] under [if self.cpu_cache:] *)
Definition cuda_if_cached (self : MFRSR) (x : tensor) : M tensor :=
  cache <- get_cpu_cache self ;;
  if cache then cuda x else ret x.

(** *** __init__ *)

Record init_args : Type := {
  arg_mid_channels : nat;
  arg_num_blocks : nat;
  arg_max_residue_magnitude : Z;
  arg_is_low_res_input : bool;
  arg_spynet_path : option string;
  arg_cpu_cache_length : Z }.

(** The names bound at module level: the imports and the four classes. *)
Definition module_globals : list string :=
  ["torch"; "nn"; "F"; "torchvision"; "warnings"; "flow_warp";
   "ConvResidualBlocks"; "ConvResidualBlocksModified"; "SpyNet";
   "ModulatedDeformConvPack"; "ARCH_REGISTRY"; "TSAFusion"; "DeformConv2d";
   "MultiScaleSmallKernelConvAndAttention";
   "MultiScaleLargeKernelConvAndAttention"; "MFRSR";
   "SecondOrderDeformableAlignment"].

Definition lookup (name : string) : M unit :=
  if existsb (String.eqb name) module_globals then ret tt
  else raise (NameError name).

(** [Name(...)] for a vendored class. *)
Definition construct (name : string) : M unit :=
  _ <- lookup name ;;
  if ctor_ok name then ret tt else raise (RuntimeError name).

(** The constructors of the two attention blocks and of the alignment
    module, as far as the names they resolve. *)
Definition MultiScaleKernelConvAndAttention_init (name : string) : M unit :=
  _ <- lookup name ;;
  _ <- construct "DeformConv2d" ;;
  _ <- construct "DeformConv2d" ;;
  _ <- construct "DeformConv2d" ;;
  lookup "nn".

Definition SecondOrderDeformableAlignment_init
    (layer : string) (cin cout k pad groups : nat) (mrm : Z)
    : M SecondOrderDeformableAlignment :=
  _ <- lookup "SecondOrderDeformableAlignment" ;;
  _ <- construct "ModulatedDeformConvPack" ;;
  _ <- lookup "nn" ;;
  ret {| sa_layer := layer; in_channels := cin; out_channels := cout;
         kernel_size := k; stride := 1; padding := pad; dilation := 1;
         deformable_groups := groups; sa_max_residue_magnitude := mrm |}.

Definition init_branch (a : init_args) (entry : nat * string)
    (acc : dict SecondOrderDeformableAlignment * dict (nat * nat * nat) * dict (nat * nat * nat))
    : M (dict SecondOrderDeformableAlignment * dict (nat * nat * nat) * dict (nat * nat * nat)) :=
  let '(i, module) := entry in
  let '(da, bb, fu) := acc in
  let mid := arg_mid_channels a in
  da <- (if cuda_is_available then
           m <- SecondOrderDeformableAlignment_init ("deform_align." ++ module)
                  (2 * mid) mid 3 1 16 (arg_max_residue_magnitude a) ;;
           ret (dict_set da module m)
         else ret da) ;;
  _ <- construct "ConvResidualBlocks" ;;
  _ <- construct "TSAFusion" ;;
  ret (da, dict_set bb module ((1 + i) * mid, mid, arg_num_blocks a),
       dict_set fu module (mid, 2, 0)).

Definition MFRSR_init (a : init_args) : M MFRSR :=
  _ <- construct "SpyNet" ;;
  extractors <-
    (if arg_is_low_res_input a then
       _ <- lookup "nn" ;;
       _ <- construct "ConvResidualBlocks" ;;
       _ <- MultiScaleKernelConvAndAttention_init "MultiScaleSmallKernelConvAndAttention" ;;
       _ <- lookup "nn" ;;
       _ <- construct "ConvResidualBlocksModified" ;;
       _ <- MultiScaleKernelConvAndAttention_init "MultiScaleLargeKernelConvAndAttention" ;;
       ret ["feat_extract1"; "feat_extract2"]
     else
       _ <- lookup "nn" ;;
       _ <- construct "ConvResidualBlocks" ;;
       _ <- lookup "MultiScaleAttention" ;;
       _ <- lookup "nn" ;;
       _ <- construct "ConvResidualBlocks" ;;
       _ <- lookup "MultiScaleAttention" ;;
       ret ["feat_extract"; "feat_extract_2"]) ;;
  _ <- lookup "nn" ;;
  '(da, bb, fu) <- for_each (enumerate ["backward_1"; "forward_1"]) (init_branch a)
                     ([], [], []) ;;
  _ <- construct "ConvResidualBlocks" ;;
  _ <- lookup "nn" ;;
  let with_alignment := 0 <? length da in
  _ <- (if with_alignment then ret tt
        else emit (EvWarning "Deformable alignment module is not added. Probably your CUDA is not configured correctly. DCN can only be used with CUDA enabled. Alignment is skipped now.")) ;;
  ret {| mid_channels := arg_mid_channels a;
         is_low_res_input := arg_is_low_res_input a;
         cpu_cache_length := arg_cpu_cache_length a;
         attributes := extractors;
         deform_align := da;
         backbone := bb;
         fusion := fu;
         is_mirror_extended := false;
         is_with_alignment := with_alignment;
         cpu_cache := None |}.

(** *** check_if_mirror_extended *)

(** [a - b] for two sequences of one size: the subtraction is
    elementwise, hence frame by frame. *)
Definition sub_t (a b : tseq) : tseq :=
  with_frames a (map (fun p => kernel Sub [fst p; snd p]) (combine (frames a) (frames b))).

(** [torch.norm(x)]: one number computed from all the elements. *)
Definition norm (x : tseq) : V := kernel Norm (frames x).

(** [torch.norm(lqs_1 - lqs_2.flip(1)) == 0], computed in floating
    point: whether it holds is up to the numerics, it is not the
    equality of the two halves. *)
Definition halves_mirror (lqs : tseq) : bool :=
  let (lqs_1, lqs_2) := chunk2_t lqs in
  is_zero (norm (sub_t lqs_1 (flip_t lqs_2))).

Definition check_if_mirror_extended (self : MFRSR) (lqs : tseq) : MFRSR :=
  if length (frames lqs) mod 2 =? 0 then
    if halves_mirror lqs then set_is_mirror_extended self true else self
  else self.

(** *** compute_flow *)

Definition spynet (ref supp : tensor) : M tensor :=
  _ <- emit (EvSpyNet ref supp) ;;
  call SpyNet [ref; supp].

Definition compute_flow (self : MFRSR) (lqs : tseq) : M (tseq * tseq) :=
  let n := batch lqs in
  let t := length (frames lqs) in
  let c := chans lqs in
  let h := height lqs in
  let w := width lqs in
  let flow_size := [Z.of_nat n; (Z.of_nat t - 1)%Z; 2%Z; Z.of_nat h; Z.of_nat w] in
  lqs_1 <- flatten4 (drop_last lqs) c h w ;;
  lqs_2 <- flatten4 (drop_first lqs) c h w ;;
  fb <- spynet lqs_1 lqs_2 ;;
  flows_backward <- view5 fb flow_size ;;
  flows_forward <-
    (if is_mirror_extended self then ret (flip_t flows_backward)
     else
       ff <- spynet lqs_2 lqs_1 ;;
       view5 ff flow_size) ;;
  _ <- get_cpu_cache self ;;
  ret (flows_forward, flows_backward).

(** *** propagate *)

Definition features : Type := dict (list tensor).

(** The block under [if i > 0 and self.is_with_alignment:]; its value is
    [feat_prop] as it leaves the block. *)
Definition align_stage (self : MFRSR) (feats : features) (flows : tseq)
    (module_name : string) (flow_idx : list Z) (i : nat)
    (feat_current feat_prop : tensor) : M tensor :=
  if (0 <? i) && is_with_alignment self then
    k1 <- list_item flow_idx i ;;
    flow_n1 <- select_t flows k1 ;;
    flow_n1 <- cuda_if_cached self flow_n1 ;;
    p1 <- permute0231 flow_n1 ;;
    cond_n1 <- call flow_warp [feat_prop; p1] ;;
    second <-
      (if 1 <? i then
         own <- getitem feats module_name ;;
         feat_n2 <- lift_opt IndexError (py_index own (-2)%Z) ;;
         feat_n2 <- cuda_if_cached self feat_n2 ;;
         k2 <- list_item flow_idx (i - 1) ;;
         flow_n2 <- select_t flows k2 ;;
         flow_n2 <- cuda_if_cached self flow_n2 ;;
         p1 <- permute0231 flow_n1 ;;
         warped <- call flow_warp [flow_n2; p1] ;;
         flow_n2 <- add flow_n1 warped ;;
         p2 <- permute0231 flow_n2 ;;
         cond_n2 <- call flow_warp [feat_n2; p2] ;;
         ret (feat_n2, flow_n2, cond_n2)
       else ret (zeros_like feat_prop, zeros_like flow_n1, zeros_like cond_n1)) ;;
    let '(feat_n2, flow_n2, cond_n2) := second in
    cond <- cat1 [cond_n1; feat_current; cond_n2] ;;
    feat_prop <- cat1 [feat_prop; feat_n2] ;;
    a <- getitem (deform_align self) module_name ;;
    _ <- emit (EvAlign module_name i feat_prop) ;;
    SecondOrderDeformableAlignment_forward a feat_prop cond flow_n1 flow_n2
  else ret feat_prop.

(** [[feats[k][idx] for k in feats if k not in ['spatial', module_name]]] *)
Fixpoint last_feats (entries : features) (module_name : string) (idx : nat)
    : M (list tensor) :=
  match entries with
  | [] => ret []
  | (k, l) :: rest =>
      if String.eqb k "spatial" || String.eqb k module_name
      then last_feats rest module_name idx
      else
        x <- list_item l idx ;;
        xs <- last_feats rest module_name idx ;;
        ret (x :: xs)
  end.

(** The part of the loop body after the alignment block. *)
Definition fuse_stage (self : MFRSR) (feats : features) (module_name : string)
    (i idx : nat) (feat_current feat_prop : tensor) : M (tensor * features) :=
  last_feat <- last_feats feats module_name idx ;;
  feat_current <- cat1 (feat_current :: last_feat) ;;
  '(cin, cout, nblk) <- getitem (backbone self) module_name ;;
  feat_current <- call (ConvResidualBlocks ("backbone." ++ module_name) cin cout nblk)
                    [feat_current] ;;
  cache <- get_cpu_cache self ;;
  feat <- (if cache then
             a <- cuda feat_current ;;
             b <- cuda feat_prop ;;
             ret [a; b]
           else ret [feat_current; feat_prop]) ;;
  _ <- stack1 feat ;;
  '(nf, nfr, center) <- getitem (fusion self) module_name ;;
  _ <- emit (EvFusion module_name i feat_current feat_prop) ;;
  fused <- call (TSAFusion ("fusion." ++ module_name) nf nfr center) feat ;;
  feat_prop <- add feat_prop fused ;;
  own <- getitem feats module_name ;;
  ret (feat_prop, dict_set feats module_name (own ++ [feat_prop])).

Definition propagate_step (self : MFRSR) (flows : tseq) (module_name : string)
    (flow_idx : list Z) (mapping_idx : list nat) (entry : nat * nat)
    (acc : tensor * features) : M (tensor * features) :=
  let '(i, idx) := entry in
  let '(feat_prop, feats) := acc in
  spatial <- getitem feats "spatial" ;;
  k <- list_item mapping_idx idx ;;
  feat_current <- list_item spatial k ;;
  cache <- get_cpu_cache self ;;
  moved <- (if cache then
              a <- cuda feat_current ;;
              b <- cuda feat_prop ;;
              ret (a, b)
            else ret (feat_current, feat_prop)) ;;
  let '(feat_current, feat_prop) := moved in
  feat_prop <- align_stage self feats flows module_name flow_idx i feat_current feat_prop ;;
  fuse_stage self feats module_name i idx feat_current feat_prop.

Definition propagate (self : MFRSR) (feats : features) (flows : tseq)
    (module_name : string) : M features :=
  let n := batch flows in
  let t := length (frames flows) in
  let h := height flows in
  let w := width flows in
  let frame_idx := range (t + 1) in
  let flow_idx := map (fun k => (Z.of_nat k - 1)%Z) (range (t + 1)) in
  spatial <- getitem feats "spatial" ;;
  let mapping_idx := range (length spatial) ++ rev (range (length spatial)) in
  let frame_idx := if str_in "backward" module_name then rev frame_idx else frame_idx in
  let flow_idx := if str_in "backward" module_name then map Z.of_nat frame_idx else flow_idx in
  let feat_prop := new_zeros [n; mid_channels self; h; w] in
  '(_, feats) <- for_each (enumerate frame_idx)
                   (propagate_step self flows module_name flow_idx mapping_idx)
                   (feat_prop, feats) ;;
  if str_in "backward" module_name then
    own <- getitem feats module_name ;;
    ret (dict_set feats module_name (rev own))
  else ret feats.

(** *** upsample *)

(** [[feats[k].pop(0) for k in feats if k != 'spatial']]: the lists of the
    dictionary are shortened in place, so the dictionary is returned
    with the popped tensors.  [keys] are the keys still to visit. *)
Fixpoint pop_features (keys : list string) (feats : features)
    : M (list tensor * features) :=
  match keys with
  | [] => ret ([], feats)
  | k :: rest =>
      if String.eqb k "spatial" then pop_features rest feats
      else
        l <- getitem feats k ;;
        match l with
        | [] => raise IndexError
        | x :: l' =>
            '(xs, feats') <- pop_features rest (dict_set feats k l') ;;
            ret (x :: xs, feats')
        end
  end.

Definition upsample_step (self : MFRSR) (lqs : tseq) (mapping_idx : list nat)
    (i : nat) (acc : list tensor * features) : M (list tensor * features) :=
  let '(outputs, feats) := acc in
  let mid := mid_channels self in
  '(hr, feats) <- pop_features (dict_keys feats) feats ;;
  spatial <- getitem feats "spatial" ;;
  k <- list_item mapping_idx i ;;
  s <- list_item spatial k ;;
  hr <- cat1 (s :: hr) ;;
  hr <- cuda_if_cached self hr ;;
  hr <- call (ConvResidualBlocks "reconstruction" (3 * mid) mid 5) [hr] ;;
  hr <- conv2d "upconv1" mid (mid * 4) 3 1 1 hr ;;
  hr <- pixel_shuffle 2 hr ;;
  hr <- conv2d "upconv2" mid (64 * 4) 3 1 1 (lrelu hr) ;;
  hr <- pixel_shuffle 2 hr ;;
  hr <- conv2d "conv_hr" 64 64 3 1 1 (lrelu hr) ;;
  hr <- conv2d "conv_last" 64 3 3 1 1 (lrelu hr) ;;
  frame <- select_t lqs (Z.of_nat i) ;;
  hr <- (if is_low_res_input self then
           up <- img_upsample frame ;;
           iadd hr up
         else iadd hr frame) ;;
  _ <- get_cpu_cache self ;;
  ret (outputs ++ [hr], feats).

(** The dictionary is the caller's: it is returned as the loop leaves
    it. *)
Definition upsample (self : MFRSR) (lqs : tseq) (feats : features)
    : M (tseq * features) :=
  spatial <- getitem feats "spatial" ;;
  let num_outputs := length spatial in
  let mapping_idx := range num_outputs ++ rev (range num_outputs) in
  '(outputs, feats) <- for_each (range (length (frames lqs)))
                         (upsample_step self lqs mapping_idx) ([], feats) ;;
  out <- stack1 outputs ;;
  ret (out, feats).

(** *** forward *)

Definition feat_extract1 (self : MFRSR) (lqs : tseq) : M tensor :=
  _ <- getattr self "feat_extract1" ;;
  x <- flatten4 lqs (chans lqs) (height lqs) (width lqs) ;;
  y <- call (ConvResidualBlocks "feat_extract1.0" 3 (mid_channels self) 5) [x] ;;
  MultiScaleSmallKernelConvAndAttention_forward "feat_extract1.1" (mid_channels self) y.

Definition feat_extract2 (self : MFRSR) (lqs : tseq) : M tensor :=
  _ <- getattr self "feat_extract2" ;;
  x <- flatten4 lqs (chans lqs) (height lqs) (width lqs) ;;
  y <- call (ConvResidualBlocksModified "feat_extract2.0" 3 (mid_channels self) 5) [x] ;;
  MultiScaleLargeKernelConvAndAttention_forward "feat_extract2.1" (mid_channels self) y.

(** [feats_1 + feats_2] after the second branch is resized to the
    first. *)
Definition extract (self : MFRSR) (lqs : tseq) : M tensor :=
  feats_1 <- feat_extract1 self lqs ;;
  feats_2 <- feat_extract2 self lqs ;;
  '(h1, w1) <- spatial_of feats_1 ;;
  feats_2 <- interpolate_size "bilinear" h1 w1 feats_2 ;;
  add feats_1 feats_2.

(** The value of [feats['spatial']] for either value of [self.cpu_cache],
    with the values of the local variables [h, w] afterwards: they are
    rebound to the size of the features when the features are not
    cached. *)
Definition spatial_features (self : MFRSR) (lqs : tseq)
    : M (list tensor * (nat * nat)) :=
  let n := batch lqs in
  let t := length (frames lqs) in
  cache <- get_cpu_cache self ;;
  if cache then
    spatial <- for_each (range t)
      (fun _ spatial => feat <- extract self lqs ;; ret (spatial ++ [feat])) [] ;;
    ret (spatial, (height lqs, width lqs))
  else
    feats_ <- extract self lqs ;;
    '(h, w) <- spatial_of feats_ ;;
    feats_ <- view5 feats_ [Z.of_nat n; Z.of_nat t; (-1)%Z; Z.of_nat h; Z.of_nat w] ;;
    spatial <- for_each (range t)
      (fun i spatial => x <- select_t feats_ (Z.of_nat i) ;; ret (spatial ++ [x])) [] ;;
    ret (spatial, (h, w)).

(** [lqs_downsample] *)
Definition downsample (self : MFRSR) (lqs : tseq) : M tseq :=
  if is_low_res_input self then ret lqs
  else
    let n := batch lqs in
    let t := length (frames lqs) in
    let c := chans lqs in
    let h := height lqs in
    let w := width lqs in
    x <- flatten4 lqs c h w ;;
    x <- interpolate_size "bicubic" (h / 4) (w / 4) x ;;
    view5 x [Z.of_nat n; Z.of_nat t; Z.of_nat c; Z.of_nat (h / 4); Z.of_nat (w / 4)].

Definition show (n : nat) : string := NilZero.string_of_uint (Nat.to_uint n).

Definition size_message (h w : nat) : string :=
  "The height and width of low-res inputs must be at least 64, but got "
    ++ show h ++ " and " ++ show w ++ ".".

Definition assert_size (lqs_downsample : tseq) (h w : nat) : M unit :=
  if (64 <=? height lqs_downsample) && (64 <=? width lqs_downsample) then ret tt
  else raise (AssertionError (size_message h w)).

(** The body of the loop over the two directions.  [compute_flow] always
    returns a tensor for [flows_forward], so the test
    [flows_forward is not None] holds and the last branch,
    [flows_backward.flip(1)], is never taken. *)
Definition propagate_direction (self : MFRSR) (flows_forward flows_backward : tseq)
    (direction : string) (feats : features) : M features :=
  let module := (direction ++ "_1")%string in
  let feats := dict_set feats module [] in
  let flows := if String.eqb direction "backward" then flows_backward else flows_forward in
  propagate self feats flows module.

(** [forward] up to the call of [upsample]: the dictionary of features
    after the propagation in both directions. *)
Definition forward_features (self : MFRSR) (lqs lqs_downsample : tseq) : M features :=
  '(spatial, (h, w)) <- spatial_features self lqs ;;
  let feats := [("spatial", spatial)] in
  _ <- assert_size lqs_downsample h w ;;
  '(flows_forward, flows_backward) <- compute_flow self lqs_downsample ;;
  for_each ["backward"; "forward"]
    (propagate_direction self flows_forward flows_backward) feats.

(** [forward] from the feature extraction on, for the instance as the
    first statements of [forward] leave it. *)
Definition forward_rest (self : MFRSR) (lqs lqs_downsample : tseq) : M tseq :=
  feats <- forward_features self lqs lqs_downsample ;;
  '(out, _) <- upsample self lqs feats ;;
  ret out.

(** The instance after the call, with the log and the outcome. *)
Definition forward (self : MFRSR) (lqs : tseq) : MFRSR * M tseq :=
  let t := length (frames lqs) in
  let self := set_cpu_cache self (Z.of_nat t >? cpu_cache_length self)%Z in
  match downsample self lqs with
  | (tr, inl e) => (self, (tr, inl e))
  | (tr, inr lqs_downsample) =>
      let self := check_if_mirror_extended self lqs in
      (self, bind (tr, inr lqs_downsample) (forward_rest self lqs))
  end.

(** ** Vocabulary of the properties *)

(** The exceptions other than a failed [assert] and an unbound name. *)
Definition benign (e : exn) : Prop :=
  match e with
  | AssertionError _ | NameError _ => False
  | _ => True
  end.

(** Every logged call satisfies [Pe] and only benign exceptions are
    raised. *)
Definition obeys {A : Type} (Pe : event -> Prop) (m : M A) : Prop :=
  Forall Pe (trace m) /\ forall e, outcome m = inl e -> benign e.

Definition is_spynet_call (e : event) : bool :=
  match e with
  | EvSpyNet _ _ => true
  | _ => false
  end.

(** Number of invocations of the flow estimator in a log. *)
Definition spynet_calls (tr : list event) : nat :=
  length (filter is_spynet_call tr).

(** An even number of frames whose second half is the first half in
    reverse order. *)
Definition mirror_extended (lqs : tseq) : Prop :=
  let t := length (frames lqs) in
  t mod 2 = 0 /\ skipn (t / 2) (frames lqs) = rev (firstn (t / 2) (frames lqs)).

(** [torch.norm(x - x) == 0] holds for the sequence [x]: so it is when
    the values of [x] are finite, and not when one of them is infinite or
    not a number. *)
Definition cancels (x : tseq) : Prop := is_zero (norm (sub_t x x)) = true.

(** The instance after a series of calls of [forward]. *)
Definition after_calls (self : MFRSR) (inputs : list tseq) : MFRSR :=
  fold_left (fun s lqs => fst (forward s lqs)) inputs self.

(** What the calls logged by one step of [propagate] must look like:
    the step index is [i], the alignment is called after the first step
    only and with alignment enabled, and the first step fuses with the
    propagated state [feat_prop] it was entered with. *)
Definition step_event_ok (self : MFRSR) (i : nat) (feat_prop : tensor) (e : event) : Prop :=
  match e with
  | EvAlign _ j _ => j = i /\ 1 <= i /\ is_with_alignment self = true
  | EvFusion _ j _ fp => j = i /\ (i = 0 -> fp = feat_prop)
  | _ => False
  end.

(** The same for a whole run of [propagate] that starts from [zero]. *)
Definition propagate_event_ok (self : MFRSR) (zero : tensor) (e : event) : Prop :=
  match e with
  | EvAlign _ i _ => 1 <= i /\ is_with_alignment self = true
  | EvFusion _ i _ fp => i = 0 -> fp = zero
  | _ => False
  end.

(** The first axis of the tensor has size [n]. *)
Definition has_batch (n : nat) (x : tensor) : Prop :=
  hd_error (shape_of x) = Some n.

(** The tensor is four-dimensional with a first axis of size [b]. *)
Definition batch4 (b : nat) (x : tensor) : Prop :=
  exists c h w, shape_of x = [b; c; h; w].

(** The step indices of the calls of the fusion modules and of the
    alignment modules in a log, in the order of the calls. *)
Definition fusion_steps (tr : list event) : list nat :=
  flat_map (fun e => match e with
                     | EvFusion _ i _ _ => [i]
                     | _ => []
                     end) tr.

Definition align_steps (tr : list event) : list nat :=
  flat_map (fun e => match e with
                     | EvAlign _ i _ => [i]
                     | _ => []
                     end) tr.

(** What [[feats[k].pop(0) for k in feats if k != 'spatial']] collects,
    and the dictionary that it leaves, when every list that it visits has
    an element. *)
Definition popped (feats : features) : list tensor :=
  flat_map (fun '(k, l) => if String.eqb k "spatial" then [] else firstn 1 l) feats.

Definition after_pop (feats : features) : features :=
  map (fun '(k, l) => if String.eqb k "spatial" then (k, l) else (k, tl l)) feats.

(** The deformable convolutions of the attention blocks are built with
    the padding that keeps the size of the input ([kernel_size = 2 *
    padding + 1], as many output as input channels); this says that they
    do keep it. *)
Definition deform_conv_keeps_size : Prop :=
  forall layer c k pad x r,
    k = 2 * pad + 1 ->
    ext (DeformConv2d layer c c k pad) [x] = Some r -> shape_of r = shape_of x.

(** The reconstruction blocks return on every input of the size they
    are built for. *)
Definition reconstruction_returns (self : MFRSR) : Prop :=
  forall x n h w,
    shape_of x = [n; 3 * mid_channels self; h; w] ->
    exists r,
      ext (ConvResidualBlocks "reconstruction" (3 * mid_channels self) (mid_channels self) 5)
        [x] = Some r.

(** [forward] has assigned [self.cpu_cache], and a device is there when
    the cache is active. *)
Definition device_ready (self : MFRSR) : Prop :=
  exists cache, cpu_cache self = Some cache /\ (cache = true -> cuda_is_available = true).

(** A feature of the clip: a tensor of size (n, mid_channels, h, w). *)
Definition feature_of (self : MFRSR) (lqs : tseq) (x : tensor) : Prop :=
  shape_of x = [batch lqs; mid_channels self; height lqs; width lqs].

End Network.

Arguments event V : clear implicits.
Arguments M V A : clear implicits.

Notation "x <- m ;; k" := (bind m (fun x => k))
  (at level 61, m at next level, right associativity).

(** ** The offsets of the alignment module, value by value

    [SecondOrderDeformableAlignment.forward] builds the sampling offsets
    with operators that act along the channel axis only.  At one position
    (index in the batch, row, column) a tensor is the vector of its
    channels; the values are real numbers. *)
Module Channels.

Definition vec : Type := list R.

Fixpoint split_sizes (sizes : list nat) (x : vec) : list vec :=
  match sizes with
  | [] => []
  | s :: rest => firstn s x :: split_sizes rest (skipn s x)
  end.

(** [torch.chunk(x, k, dim=1)] *)
Definition chunk (x : vec) (k : nat) : list vec :=
  split_sizes (chunk_sizes (length x) k) x.

(** [torch.cat(xs, dim=1)] *)
Definition cat (xs : list vec) : vec := concat xs.

(** [m * torch.tanh(x)] *)
Definition scaled_tanh (m : Z) (x : vec) : vec := map (fun v => (IZR m * tanh v)%R) x.

(** [x.flip(1)] *)
Definition flip (x : vec) : vec := rev x.

(** [x.repeat(1, k, 1, 1)] *)
Definition repeat_channels (x : vec) (k : nat) : vec := concat (repeat x k).

(** [a + b], with broadcasting when one side has a single channel. *)
Definition add (a b : vec) : option vec :=
  if length a =? length b then Some (map (fun p => (fst p + snd p)%R) (combine a b))
  else if length b =? 1 then Some (map (fun v => (v + hd 0%R b)%R) a)
  else if length a =? 1 then Some (map (fun v => (hd 0%R a + v)%R) b)
  else None.

(** The value of [offset] before the deformable convolution, from the
    output [out] of [conv_offset] and the two flows. *)
Definition offsets (max_residue_magnitude : Z) (out flow_1 flow_2 : vec) : option vec :=
  match chunk out 3 with
  | [o1; o2; mask] =>
      let offset := scaled_tanh max_residue_magnitude (cat [o1; o2]) in
      match chunk offset 2 with
      | [offset_1; offset_2] =>
          match add offset_1 (repeat_channels (flip flow_1) (length offset_1 / 2)),
                add offset_2 (repeat_channels (flip flow_2) (length offset_2 / 2)) with
          | Some offset_1, Some offset_2 => Some (cat [offset_1; offset_2])
          | _, _ => None
          end
      | _ => None
      end
  | _ => None
  end.

End Channels.

(** ** A reference runtime

    Payloads are integers, hence finite: the difference of two
    payloads is their difference, the norm is given by the sum of the
    squares (which is zero exactly when the norm is), every other
    operator mixes its operands into a number, and the vendored operators
    produce the sizes they are documented to produce (the deformable and
    the modified blocks keep the spatial size). *)
Module Reference.

Definition op_code (o : op) : Z :=
  match o with
  | Flatten => 1 | Frame t i => 2 + Z.of_nat i | Zeros => 0 | Add => 3 | Mul => 4
  | Sub => 18 | Norm => 19
  | Cat => 5 | LeakyReLU => 6 | Sigmoid => 7 | Tanh => 8 | Scale m => 9 + m
  | Conv2d _ => 10 | PixelShuffle => 11 | Interpolate _ => 12 | Permute0231 => 13
  | FlipChannels => 14 | RepeatChannels k => 15 + Z.of_nat k
  | Chunk k i => 16 + Z.of_nat i | DeformConvOp _ => 17
  end%Z.

Definition mix (seed : Z) (args : list Z) : Z :=
  fold_left (fun acc v => ((acc * 31 + v) mod 1000003)%Z) args seed.

Definition ext_shape (f : extmod) (args : list shape) : option shape :=
  match f, args with
  | SpyNet, [[n; c; h; w]; s2] =>
      if shape_eqb s2 [n; c; h; w] then Some [n; 2; h; w] else None
  | ConvResidualBlocks _ cin cout _, [[n; c; h; w]] =>
      if c =? cin then Some [n; cout; h; w] else None
  | ConvResidualBlocksModified _ cin cout _, [[n; c; h; w]] =>
      if c =? cin then Some [n; cout; h; w] else None
  | DeformConv2d _ cin cout _ _, [[n; c; h; w]] =>
      if c =? cin then Some [n; cout; h; w] else None
  | TSAFusion _ nf _ _, [n; c; h; w] :: rest =>
      if (c =? nf) && forallb (shape_eqb [n; c; h; w]) rest then Some [n; c; h; w]
      else None
  | flow_warp, [[n; c; h; w]; [n'; h'; w'; two]] =>
      if (h =? h') && (w =? w') then Some [n; c; h; w] else None
  | _, _ => None
  end.

Definition ref_ext (f : extmod) (args : list (tensor Z)) : option (tensor Z) :=
  match ext_shape f (map shape_of args) with
  | Some s => Some (mkTensor s (mix 100 (map val args)))
  | None => None
  end.

Definition numerics (o : op) (args : list Z) : Z :=
  match o, args with
  | Sub, [a; b] => (a - b)%Z
  | Norm, _ => fold_right (fun v acc => (v * v + acc)%Z) 0%Z args
  | _, _ => mix (op_code o) args
  end.

(** The runtime with or without a CUDA device. *)
Definition runtime (cuda : bool) : Runtime Z :=
  {| kernel := numerics;
     is_zero := fun v => (v =? 0)%Z;
     ext := ref_ext;
     cuda_is_available := cuda;
     ctor_ok := fun _ => true |}.

(** The arguments of the constructor, all at their defaults but for the
    threshold of the memory policy. *)
Definition args (cache_length : Z) : init_args :=
  {| arg_mid_channels := 64; arg_num_blocks := 7; arg_max_residue_magnitude := 10;
     arg_is_low_res_input := true; arg_spynet_path := None;
     arg_cpu_cache_length := cache_length |}.

Definition alignment (module_name : string) : SecondOrderDeformableAlignment :=
  {| sa_layer := "deform_align." ++ module_name;
     in_channels := 128; out_channels := 64; kernel_size := 3; stride := 1;
     padding := 1; dilation := 1; deformable_groups := 16;
     sa_max_residue_magnitude := 10 |}.

Definition high_res_args : init_args :=
  {| arg_mid_channels := 64; arg_num_blocks := 7; arg_max_residue_magnitude := 10;
     arg_is_low_res_input := false; arg_spynet_path := None;
     arg_cpu_cache_length := 100 |}.

(** The instance that the constructor builds from [args]. *)
Definition instance (cuda : bool) (cache_length : Z) : MFRSR :=
  {| mid_channels := 64;
     is_low_res_input := true;
     cpu_cache_length := cache_length;
     attributes := ["feat_extract1"; "feat_extract2"];
     deform_align :=
       if cuda then [("backward_1", alignment "backward_1");
                     ("forward_1", alignment "forward_1")]
       else [];
     backbone := [("backward_1", (64, 64, 7)); ("forward_1", (128, 64, 7))];
     fusion := [("backward_1", (64, 2, 0)); ("forward_1", (64, 2, 0))];
     is_mirror_extended := false;
     is_with_alignment := cuda;
     cpu_cache := None |}.

(** A sequence of frames of size (1, 3, h, w) holding the given
    payloads. *)
Definition clip (h w : nat) (payloads : list Z) : tseq Z := mkSeq 1 3 h w payloads.

(** The output of a call of [forward], or the input when the call
    raises. *)
Definition output (cuda : bool) (self : MFRSR) (lqs : tseq Z) : tseq Z :=
  match outcome (snd (forward (R := runtime cuda) self lqs)) with
  | inr out => out
  | inl _ => lqs
  end.

(** The spatial features of a call of [forward] with the sizes that the
    assertion prints, or nothing when their computation raises. *)
Definition spatial (cuda : bool) (self : MFRSR) (lqs : tseq Z)
    : list (tensor Z) * (nat * nat) :=
  match outcome (spatial_features (R := runtime cuda) self lqs) with
  | inr r => r
  | inl _ => ([], (0, 0))
  end.

(** The dictionary of features after the propagation, or an empty one
    when the propagation raises. *)
Definition propagated (cuda : bool) (self : MFRSR) (lqs : tseq Z) : features :=
  match outcome (forward_features (R := runtime cuda) self lqs lqs) with
  | inr feats => feats
  | inl _ => []
  end.

End Reference.

(** ** A runtime with the special values of floating point

    A payload is a finite number, an infinity or not-a-number, with the
    arithmetic of IEEE 754 on them: [inf - inf] is not a number, a norm
    over not-a-number is not a number, and only a finite zero equals 0.
    The other operators do not look at special values, and the vendored
    operators are those of the reference runtime. *)
Module Ieee.

Inductive value : Type :=
| Finite (z : Z)
| PosInf
| NegInf
| NaN.

Definition sub (a b : value) : value :=
  match a, b with
  | NaN, _ | _, NaN => NaN
  | Finite x, Finite y => Finite (x - y)
  | PosInf, PosInf | NegInf, NegInf => NaN
  | PosInf, _ | _, NegInf => PosInf
  | NegInf, _ | _, PosInf => NegInf
  end.

Definition is_nan (v : value) : bool :=
  match v with
  | NaN => true
  | _ => false
  end.

Definition is_finite (v : value) : bool :=
  match v with
  | Finite _ => true
  | _ => false
  end.

Definition square (v : value) : Z :=
  match v with
  | Finite z => (z * z)%Z
  | _ => 0%Z
  end.

(** The norm, given by the sum of the squares when all values are
    finite. *)
Definition norm_of (l : list value) : value :=
  if existsb is_nan l then NaN
  else if forallb is_finite l
       then Finite (fold_right (fun v acc => (square v + acc)%Z) 0%Z l)
       else PosInf.

Definition code (v : value) : Z :=
  match v with
  | Finite z => z
  | PosInf => 1000001
  | NegInf => 1000002
  | NaN => 1000003
  end.

Definition numerics (o : op) (args : list value) : value :=
  match o, args with
  | Sub, [a; b] => sub a b
  | Norm, _ => norm_of args
  | _, _ => Finite (Reference.mix (Reference.op_code o) (map code args))
  end.

Definition equals_zero (v : value) : bool :=
  match v with
  | Finite z => (z =? 0)%Z
  | _ => false
  end.

Definition ieee_ext (f : extmod) (args : list (tensor value)) : option (tensor value) :=
  match Reference.ext_shape f (map shape_of args) with
  | Some s => Some (mkTensor s (Finite (Reference.mix 100 (map (fun x => code (val x)) args))))
  | None => None
  end.

Definition runtime (cuda : bool) : Runtime value :=
  {| kernel := numerics;
     is_zero := equals_zero;
     ext := ieee_ext;
     cuda_is_available := cuda;
     ctor_ok := fun _ => true |}.

(** A sequence of frames of size (1, 3, h, w) holding the given
    payloads. *)
Definition clip (h w : nat) (payloads : list value) : tseq value :=
  mkSeq 1 3 h w payloads.

End Ieee.

(** * Properties *)

Section Properties.

Context {V : Type} {R : Runtime V}.

(** ** The monad *)

Lemma outcome_bind_inr {A B : Type} (m : M V A) (k : A -> M V B) (b : B) :
  outcome (bind m k) = inr b ->
  exists a, outcome m = inr a /\ outcome (k a) = inr b.
Proof.
  destruct m as [tr [e | a]]; simpl; [discriminate |].
  destruct (k a) as [tr' r] eqn:Hk; simpl; intros ->.
  exists a; rewrite Hk; auto.
Qed.

Lemma outcome_bind_of {A B : Type} (m : M V A) (k : A -> M V B) (a : A) :
  outcome m = inr a -> outcome (bind m k) = outcome (k a).
Proof.
  destruct m as [tr [e | a']]; simpl; [discriminate |].
  intros [= ->]; destruct (k a); reflexivity.
Qed.

Lemma outcome_bind_inl {A B : Type} (m : M V A) (k : A -> M V B) (e : exn) :
  outcome m = inl e -> outcome (bind m k) = inl e.
Proof.
  destruct m as [tr [e' | a]]; simpl; [| discriminate].
  intros [= ->]; reflexivity.
Qed.

Lemma trace_bind {A B : Type} (m : M V A) (k : A -> M V B) :
  trace (bind m k) =
  trace m ++ match outcome m with
             | inr a => trace (k a)
             | inl _ => []
             end.
Proof.
  destruct m as [tr [e | a]]; simpl.
  - now rewrite app_nil_r.
  - destruct (k a); reflexivity.
Qed.

Lemma outcome_lift_opt {A : Type} (e : exn) (o : option A) (a : A) :
  outcome (lift_opt (V := V) e o) = inr a -> o = Some a.
Proof. destruct o; simpl; congruence. Qed.

Lemma trace_lift_opt {A : Type} (e : exn) (o : option A) :
  trace (lift_opt (V := V) e o) = [].
Proof. destruct o; reflexivity. Qed.

Lemma outcome_ret {A : Type} (a b : A) :
  outcome (ret (V := V) a) = inr b -> a = b.
Proof. simpl; congruence. Qed.

(** Splits a successful run of a chain of binds into its successful
    steps. *)
Ltac ok_inv H :=
  repeat match type of H with
  | outcome (bind _ _) = inr _ =>
      let x := fresh "x" in
      let Hx := fresh "Hx" in
      apply outcome_bind_inr in H; destruct H as (x & Hx & H); cbv beta in H
  | outcome (match ?p with (_, _) => _ end) = inr _ => destruct p
  | outcome (ret _) = inr _ => apply outcome_ret in H
  end.

(** ** Construction *)

Lemma init_high_res_raises (a : init_args) :
  arg_is_low_res_input a = false ->
  exists e, outcome (MFRSR_init a) = inl e.
Proof.
  intros Ha; unfold MFRSR_init; rewrite Ha.
  unfold construct, lookup; simpl.
  destruct (ctor_ok "SpyNet"); simpl; eauto.
  destruct (ctor_ok "ConvResidualBlocks"); simpl; eauto.
Qed.

(** C10: with [is_low_res_input=False] the constructor always raises, on
    the unbound name [MultiScaleAttention] as soon as the vendored
    constructors before it return; hence every instance that exists was
    built in the low-resolution mode and is the only kind that defines
    [feat_extract1] and [feat_extract2], the attributes that the feature
    extraction of [forward] reads. *)
Theorem high_res_construction_fails (a : init_args) :
  arg_is_low_res_input a = false ->
  (exists e, outcome (MFRSR_init a) = inl e) /\
  (ctor_ok "SpyNet" = true -> ctor_ok "ConvResidualBlocks" = true ->
   outcome (MFRSR_init a) = inl (NameError "MultiScaleAttention")) /\
  (forall a' self, outcome (MFRSR_init a') = inr self ->
     is_low_res_input self = true /\
     attributes self = ["feat_extract1"; "feat_extract2"]).
Proof.
  intros Ha; split; [now apply init_high_res_raises |]; split.
  - intros H1 H2; unfold MFRSR_init; rewrite Ha.
    unfold construct, lookup; simpl; rewrite H1; simpl; rewrite H2; reflexivity.
  - intros a' self H.
    destruct (arg_is_low_res_input a') eqn:Hl.
    + unfold MFRSR_init in H; rewrite Hl in H.
      ok_inv H. subst self; simpl.
      ok_inv Hx0. subst; auto.
    + destruct (init_high_res_raises a' Hl) as [e He]; congruence.
Qed.

(** ** Logs and exceptions of the operators *)

Lemma obeys_ret {A : Type} (Pe : event V -> Prop) (a : A) : obeys Pe (ret a).
Proof. split; [constructor | simpl; discriminate]. Qed.

Lemma obeys_raise {A : Type} (Pe : event V -> Prop) (e : exn) :
  benign e -> obeys Pe (raise (A := A) e).
Proof. intros He; split; [constructor | simpl; intros ? [= <-]; exact He]. Qed.

Lemma obeys_lift_opt {A : Type} (Pe : event V -> Prop) (e : exn) (o : option A) :
  benign e -> obeys Pe (lift_opt e o).
Proof. destruct o; [intros; apply obeys_ret | apply obeys_raise]. Qed.

Lemma obeys_emit (Pe : event V -> Prop) (e : event V) : Pe e -> obeys Pe (emit e).
Proof. intros He; split; [repeat constructor; exact He | simpl; discriminate]. Qed.

Lemma obeys_bind_ok {A B : Type} (Pe : event V -> Prop) (m : M V A) (k : A -> M V B) :
  obeys Pe m -> (forall a, outcome m = inr a -> obeys Pe (k a)) -> obeys Pe (bind m k).
Proof.
  intros [Ht Hx] Hk; split.
  - rewrite trace_bind; apply Forall_app; split; [exact Ht |].
    destruct (outcome m) as [e | a] eqn:Ho; [constructor | apply (Hk a eq_refl)].
  - intros e He. destruct (outcome m) as [e' | a] eqn:Ho.
    + rewrite (outcome_bind_inl m k Ho) in He. injection He as <-; auto.
    + rewrite (outcome_bind_of m k Ho) in He. apply (Hk a eq_refl); exact He.
Qed.

Lemma obeys_bind {A B : Type} (Pe : event V -> Prop) (m : M V A) (k : A -> M V B) :
  obeys Pe m -> (forall a, obeys Pe (k a)) -> obeys Pe (bind m k).
Proof. intros Hm Hk; apply obeys_bind_ok; auto. Qed.

Lemma obeys_for_each {A S : Type} (Pe : event V -> Prop) (xs : list A)
    (body : A -> S -> M V S) :
  (forall x acc, obeys Pe (body x acc)) -> forall acc, obeys Pe (for_each xs body acc).
Proof.
  intros Hb; induction xs as [| x xs IH]; intros acc; simpl.
  - apply obeys_ret.
  - apply obeys_bind; auto.
Qed.

Lemma obeys_mono {A : Type} (Pe Qe : event V -> Prop) (m : M V A) :
  (forall e, Pe e -> Qe e) -> obeys Pe m -> obeys Qe m.
Proof.
  intros H [Ht Hx]; split; [| exact Hx].
  eapply Forall_impl; eauto.
Qed.

Create HintDb obeys.

(** Decomposes a goal [obeys Pe m] along the structure of [m]. *)
Ltac obey :=
  repeat first
    [ progress intros
    | apply obeys_ret
    | apply obeys_raise; exact I
    | apply obeys_lift_opt; exact I
    | solve [auto with obeys]
    | apply obeys_bind
    | apply obeys_for_each
    | match goal with
      | |- obeys _ (match ?x with _ => _ end) => destruct x
      end ].

Section Quiet.

Variable Pe : event V -> Prop.

Lemma prim_obeys what o s args : obeys Pe (prim what o s args).
Proof. unfold prim; obey. Qed.

Lemma call_obeys f args : obeys Pe (call f args).
Proof. unfold call; obey. Qed.

Hint Resolve prim_obeys call_obeys : obeys.

Lemma add_obeys a b : obeys Pe (add a b).
Proof. unfold add; obey. Qed.

Lemma mul_obeys a b : obeys Pe (mul a b).
Proof. unfold mul; obey. Qed.

Lemma iadd_obeys a b : obeys Pe (iadd a b).
Proof. unfold iadd; obey. Qed.

Lemma cat1_obeys ts : obeys Pe (cat1 ts).
Proof. unfold cat1; obey. Qed.

Lemma stack1_obeys ts : obeys Pe (stack1 ts).
Proof. unfold stack1; obey. Qed.

Lemma conv2d_obeys layer cin cout k s p x : obeys Pe (conv2d layer cin cout k s p x).
Proof. unfold conv2d; obey. Qed.

Lemma pixel_shuffle_obeys r x : obeys Pe (pixel_shuffle r x).
Proof. unfold pixel_shuffle; obey. Qed.

Lemma interpolate_size_obeys mode h w x : obeys Pe (interpolate_size mode h w x).
Proof. unfold interpolate_size; obey. Qed.

Hint Resolve add_obeys mul_obeys iadd_obeys cat1_obeys stack1_obeys conv2d_obeys
  pixel_shuffle_obeys interpolate_size_obeys : obeys.

Lemma spatial_of_obeys x : obeys Pe (spatial_of x).
Proof. unfold spatial_of; obey. Qed.

Lemma img_upsample_obeys x : obeys Pe (img_upsample x).
Proof. unfold img_upsample; obey. Qed.

Lemma permute0231_obeys x : obeys Pe (permute0231 x).
Proof. unfold permute0231; obey. Qed.

Lemma cuda_obeys x : obeys Pe (cuda x).
Proof. unfold cuda; obey. Qed.

Lemma select_t_obeys x i : obeys Pe (select_t x i).
Proof. unfold select_t; obey. Qed.

Lemma flatten4_obeys x c h w : obeys Pe (flatten4 x c h w).
Proof. unfold flatten4; obey. Qed.

Lemma view5_obeys x dims : obeys Pe (view5 x dims).
Proof. unfold view5; obey. Qed.

Lemma chunk1_obeys x k : obeys Pe (chunk1 x k).
Proof. unfold chunk1; obey. Qed.

Lemma repeat_channels_obeys x k : obeys Pe (repeat_channels x k).
Proof. unfold repeat_channels; obey. Qed.

Lemma size1_obeys x : obeys Pe (size1 x).
Proof. unfold size1; obey. Qed.

Hint Resolve spatial_of_obeys img_upsample_obeys permute0231_obeys cuda_obeys
  select_t_obeys flatten4_obeys view5_obeys chunk1_obeys repeat_channels_obeys
  size1_obeys : obeys.

Lemma getattr_obeys self name : obeys Pe (getattr self name).
Proof. unfold getattr; obey. Qed.

Lemma get_cpu_cache_obeys self : obeys Pe (get_cpu_cache self).
Proof. unfold get_cpu_cache; obey. Qed.

Lemma getitem_obeys {A : Type} (d : dict A) k : obeys Pe (getitem d k).
Proof. unfold getitem; obey. Qed.

Lemma list_item_obeys {A : Type} (l : list A) i : obeys Pe (list_item l i).
Proof. unfold list_item; obey. Qed.

Hint Resolve getattr_obeys get_cpu_cache_obeys getitem_obeys list_item_obeys : obeys.

Lemma cuda_if_cached_obeys self x : obeys Pe (cuda_if_cached self x).
Proof. unfold cuda_if_cached; obey. Qed.

Hint Resolve cuda_if_cached_obeys : obeys.

Lemma small_kernel_obeys layer c x :
  obeys Pe (MultiScaleSmallKernelConvAndAttention_forward layer c x).
Proof. unfold MultiScaleSmallKernelConvAndAttention_forward; obey. Qed.

Lemma large_kernel_obeys layer c x :
  obeys Pe (MultiScaleLargeKernelConvAndAttention_forward layer c x).
Proof. unfold MultiScaleLargeKernelConvAndAttention_forward; obey. Qed.

Lemma conv_offset_obeys a x : obeys Pe (conv_offset a x).
Proof. unfold conv_offset; obey. Qed.

Hint Resolve small_kernel_obeys large_kernel_obeys conv_offset_obeys : obeys.

Lemma alignment_forward_obeys a x extra flow_1 flow_2 :
  obeys Pe (SecondOrderDeformableAlignment_forward a x extra flow_1 flow_2).
Proof. unfold SecondOrderDeformableAlignment_forward; obey. Qed.

Lemma feat_extract1_obeys self lqs : obeys Pe (feat_extract1 self lqs).
Proof. unfold feat_extract1; obey. Qed.

Lemma feat_extract2_obeys self lqs : obeys Pe (feat_extract2 self lqs).
Proof. unfold feat_extract2; obey. Qed.

Hint Resolve alignment_forward_obeys feat_extract1_obeys feat_extract2_obeys : obeys.

Lemma extract_obeys self lqs : obeys Pe (extract self lqs).
Proof. unfold extract; obey. Qed.

Hint Resolve extract_obeys : obeys.

Lemma spatial_features_obeys self lqs : obeys Pe (spatial_features self lqs).
Proof. unfold spatial_features; obey. Qed.

Lemma downsample_obeys self lqs : obeys Pe (downsample self lqs).
Proof. unfold downsample; obey. Qed.

Lemma last_feats_obeys entries module_name idx :
  obeys Pe (last_feats entries module_name idx).
Proof. induction entries as [| [k l] rest IH]; simpl; obey. Qed.

Lemma pop_features_obeys keys : forall feats, obeys Pe (pop_features keys feats).
Proof. induction keys as [| k rest IH]; simpl; obey. Qed.

Hint Resolve last_feats_obeys pop_features_obeys : obeys.

Lemma upsample_step_obeys self lqs mapping_idx i acc :
  obeys Pe (upsample_step self lqs mapping_idx i acc).
Proof. unfold upsample_step; obey. Qed.

Hint Resolve upsample_step_obeys : obeys.

Lemma upsample_obeys self lqs feats : obeys Pe (upsample self lqs feats).
Proof. unfold upsample; obey. Qed.

End Quiet.

#[local] Hint Resolve prim_obeys call_obeys add_obeys mul_obeys iadd_obeys cat1_obeys
  stack1_obeys conv2d_obeys pixel_shuffle_obeys interpolate_size_obeys
  spatial_of_obeys img_upsample_obeys permute0231_obeys cuda_obeys select_t_obeys
  flatten4_obeys view5_obeys chunk1_obeys repeat_channels_obeys size1_obeys
  getattr_obeys get_cpu_cache_obeys getitem_obeys list_item_obeys
  cuda_if_cached_obeys alignment_forward_obeys spatial_features_obeys
  downsample_obeys last_feats_obeys upsample_obeys : obeys.

(** ** Logs of compute_flow and propagate *)

Lemma spynet_obeys ref supp :
  obeys (fun e => is_spynet_call e = true) (spynet ref supp).
Proof.
  unfold spynet; apply obeys_bind; [apply obeys_emit; reflexivity | obey].
Qed.

Lemma compute_flow_obeys self lqs :
  obeys (fun e => is_spynet_call e = true) (compute_flow self lqs).
Proof.
  pose proof spynet_obeys.
  unfold compute_flow; obey.
Qed.

Lemma outcome_cuda x y : outcome (cuda x) = inr y -> y = x.
Proof. unfold cuda; destruct cuda_is_available; simpl; congruence. Qed.

Lemma align_stage_first self feats flows module_name flow_idx feat_current feat_prop :
  align_stage self feats flows module_name flow_idx 0 feat_current feat_prop
  = ret feat_prop.
Proof. reflexivity. Qed.

Lemma align_stage_disabled self feats flows module_name flow_idx i feat_current feat_prop :
  is_with_alignment self = false ->
  align_stage self feats flows module_name flow_idx i feat_current feat_prop
  = ret feat_prop.
Proof.
  intros H; unfold align_stage; rewrite H, andb_false_r; reflexivity.
Qed.

Lemma align_stage_obeys self feats flows module_name flow_idx i feat_current feat_prop fp0 :
  obeys (step_event_ok self i fp0)
    (align_stage self feats flows module_name flow_idx i feat_current feat_prop).
Proof.
  unfold align_stage.
  destruct ((0 <? i) && is_with_alignment self) eqn:Hc; [| obey].
  apply andb_true_iff in Hc as [Hi Ha]; apply Nat.ltb_lt in Hi.
  obey. apply obeys_emit; simpl; auto.
Qed.

Lemma fuse_stage_obeys self feats module_name i idx feat_current feat_prop :
  obeys (step_event_ok self i feat_prop)
    (fuse_stage self feats module_name i idx feat_current feat_prop).
Proof.
  unfold fuse_stage; obey.
  apply obeys_emit; simpl; auto.
Qed.

Lemma propagate_step_obeys self flows module_name flow_idx mapping_idx i idx feat_prop feats :
  obeys (step_event_ok self i feat_prop)
    (propagate_step self flows module_name flow_idx mapping_idx (i, idx) (feat_prop, feats)).
Proof.
  unfold propagate_step.
  apply obeys_bind; [obey | intros spatial].
  apply obeys_bind; [obey | intros k].
  apply obeys_bind; [obey | intros feat_current].
  apply obeys_bind; [obey | intros cache].
  apply obeys_bind_ok; [obey | intros [fc fp] Hm].
  assert (Hfp : fp = feat_prop).
  { destruct cache.
    - ok_inv Hm. apply outcome_cuda in Hx0. congruence.
    - ok_inv Hm. congruence. }
  subst fp.
  apply obeys_bind_ok; [apply align_stage_obeys | intros fp' Ha].
  eapply obeys_mono; [| apply fuse_stage_obeys].
  intros [| | |m j c p]; simpl; auto.
  intros [-> Hz]; split; auto.
  intros ->. rewrite align_stage_first in Ha. apply outcome_ret in Ha.
  subst fp'; auto.
Qed.

Lemma propagate_loop_obeys self flows module_name flow_idx mapping_idx zero :
  forall (idxs : list nat) (k : nat) (acc : tensor V * features),
    (k = 0 -> fst acc = zero) ->
    obeys (propagate_event_ok self zero)
      (for_each (combine (seq k (length idxs)) idxs)
         (propagate_step self flows module_name flow_idx mapping_idx) acc).
Proof.
  induction idxs as [| idx idxs IH]; intros k [fp feats] Hk; simpl.
  - apply obeys_ret.
  - apply obeys_bind.
    + eapply obeys_mono; [| apply propagate_step_obeys].
      intros [| | m j p | m j c p]; simpl; auto.
      * intros (-> & H1 & H2); auto.
      * intros (-> & H) ->. rewrite H; auto.
    + intros acc'. apply IH. discriminate.
Qed.

Lemma propagate_obeys self feats flows module_name :
  obeys (propagate_event_ok self
           (new_zeros [batch flows; mid_channels self; height flows; width flows]))
    (propagate self feats flows module_name).
Proof.
  unfold propagate.
  apply obeys_bind; [obey | intros spatial].
  apply obeys_bind; [| obey].
  apply (propagate_loop_obeys self flows module_name); auto.
Qed.

(** C5: in every run of [propagate] the alignment module is called at
    step indices of at least 1 only (and only with alignment enabled), the
    state that the first step fuses is the zero initialisation, the
    alignment block of the first step returns the propagated state as it
    is, and so does the block of every step when no alignment module was
    added. *)
Theorem alignment_only_after_first_step self feats flows module_name :
  (forall e, In e (trace (propagate self feats flows module_name)) ->
     match e with
     | EvAlign _ i _ => 1 <= i /\ is_with_alignment self = true
     | EvFusion _ i _ feat_prop =>
         i = 0 ->
         feat_prop = new_zeros [batch flows; mid_channels self; height flows; width flows]
     | _ => True
     end) /\
  (forall flow_idx feat_current feat_prop,
     align_stage self feats flows module_name flow_idx 0 feat_current feat_prop
     = ret feat_prop) /\
  (is_with_alignment self = false ->
   forall flow_idx i feat_current feat_prop,
     align_stage self feats flows module_name flow_idx i feat_current feat_prop
     = ret feat_prop).
Proof.
  split; [| split].
  - intros e He.
    destruct (propagate_obeys self feats flows module_name) as [Ht _].
    rewrite Forall_forall in Ht. specialize (Ht e He).
    destruct e; simpl in *; auto.
  - intros; apply align_stage_first.
  - intros H **; now apply align_stage_disabled.
Qed.

(** ** The mirror flag *)

Lemma halves_mirror_true lqs :
  mirror_extended lqs -> cancels (fst (chunk2_t lqs)) -> halves_mirror lqs = true.
Proof.
  intros [_ H] Hc; unfold cancels in Hc; unfold halves_mirror.
  unfold chunk2_t, flip_t, sub_t, norm, with_frames in *.
  cbn -[Nat.div Nat.modulo] in *.
  now rewrite H, rev_involutive.
Qed.

Lemma check_sets_flag self lqs :
  mirror_extended lqs -> cancels (fst (chunk2_t lqs)) ->
  is_mirror_extended (check_if_mirror_extended self lqs) = true.
Proof.
  intros H Hc; unfold check_if_mirror_extended.
  rewrite (halves_mirror_true H Hc).
  destruct H as [-> _]; reflexivity.
Qed.

Lemma check_keeps_flag self lqs :
  is_mirror_extended self = true ->
  is_mirror_extended (check_if_mirror_extended self lqs) = true.
Proof.
  intros H; unfold check_if_mirror_extended.
  destruct (_ =? 0); [destruct (halves_mirror lqs) |]; auto.
Qed.

Lemma check_keeps_config self lqs :
  let self' := check_if_mirror_extended self lqs in
  is_low_res_input self' = is_low_res_input self /\
  cpu_cache_length self' = cpu_cache_length self /\
  cpu_cache self' = cpu_cache self.
Proof.
  unfold check_if_mirror_extended.
  destruct (_ =? 0); [destruct (halves_mirror lqs) |]; auto.
Qed.

Lemma forward_keeps_flag self lqs :
  is_mirror_extended self = true -> is_mirror_extended (fst (forward self lqs)) = true.
Proof.
  intros H; unfold forward.
  destruct (downsample _ lqs) as [tr [e | d]]; simpl; auto.
  apply check_keeps_flag; auto.
Qed.

Lemma forward_low_res_instance self lqs :
  is_low_res_input self = true ->
  fst (forward self lqs)
  = check_if_mirror_extended
      (set_cpu_cache self (Z.of_nat (length (frames lqs)) >? cpu_cache_length self)%Z) lqs.
Proof.
  intros H; unfold forward, downsample; simpl; rewrite H; reflexivity.
Qed.

Lemma compute_flow_mirrored self lqs ff fb :
  is_mirror_extended self = true ->
  outcome (compute_flow self lqs) = inr (ff, fb) -> ff = flip_t fb.
Proof.
  intros Hm H; unfold compute_flow in H; rewrite Hm in H.
  ok_inv H. apply outcome_ret in Hx3. congruence.
Qed.

(** *** Counting the calls of the flow estimator *)

Lemma spynet_calls_app (tr1 tr2 : list (event V)) :
  spynet_calls (tr1 ++ tr2) = spynet_calls tr1 + spynet_calls tr2.
Proof. unfold spynet_calls; now rewrite filter_app, length_app. Qed.

Lemma calls_bind_le {A B : Type} (a b : nat) (m : M V A) (k : A -> M V B) :
  spynet_calls (trace m) <= a ->
  (forall x, spynet_calls (trace (k x)) <= b) ->
  spynet_calls (trace (bind m k)) <= a + b.
Proof.
  intros Hm Hk; rewrite trace_bind, spynet_calls_app.
  destruct (outcome m) as [e | x]; [unfold spynet_calls in *; simpl; lia | specialize (Hk x); lia].
Qed.

Lemma no_calls {A : Type} (m : M V A) :
  obeys (fun e => is_spynet_call e = false) m -> spynet_calls (trace m) <= 0.
Proof.
  intros [Ht _]; unfold spynet_calls.
  induction Ht as [| e tr He _ IH]; simpl; [lia |].
  rewrite He; exact IH.
Qed.

Lemma propagate_no_calls self feats flows module_name :
  spynet_calls (trace (propagate self feats flows module_name)) <= 0.
Proof.
  apply no_calls. eapply obeys_mono; [| apply propagate_obeys].
  intros [| | |]; simpl; tauto.
Qed.

Lemma compute_flow_mirrored_calls self lqs :
  is_mirror_extended self = true ->
  spynet_calls (trace (compute_flow self lqs)) <= 1.
Proof.
  intros Hm; unfold compute_flow; rewrite Hm.
  apply calls_bind_le with (a := 0) (b := 1); [apply no_calls; obey | intros lqs_1].
  apply calls_bind_le with (a := 0) (b := 1); [apply no_calls; obey | intros lqs_2].
  apply calls_bind_le with (a := 1) (b := 0).
  { unfold spynet. apply calls_bind_le with (a := 1) (b := 0); [reflexivity | intros; apply no_calls; obey]. }
  intros fbt.
  apply calls_bind_le with (a := 0) (b := 0); [apply no_calls; obey | intros].
  apply calls_bind_le with (a := 0) (b := 0); [apply no_calls; obey | intros].
  apply calls_bind_le with (a := 0) (b := 0); [apply no_calls; obey | intros].
  apply no_calls; obey.
Qed.

Lemma forward_rest_mirrored_calls self lqs d :
  is_mirror_extended self = true ->
  spynet_calls (trace (forward_rest self lqs d)) <= 1.
Proof.
  intros Hm; unfold forward_rest.
  apply calls_bind_le with (a := 1) (b := 0); [| intros; apply no_calls; obey].
  unfold forward_features.
  apply calls_bind_le with (a := 0) (b := 1); [apply no_calls; obey | intros [spatial [h w]]].
  apply calls_bind_le with (a := 0) (b := 1).
  { unfold assert_size. destruct (_ && _); unfold spynet_calls; simpl; lia. }
  intros _.
  apply calls_bind_le with (a := 1) (b := 0); [now apply compute_flow_mirrored_calls |].
  intros [ff fb].
  assert (Hloop : forall dirs feats,
             spynet_calls (trace (for_each dirs (propagate_direction self ff fb) feats)) <= 0).
  { induction dirs as [| dir dirs IH]; intros feats; simpl.
    - reflexivity.
    - apply calls_bind_le with (a := 0) (b := 0); [apply propagate_no_calls | auto]. }
  apply Hloop.
Qed.

Lemma forward_mirrored_calls self lqs :
  is_mirror_extended (fst (forward self lqs)) = true ->
  spynet_calls (trace (snd (forward self lqs))) <= 1.
Proof.
  unfold forward.
  pose proof (downsample_obeys (fun e => is_spynet_call e = false)
                (set_cpu_cache self (Z.of_nat (length (frames lqs)) >? cpu_cache_length self)%Z)
                lqs) as Hd.
  apply no_calls in Hd.
  destruct (downsample _ lqs) as [tr [e | d]]; cbn [fst snd]; intros Hm.
  - lia.
  - apply calls_bind_le with (a := 0) (b := 1); [exact Hd |].
    intros x; now apply forward_rest_mirrored_calls.
Qed.

(** C2, as amended: for an even number of frames whose second half is
    the first half reversed, and whose values are such that the norm of
    the first half minus itself is exactly 0 (finite values, not
    infinities or not-a-number), [check_if_mirror_extended] sets the flag,
    [forward] leaves the instance with the flag set, [compute_flow] on
    that instance takes the forward flow to be the backward flow flipped
    along the time axis, and the whole call invokes the flow estimator at
    most once. *)
Theorem mirror_extended_input_reuses_backward_flow self lqs :
  is_low_res_input self = true ->
  mirror_extended lqs ->
  cancels (fst (chunk2_t lqs)) ->
  is_mirror_extended (check_if_mirror_extended self lqs) = true /\
  is_mirror_extended (fst (forward self lqs)) = true /\
  (forall d ff fb,
     outcome (compute_flow (fst (forward self lqs)) d) = inr (ff, fb) ->
     ff = flip_t fb) /\
  spynet_calls (trace (snd (forward self lqs))) <= 1.
Proof.
  intros Hl Hm Hc.
  assert (Hf : is_mirror_extended (fst (forward self lqs)) = true).
  { rewrite (forward_low_res_instance _ _ Hl). now apply check_sets_flag. }
  repeat split; auto.
  - now apply check_sets_flag.
  - intros d ff fb; now apply compute_flow_mirrored.
  - now apply forward_mirrored_calls.
Qed.

Lemma after_calls_keeps_flag inputs : forall self,
  is_mirror_extended self = true -> is_mirror_extended (after_calls self inputs) = true.
Proof.
  induction inputs as [| lqs inputs IH]; intros self H; simpl; auto.
  apply IH, forward_keeps_flag, H.
Qed.

(** C9: once the flag is set it stays set over any series of calls of
    [forward], whatever the inputs, and every later call takes the forward
    flow to be the flipped backward flow and invokes the flow estimator at
    most once. *)
Theorem mirror_flag_is_never_reset self inputs lqs :
  is_mirror_extended self = true ->
  is_mirror_extended (after_calls self inputs) = true /\
  is_mirror_extended (fst (forward (after_calls self inputs) lqs)) = true /\
  (forall d ff fb,
     outcome (compute_flow (fst (forward (after_calls self inputs) lqs)) d) = inr (ff, fb) ->
     ff = flip_t fb) /\
  spynet_calls (trace (snd (forward (after_calls self inputs) lqs))) <= 1.
Proof.
  intros H.
  pose proof (after_calls_keeps_flag inputs self H) as H1.
  pose proof (forward_keeps_flag (after_calls self inputs) lqs H1) as H2.
  repeat split; auto.
  - intros d ff fb; now apply compute_flow_mirrored.
  - now apply forward_mirrored_calls.
Qed.

(** ** Running forward again *)

Lemma set_cpu_cache_same self b : cpu_cache self = Some b -> set_cpu_cache self b = self.
Proof. destruct self; simpl; intros ->; reflexivity. Qed.

Lemma check_idempotent self lqs :
  check_if_mirror_extended (check_if_mirror_extended self lqs) lqs
  = check_if_mirror_extended self lqs.
Proof.
  unfold check_if_mirror_extended.
  destruct (_ =? 0); [destruct (halves_mirror lqs) |]; reflexivity.
Qed.

Lemma downsample_config self self' lqs :
  is_low_res_input self = is_low_res_input self' ->
  downsample self lqs = downsample self' lqs.
Proof. intros H; unfold downsample; now rewrite H. Qed.

Lemma forward_again self lqs :
  forward (fst (forward self lqs)) lqs = forward self lqs.
Proof.
  unfold forward at 2 3.
  set (b := (Z.of_nat (length (frames lqs)) >? cpu_cache_length self)%Z).
  set (self0 := set_cpu_cache self b).
  destruct (downsample self0 lqs) as [tr [e | d]] eqn:Hd; cbn [fst].
  - unfold forward. change (cpu_cache_length self0) with (cpu_cache_length self).
    fold b. rewrite (@set_cpu_cache_same self0 b eq_refl), Hd. reflexivity.
  - destruct (check_keeps_config self0 lqs) as (Hl & Hc & Hk).
    unfold forward. rewrite Hc. change (cpu_cache_length self0) with (cpu_cache_length self).
    fold b. rewrite (@set_cpu_cache_same _ b Hk).
    rewrite (downsample_config _ self0 lqs Hl), Hd, check_idempotent. reflexivity.
Qed.

(** C4: a second call of [forward] on the same instance with the same
    input leaves the instance as the first call left it and has the same
    outcome (the same output tensor or the same exception) and the same
    log of calls. *)
Theorem forward_twice_same_output self lqs :
  snd (forward (fst (forward self lqs)) lqs) = snd (forward self lqs) /\
  fst (forward (fst (forward self lqs)) lqs) = fst (forward self lqs).
Proof. rewrite forward_again; auto. Qed.

(** ** The size assertion *)

Lemma outcome_pair {A : Type} (tr : list (event V)) (r : exn + A) :
  outcome (tr, r) = r.
Proof. reflexivity. Qed.

Lemma propagate_direction_obeys self ff fb direction feats :
  obeys (fun _ => True) (propagate_direction self ff fb direction feats).
Proof.
  unfold propagate_direction.
  eapply obeys_mono; [| apply propagate_obeys]. auto.
Qed.

Lemma forward_features_after_assert self lqs d :
  64 <= height d -> 64 <= width d ->
  obeys (fun _ => True) (forward_features self lqs d).
Proof.
  intros Hh Hw; unfold forward_features.
  apply obeys_bind; [obey | intros [spatial [h w]]].
  apply obeys_bind.
  { unfold assert_size.
    apply Nat.leb_le in Hh, Hw. rewrite Hh, Hw. apply obeys_ret. }
  intros _.
  apply obeys_bind.
  { eapply obeys_mono; [| apply compute_flow_obeys]. auto. }
  intros [ff fb].
  apply obeys_for_each. intros; apply propagate_direction_obeys.
Qed.

(** C6: when the stages before the assertion do not raise, a call whose
    low-resolution height or width is below 64 ends in the documented
    [AssertionError]; a call with both at least 64 never ends in an
    [AssertionError]. *)
Theorem small_inputs_fail_the_size_assertion self lqs d spatial h w :
  let self0 :=
    set_cpu_cache self (Z.of_nat (length (frames lqs)) >? cpu_cache_length self)%Z in
  outcome (downsample self0 lqs) = inr d ->
  outcome (spatial_features (check_if_mirror_extended self0 lqs) lqs)
  = inr (spatial, (h, w)) ->
  (height d < 64 \/ width d < 64 ->
   outcome (snd (forward self lqs)) = inl (AssertionError (size_message h w))) /\
  (64 <= height d -> 64 <= width d ->
   forall msg, outcome (snd (forward self lqs)) <> inl (AssertionError msg)).
Proof.
  intros self0 Hd Hs; unfold forward; fold self0.
  destruct (downsample self0 lqs) as [tr [e | d']]; [discriminate |].
  rewrite outcome_pair in Hd; injection Hd as ->.
  cbn [snd]; rewrite (outcome_bind_of (tr, inr d) _ eq_refl).
  split.
  - intros Hsmall; unfold forward_rest.
    apply outcome_bind_inl; unfold forward_features.
    rewrite (outcome_bind_of _ _ Hs).
    apply outcome_bind_inl; unfold assert_size.
    assert (Hc : (64 <=? height d) && (64 <=? width d) = false).
    { apply andb_false_iff. destruct Hsmall; [left | right]; apply Nat.leb_gt; lia. }
    rewrite Hc; reflexivity.
  - intros Hh Hw msg Hf.
    assert (Hb : obeys (fun _ => True)
                   (forward_rest (check_if_mirror_extended self0 lqs) lqs d)).
    { unfold forward_rest. apply obeys_bind.
      - now apply forward_features_after_assert.
      - intros feats. obey. }
    destruct Hb as [_ Hb]. apply (Hb _ Hf).
Qed.

(** ** Outcomes of the operators *)

Lemma outcome_prim what o s args r :
  outcome (prim what o s args) = inr r -> s = Some (shape_of r).
Proof. unfold prim; destruct s; simpl; [intros [= <-]; reflexivity | discriminate]. Qed.

Lemma outcome_call f args r : outcome (call f args) = inr r -> ext f args = Some r.
Proof. apply outcome_lift_opt. Qed.

Lemma outcome_getitem {A : Type} (d : dict A) k v :
  outcome (getitem (V := V) d k) = inr v -> dict_get d k = Some v.
Proof. apply outcome_lift_opt. Qed.

Lemma outcome_list_item {A : Type} (l : list A) i v :
  outcome (list_item (V := V) l i) = inr v -> nth_error l i = Some v.
Proof. apply outcome_lift_opt. Qed.

Lemma outcome_cuda_if_cached self x y : outcome (cuda_if_cached self x) = inr y -> y = x.
Proof.
  unfold cuda_if_cached; intros H; ok_inv H.
  destruct x0; [now apply outcome_cuda | now apply outcome_ret in H].
Qed.

Lemma shape_eqb_eq a b : shape_eqb a b = true -> a = b.
Proof. unfold shape_eqb; destruct (list_eq_dec Nat.eq_dec a b); congruence. Qed.

Lemma broadcast_rev_same s : broadcast_rev s s = Some s.
Proof.
  induction s as [| x s IH]; simpl; [reflexivity |].
  now rewrite IH, Nat.eqb_refl.
Qed.

Lemma broadcast_same s : broadcast s s = Some s.
Proof. unfold broadcast; rewrite broadcast_rev_same; simpl; now rewrite rev_involutive. Qed.

Lemma outcome_stack1_pair (a b : tensor V) (s : tseq V) :
  outcome (stack1 [a; b]) = inr s ->
  shape_of b = shape_of a /\ shape_of a = [batch s; chans s; height s; width s].
Proof.
  intros H; unfold stack1 in H.
  destruct (shape_of a) as [| n [| c [| h [| w [| ? ?]]]]] eqn:Ha;
    try (simpl in H; discriminate).
  destruct (forallb _ [a; b]) eqn:Hf; [| simpl in H; discriminate].
  apply outcome_ret in H; subst s; simpl.
  cbn [forallb] in Hf.
  apply andb_true_iff in Hf as [_ Hf]. apply andb_true_iff in Hf as [Hb _].
  split; [now apply shape_eqb_eq | reflexivity].
Qed.

(** ** Dictionaries *)

Lemma dict_get_set_same {A : Type} (d : dict A) k v : dict_get (dict_set d k v) k = Some v.
Proof.
  induction d as [| [k' v'] d IH]; simpl.
  - now rewrite String.eqb_refl.
  - destruct (String.eqb k k') eqn:E; simpl; rewrite ?String.eqb_refl, ?E; auto.
Qed.

Lemma dict_set_set {A : Type} (d : dict A) k v v' :
  dict_set (dict_set d k v) k v' = dict_set d k v'.
Proof.
  induction d as [| [k' w] d IH]; simpl.
  - now rewrite String.eqb_refl.
  - destruct (String.eqb k k') eqn:E; simpl; rewrite ?String.eqb_refl, ?E; congruence.
Qed.

(** ** Loops *)

Lemma for_each_invariant {A S : Type} (I : nat -> S -> Prop) (body : A -> S -> M V S) :
  (forall k x acc acc', I k acc -> outcome (body x acc) = inr acc' -> I (Datatypes.S k) acc') ->
  forall xs k acc r,
    I k acc -> outcome (for_each xs body acc) = inr r -> I (k + length xs) r.
Proof.
  intros Hstep; induction xs as [| x xs IH]; intros k acc r HI H; simpl in *.
  - injection H as <-. now rewrite Nat.add_0_r.
  - ok_inv H. rewrite <- Nat.add_succ_comm. eapply IH; eauto.
Qed.

Lemma for_each_collect {A B : Type} (g : A -> M V B) (P : B -> Prop) :
  (forall x y, outcome (g x) = inr y -> P y) ->
  forall xs acc r,
    Forall P acc ->
    outcome (for_each xs (fun x acc => bind (g x) (fun y => ret (acc ++ [y]))) acc) = inr r ->
    length r = length acc + length xs /\ Forall P r.
Proof.
  intros Hg xs acc r Hacc H.
  apply (for_each_invariant (fun k l => length l = length acc + k /\ Forall P l))
    with (k := 0) in H.
  - exact H.
  - intros k x l l' [Hl HP] Hb. ok_inv Hb. subst l'.
    rewrite length_app; simpl. split; [lia |].
    apply Forall_app; split; eauto.
  - split; [lia | exact Hacc].
Qed.

(** ** One step of propagate *)

Ltac cuda_inv :=
  repeat match goal with
  | Hc : outcome (cuda _) = inr _ |- _ => apply outcome_cuda in Hc
  | Hc : outcome (cuda_if_cached _ _) = inr _ |- _ => apply outcome_cuda_if_cached in Hc
  end.

Lemma fuse_stage_spec self feats module_name i idx fc fp fp' feats' :
  outcome (fuse_stage self feats module_name i idx fc fp) = inr (fp', feats') ->
  (exists own, dict_get feats module_name = Some own /\
               feats' = dict_set feats module_name (own ++ [fp'])) /\
  (ext_respects_shapes -> forall n, has_batch n fp -> has_batch n fp').
Proof.
  intros H; unfold fuse_stage in H. ok_inv H.
  injection H as <- <-.
  assert (E : x3 = [x1; fp]).
  { destruct x2.
    - ok_inv Hx4. cuda_inv. congruence.
    - now apply outcome_ret in Hx4. }
  subst x3. split.
  - exists x8; split; [now apply outcome_getitem | reflexivity].
  - intros Hext m Hb.
    apply outcome_stack1_pair in Hx5 as [Hs Hs1].
    apply outcome_call, Hext in Hx8. simpl in Hx8. rewrite Hs, Hs1 in Hx8.
    destruct Hx8 as (_ & _ & Hout).
    apply outcome_prim in Hx9. rewrite Hout, Hs, Hs1, broadcast_same in Hx9.
    unfold has_batch in *. rewrite Hs, Hs1 in Hb.
    injection Hx9 as <-. exact Hb.
Qed.

Ltac list_inv H :=
  match type of H with
  | outcome (match ?l with _ => _ end) = inr _ =>
      destruct l as [| ? [| ? [| ? [| ? ?]]]]; try (simpl in H; discriminate)
  end.

Lemma alignment_forward_batch a x extra flow_1 flow_2 r n :
  outcome (SecondOrderDeformableAlignment_forward a x extra flow_1 flow_2) = inr r ->
  has_batch n x -> has_batch n r.
Proof.
  intros H Hb; unfold SecondOrderDeformableAlignment_forward in H. ok_inv H.
  list_inv H. ok_inv H. list_inv H. ok_inv H.
  apply outcome_prim in H. unfold deform_conv2d_shape in H.
  unfold has_batch in *.
  destruct (shape_of x) as [| b [| c [| h [| w [| ? ?]]]]]; try discriminate.
  repeat match type of H with
  | (if ?c then _ else _) = Some _ => destruct c; try discriminate
  | match ?s with _ => _ end = Some _ =>
      destruct s as [| ? [| ? [| ? [| ? [| ? ?]]]]]; try discriminate
  end.
  injection H as <-. exact Hb.
Qed.

Lemma outcome_cat1_batch (x y r : tensor V) n :
  outcome (cat1 [x; y]) = inr r -> has_batch n x -> has_batch n r.
Proof.
  intros H Hb; apply outcome_prim in H; unfold has_batch in *; simpl in H.
  destruct (shape_of x) as [| b [| c [| h [| w [| ? ?]]]]]; try discriminate.
  destruct (shape_of y) as [| b' [| c' [| h' [| w' [| ? ?]]]]]; try discriminate.
  destruct (_ && _); [| discriminate].
  injection H as <-. exact Hb.
Qed.

Lemma align_stage_batch self feats flows module_name flow_idx i fc fp fp' n :
  outcome (align_stage self feats flows module_name flow_idx i fc fp) = inr fp' ->
  has_batch n fp -> has_batch n fp'.
Proof.
  intros H Hb; unfold align_stage in H.
  destruct (_ && _).
  - ok_inv H.
    eapply alignment_forward_batch; [exact H |].
    eapply outcome_cat1_batch; eauto.
  - apply outcome_ret in H; now subst.
Qed.

Lemma propagate_step_spec self flows module_name flow_idx mapping_idx i idx fp feats fp' feats' :
  outcome (propagate_step self flows module_name flow_idx mapping_idx (i, idx) (fp, feats))
  = inr (fp', feats') ->
  (exists own, dict_get feats module_name = Some own /\
               feats' = dict_set feats module_name (own ++ [fp'])) /\
  (exists spatial x, dict_get feats "spatial" = Some spatial /\ In x spatial) /\
  (ext_respects_shapes -> forall n, has_batch n fp -> has_batch n fp').
Proof.
  intros H; unfold propagate_step in H. ok_inv H.
  apply fuse_stage_spec in H as [Hown Hbatch].
  assert (E : t0 = fp).
  { destruct x2; ok_inv Hx3; cuda_inv; congruence. }
  subst t0. repeat split; auto.
  - apply outcome_getitem in Hx. apply outcome_list_item in Hx1.
    exists x, x1; split; auto. eapply nth_error_In; eauto.
  - intros Hext m Hb. apply Hbatch; auto.
    eapply align_stage_batch; eauto.
Qed.

Lemma dict_set_get_same {A : Type} (d : dict A) k v :
  dict_get d k = Some v -> dict_set d k v = d.
Proof.
  induction d as [| [k' w] d IH]; simpl; [discriminate |].
  destruct (String.eqb k k') eqn:E.
  - apply String.eqb_eq in E; subst k'. now intros [= ->].
  - intros H; now rewrite IH.
Qed.

Lemma length_enumerate {A : Type} (l : list A) : length (enumerate l) = length l.
Proof. unfold enumerate; rewrite length_combine, length_seq; lia. Qed.

(** ** propagate *)

(** A successful run started on an empty list appends one feature per
    step: one more than the flows has frames.  It needs a spatial
    feature, and under the documented sizes of the vendored operators
    every feature keeps the batch size of the flows. *)
Lemma propagate_spec self feats flows module_name feats' :
  outcome (propagate self feats flows module_name) = inr feats' ->
  dict_get feats module_name = Some [] ->
  exists l,
    feats' = dict_set feats module_name l /\
    length l = length (frames flows) + 1 /\
    (exists spatial x, dict_get feats "spatial" = Some spatial /\ In x spatial) /\
    (ext_respects_shapes -> Forall (has_batch (batch flows)) l).
Proof.
  intros H Hown; unfold propagate in H. ok_inv H.
  set (n := batch flows) in *.
  set (steps := enumerate _) in Hx0.
  assert (Hlen : length steps = length (frames flows) + 1).
  { unfold steps; rewrite length_enumerate.
    destruct (str_in _ _); unfold range; now rewrite ?length_rev, length_seq. }
  apply (for_each_invariant
           (fun k (acc : tensor V * features) =>
              exists l,
                snd acc = dict_set feats module_name l /\
                length l = k /\
                (1 <= k -> exists spatial x,
                     dict_get feats "spatial" = Some spatial /\ In x spatial) /\
                (ext_respects_shapes ->
                 has_batch n (fst acc) /\ Forall (has_batch n) l)))
    with (k := 0) in Hx0.
  - destruct Hx0 as (l & Hf & Hl & Hsp & Hb); simpl in Hf, Hl, Hsp, Hb.
    subst f. rewrite Hlen in *.
    destruct (str_in _ _).
    + ok_inv H. apply outcome_getitem in Hx0.
      rewrite dict_get_set_same in Hx0; injection Hx0 as <-.
      subst feats'.
      exists (rev l); rewrite dict_set_set, length_rev. repeat split; auto.
      * apply Hsp; lia.
      * intros Hext. apply Forall_rev, Hb, Hext.
    + apply outcome_ret in H; subst feats'.
      exists l; repeat split; auto.
      * apply Hsp; lia.
      * intros Hext. apply Hb, Hext.
  - intros k [i idx] [fp fs] [fp1 fs1] (l & Hf & Hl & Hsp & Hb) Hstep.
    simpl in Hf, Hb; subst fs.
    apply propagate_step_spec in Hstep as ((own & Hget & Hset) & Hspatial & Hbatch).
    rewrite dict_get_set_same in Hget; injection Hget as <-.
    rewrite dict_set_set in Hset.
    exists (l ++ [fp1]); simpl; repeat split; auto.
    + rewrite length_app; simpl; lia.
    + intros _. destruct k as [| k]; [| apply Hsp; lia].
      destruct l; [| discriminate].
      now rewrite (dict_set_get_same _ _ Hown) in Hspatial.
    + apply Hbatch; auto. now apply Hb.
    + apply Forall_app; split; [now apply Hb |].
      constructor; [| constructor]. apply Hbatch; auto. now apply Hb.
  - exists []; simpl; repeat split; auto.
    + now rewrite (dict_set_get_same _ _ Hown).
    + lia.
Qed.

(** ** Sizes computed by view *)

Lemma infer_size_nth dims k s i d :
  infer_size dims k = Some s ->
  nth_error dims i = Some d -> d <> (-1)%Z ->
  nth_error s i = Some (Z.to_nat d).
Proof.
  unfold infer_size; intros H Hi Hd.
  destruct (known_size dims) as [p |]; [| discriminate].
  destruct (count_occ Z.eq_dec dims (-1)%Z) as [| [| ?]]; [| | discriminate].
  - destruct (k =? p); [| discriminate]. injection H as <-.
    now rewrite nth_error_map, Hi.
  - destruct (_ || _); [| discriminate].
    destruct (p =? 0); [discriminate |]. injection H as <-.
    rewrite nth_error_map, Hi; simpl.
    destruct (Z.eqb_spec d (-1)); [contradiction | reflexivity].
Qed.

Lemma outcome_view5 (x : tensor V) dims (s : tseq V) :
  outcome (view5 x dims) = inr s ->
  infer_size dims (numel (shape_of x))
  = Some [batch s; length (frames s); chans s; height s; width s].
Proof.
  unfold view5.
  destruct (infer_size dims _) as [[| n [| t [| c [| h [| w [| ? ?]]]]]] |];
    simpl; try discriminate.
  intros [= <-]; simpl. now rewrite length_map, length_seq.
Qed.

Lemma view5_batch (x : tensor V) (n : nat) (rest : list Z) (s : tseq V) :
  outcome (view5 x (Z.of_nat n :: rest)) = inr s -> batch s = n.
Proof.
  intros H; apply outcome_view5 in H.
  apply infer_size_nth with (i := 0) (d := Z.of_nat n) in H; [| reflexivity | lia].
  simpl in H. injection H as ->. apply Nat2Z.id.
Qed.

Lemma view5_frames (x : tensor V) (n : Z) (t : Z) (rest : list Z) (s : tseq V) :
  outcome (view5 x (n :: t :: rest)) = inr s -> (0 <= t)%Z ->
  length (frames s) = Z.to_nat t.
Proof.
  intros H Ht; apply outcome_view5 in H.
  apply infer_size_nth with (i := 1) (d := t) in H; [| reflexivity | lia].
  simpl in H. now injection H as ->.
Qed.

Lemma compute_flow_spec self lqs ff fb :
  outcome (compute_flow self lqs) = inr (ff, fb) ->
  batch ff = batch lqs /\ batch fb = batch lqs /\
  (1 <= length (frames lqs) ->
   length (frames ff) = length (frames lqs) - 1 /\
   length (frames fb) = length (frames lqs) - 1).
Proof.
  intros H; unfold compute_flow in H. ok_inv H. injection H as <- <-.
  pose proof Hx2 as Hb; apply view5_batch in Hb.
  assert (Ht : 1 <= length (frames lqs) -> length (frames x2) = length (frames lqs) - 1).
  { intros Hge. apply view5_frames in Hx2; lia. }
  destruct (is_mirror_extended self).
  - apply outcome_ret in Hx3; subst x3; simpl.
    rewrite length_rev. auto.
  - ok_inv Hx3.
    pose proof Hx3 as Hb'; apply view5_batch in Hb'.
    repeat split; auto. apply view5_frames in Hx3; lia.
Qed.

Lemma downsample_spec self lqs d :
  outcome (downsample self lqs) = inr d ->
  length (frames d) = length (frames lqs) /\ batch d = batch lqs /\
  (is_low_res_input self = true -> d = lqs).
Proof.
  intros H; unfold downsample in H.
  destruct (is_low_res_input self).
  - apply outcome_ret in H; subst; auto.
  - ok_inv H. split; [| split; [| discriminate]].
    + apply view5_frames in H; lia.
    + now apply view5_batch in H.
Qed.

Lemma spatial_features_length self lqs spatial hw :
  outcome (spatial_features self lqs) = inr (spatial, hw) ->
  length spatial = length (frames lqs).
Proof.
  intros H; unfold spatial_features in H. ok_inv H.
  destruct x; ok_inv H; injection H as <- _.
  - match goal with
    | Hf : outcome (for_each _ _ _) = inr _ |- _ =>
        apply for_each_collect with (g := fun _ : nat => extract self lqs)
                                    (P := fun _ => True) in Hf;
        [destruct Hf as [-> _]; unfold range; now rewrite length_seq | auto | auto]
    end.
  - match goal with
    | Hv : outcome (view5 _ _) = inr ?s, Hf : outcome (for_each _ _ _) = inr _ |- _ =>
        apply for_each_collect with (g := fun i => select_t s (Z.of_nat i))
                                    (P := fun _ => True) in Hf;
        [destruct Hf as [-> _]; unfold range; now rewrite length_seq | auto | auto]
    end.
Qed.

(** ** The dictionary of features *)

Lemma forward_features_spec self lqs d feats :
  outcome (forward_features self lqs d) = inr feats ->
  length (frames d) = length (frames lqs) ->
  exists spatial lb lf,
    feats = [("spatial", spatial); ("backward_1", lb); ("forward_1", lf)] /\
    length spatial = length (frames lqs) /\
    length lb = length (frames lqs) /\
    length lf = length (frames lqs) /\
    (ext_respects_shapes ->
     Forall (has_batch (batch d)) lb /\ Forall (has_batch (batch d)) lf).
Proof.
  intros H Hd; unfold forward_features in H. ok_inv H.
  apply spatial_features_length in Hx.
  apply compute_flow_spec in Hx1 as (Hbf & Hbb & Hlen).
  cbn [for_each] in H. ok_inv H. subst feats.
  unfold propagate_direction in Hx1, Hx2.
  cbn -[propagate] in Hx1, Hx2.
  apply propagate_spec in Hx1 as (lb & -> & Hlb & (sp & y & Hsp & Hin) & Hbb'); [| reflexivity].
  cbn -[propagate] in Hx2, Hsp. injection Hsp as <-.
  apply propagate_spec in Hx2 as (lf & -> & Hlf & _ & Hbf'); [| reflexivity].
  assert (Hpos : 1 <= length (frames d)).
  { rewrite Hd, <- Hx. destruct l; [contradiction | simpl; lia]. }
  destruct (Hlen Hpos) as [Ht Ht0].
  exists l, lb, lf. cbn. repeat split; auto; try lia.
  - rewrite <- Hbb; auto.
  - rewrite <- Hbf; auto.
Qed.

(** ** Sizes through the reconstruction head *)

Lemma cat1_shape_spec ss r :
  cat1_shape ss = Some r ->
  (exists n c h w, r = [n; c; h; w]) /\
  forall s, In s ss -> hd_error s = hd_error r /\ skipn 2 s = skipn 2 r.
Proof.
  revert r; induction ss as [| s ss IH]; intros r H; [discriminate |].
  simpl in H.
  destruct s as [| n [| c [| h [| w [| ? ?]]]]]; try discriminate;
    try (destruct ss; discriminate).
  destruct ss as [| s' ss].
  - injection H as <-. split; [eauto |].
    intros s [<- | []]; auto.
  - destruct (cat1_shape (s' :: ss)) as [[| n' [| c' [| h' [| w' [| ? ?]]]]] |];
      try discriminate.
    destruct (IH _ eq_refl) as [_ IH'].
    destruct ((n =? n') && (h =? h') && (w =? w')) eqn:E; [| discriminate].
    injection H as <-.
    apply andb_true_iff in E as [E Ew]. apply andb_true_iff in E as [En Eh].
    apply Nat.eqb_eq in En, Eh, Ew. subst n' h' w'.
    split; [eauto |].
    intros s [<- | Hin]; [auto |].
    destruct (IH' s Hin) as [-> ->]. auto.
Qed.

Lemma conv_out_same h h' : conv_out h 3 1 1 = Some h' -> h' = h.
Proof.
  unfold conv_out. destruct (_ || _) eqn:E; [discriminate |].
  apply orb_false_iff in E as [_ E]. apply Nat.ltb_ge in E.
  intros H.
  apply (f_equal (fun o => match o with Some v => v | None => 0 end)) in H.
  cbv beta iota in H. rewrite Nat.div_1_r in H. lia.
Qed.

Lemma outcome_conv2d_same layer cin cout (x r : tensor V) :
  outcome (conv2d layer cin cout 3 1 1 x) = inr r ->
  exists n h w, shape_of x = [n; cin; h; w] /\ shape_of r = [n; cout; h; w].
Proof.
  intros H; apply outcome_prim in H; unfold conv2d_shape in H.
  destruct (shape_of x) as [| n [| c [| h [| w [| ? ?]]]]]; try discriminate.
  destruct (Nat.eqb_spec c cin); [| discriminate]. subst c.
  destruct (conv_out h 3 1 1) as [h' |] eqn:Hh; [| discriminate].
  destruct (conv_out w 3 1 1) as [w' |] eqn:Hw; [| discriminate].
  apply conv_out_same in Hh, Hw. subst. injection H as <-. eauto.
Qed.

Lemma outcome_pixel_shuffle2 (x r : tensor V) :
  outcome (pixel_shuffle 2 x) = inr r ->
  exists n c h w, shape_of x = [n; c; h; w] /\ shape_of r = [n; c / (2 * 2); h * 2; w * 2].
Proof.
  intros H; apply outcome_prim in H; unfold pixel_shuffle_shape in H.
  destruct (shape_of x) as [| n [| c [| h [| w [| ? ?]]]]]; try discriminate.
  destruct (_ && _); [| discriminate].
  injection H as <-. eauto 6.
Qed.

Lemma outcome_select_t (x : tseq V) i (r : tensor V) :
  outcome (select_t x i) = inr r ->
  shape_of r = [batch x; chans x; height x; width x].
Proof. intros H; unfold select_t in H. ok_inv H. now subst r. Qed.

Lemma outcome_img_upsample (x r : tensor V) :
  outcome (img_upsample x) = inr r ->
  exists n c h w, shape_of x = [n; c; h; w] /\ shape_of r = [n; c; 4 * h; 4 * w].
Proof.
  intros H; unfold img_upsample in H.
  destruct (shape_of x) as [| n [| c [| h [| w [| ? ?]]]]] eqn:Hs;
    try (simpl in H; discriminate).
  apply outcome_prim in H; unfold interpolate_shape in H; rewrite Hs in H.
  destruct (_ && _); [| discriminate].
  injection H as <-. eauto 6.
Qed.

Lemma outcome_iadd (a b r : tensor V) :
  outcome (iadd a b) = inr r ->
  shape_of r = shape_of a /\ broadcast (shape_of a) (shape_of b) = Some (shape_of a).
Proof.
  intros H; apply outcome_prim in H.
  destruct (broadcast (shape_of a) (shape_of b)) as [s |]; [| discriminate].
  destruct (shape_eqb s (shape_of a)) eqn:E; [| discriminate].
  apply shape_eqb_eq in E. injection H as <-. subst s; auto.
Qed.

Lemma broadcast4_inplace a1 a2 a3 a4 b1 b2 b3 b4 :
  broadcast [a1; a2; a3; a4] [b1; b2; b3; b4] = Some [a1; a2; a3; a4] ->
  (a1 = b1 \/ b1 = 1) /\ (a2 = b2 \/ b2 = 1) /\ (a3 = b3 \/ b3 = 1) /\ (a4 = b4 \/ b4 = 1).
Proof.
  unfold broadcast; cbn [rev app broadcast_rev option_map].
  destruct (Nat.eqb_spec a1 b1), (Nat.eqb_spec a2 b2),
           (Nat.eqb_spec a3 b3), (Nat.eqb_spec a4 b4);
    repeat match goal with
    | |- context [?x =? 1] => destruct (Nat.eqb_spec x 1)
    end;
    cbn [rev app option_map]; intros H; try discriminate;
    try (injection H; intros); subst; repeat split; auto; lia.
Qed.

(** ** upsample *)

Lemma pop_features_three (spatial lb lf : list (tensor V)) :
  let feats := [("spatial", spatial); ("backward_1", lb); ("forward_1", lf)] in
  pop_features (dict_keys feats) feats
  = match lb, lf with
    | b :: lb', f :: lf' =>
        ret ([b; f], [("spatial", spatial); ("backward_1", lb'); ("forward_1", lf')])
    | _, _ => raise IndexError
    end.
Proof. destruct lb, lf; reflexivity. Qed.

Lemma upsample_step_spec self lqs mapping_idx i outputs spatial lb lf outputs' feats' :
  outcome (upsample_step self lqs mapping_idx i
             (outputs, [("spatial", spatial); ("backward_1", lb); ("forward_1", lf)]))
  = inr (outputs', feats') ->
  exists b lb' f lf' hr,
    lb = b :: lb' /\ lf = f :: lf' /\
    feats' = [("spatial", spatial); ("backward_1", lb'); ("forward_1", lf')] /\
    outputs' = outputs ++ [hr] /\
    (ext_respects_shapes -> is_low_res_input self = true ->
     has_batch (batch lqs) b ->
     shape_of hr = [batch lqs; 3; 4 * height lqs; 4 * width lqs]).
Proof.
  intros H; unfold upsample_step in H.
  rewrite pop_features_three in H.
  destruct lb as [| b lb'], lf as [| f lf']; try discriminate.
  ok_inv H. apply outcome_ret in Hx. injection Hx as <- <-. injection H as <- <-.
  exists b, lb', f, lf', x12. repeat split; auto.
  intros Hext Hlow Hb.
  rewrite Hlow in Hx13. ok_inv Hx13.
  apply outcome_prim, cat1_shape_spec in Hx3 as [(n & c & h & w & Hs2) Hin].
  destruct (Hin (shape_of b)) as [Hbn _]; [simpl; auto |].
  unfold has_batch in Hb. rewrite Hb, Hs2 in Hbn. injection Hbn as <-.
  cuda_inv. subst x3.
  apply outcome_call, Hext in Hx5. simpl in Hx5. rewrite Hs2 in Hx5.
  destruct Hx5 as [_ Hs4].
  apply outcome_conv2d_same in Hx6 as (n5 & h5 & w5 & Hi5 & Hs5).
  rewrite Hs4 in Hi5. injection Hi5; clear Hi5; intros; subst.
  apply outcome_pixel_shuffle2 in Hx7 as (n6 & c6 & h6 & w6 & Hi6 & Hs6).
  rewrite Hs5 in Hi6. injection Hi6; clear Hi6; intros; subst.
  apply outcome_conv2d_same in Hx8 as (n7 & h7 & w7 & Hi7 & Hs7).
  change (shape_of (lrelu x6)) with (shape_of x6) in Hi7.
  rewrite Hs6 in Hi7. injection Hi7; clear Hi7; intros; subst.
  apply outcome_pixel_shuffle2 in Hx9 as (n8 & c8 & h8 & w8 & Hi8 & Hs8).
  rewrite Hs7 in Hi8. injection Hi8; clear Hi8; intros; subst.
  apply outcome_conv2d_same in Hx10 as (n9 & h9 & w9 & Hi9 & Hs9).
  change (shape_of (lrelu x8)) with (shape_of x8) in Hi9.
  rewrite Hs8 in Hi9. injection Hi9; clear Hi9; intros; subst.
  apply outcome_conv2d_same in Hx11 as (n10 & h10 & w10 & Hi10 & Hs10).
  change (shape_of (lrelu x9)) with (shape_of x9) in Hi10.
  rewrite Hs9 in Hi10. injection Hi10; clear Hi10; intros; subst.
  apply outcome_select_t in Hx12.
  apply outcome_img_upsample in Hx as (n11 & c11 & h11 & w11 & Hi11 & Hs11).
  rewrite Hx12 in Hi11. injection Hi11; clear Hi11; intros; subst.
  apply outcome_iadd in Hx13 as [Hr Hbc].
  rewrite Hs10, Hs11 in Hbc. apply broadcast4_inplace in Hbc.
  rewrite Hr, Hs10. f_equal. f_equal. f_equal; [lia | f_equal; lia].
Qed.

Lemma outcome_stack1_size (ts : list (tensor V)) (s : tseq V) sh :
  outcome (stack1 ts) = inr s ->
  Forall (fun x => shape_of x = sh) ts ->
  match sh with
  | [n; c; h; w] => size5 s = [n; length ts; c; h; w]
  | _ => False
  end.
Proof.
  intros H Hall; unfold stack1 in H.
  destruct ts as [| x ts]; [discriminate |].
  pose proof (Forall_inv Hall) as Hx; simpl in Hx.
  destruct (shape_of x) as [| n [| c [| h [| w [| ? ?]]]]] eqn:Hs;
    try (simpl in H; discriminate).
  destruct (forallb _ _); [| simpl in H; discriminate].
  apply outcome_ret in H. subst s sh. unfold size5; simpl.
  now rewrite length_map.
Qed.

Lemma upsample_spec self lqs spatial lb lf out feats' :
  outcome (upsample self lqs
             [("spatial", spatial); ("backward_1", lb); ("forward_1", lf)])
  = inr (out, feats') ->
  length lb = length (frames lqs) ->
  length lf = length (frames lqs) ->
  feats' = [("spatial", spatial); ("backward_1", []); ("forward_1", [])] /\
  (ext_respects_shapes -> is_low_res_input self = true ->
   Forall (has_batch (batch lqs)) lb ->
   size5 out = [batch lqs; length (frames lqs); 3; 4 * height lqs; 4 * width lqs]).
Proof.
  intros H Hlb Hlf; unfold upsample in H. ok_inv H. injection H as <- <-.
  set (t := length (frames lqs)) in *.
  set (sh := [batch lqs; 3; 4 * height lqs; 4 * width lqs]).
  set (P := ext_respects_shapes /\ is_low_res_input self = true).
  apply (for_each_invariant
           (fun k (acc : list (tensor V) * features) =>
              exists lb' lf',
                snd acc = [("spatial", spatial); ("backward_1", lb'); ("forward_1", lf')] /\
                length lb' + k = t /\ length lf' + k = t /\
                length (fst acc) = k /\
                (P -> Forall (has_batch (batch lqs)) lb ->
                 Forall (has_batch (batch lqs)) lb' /\
                 Forall (fun hr => shape_of hr = sh) (fst acc))))
    with (k := 0) in Hx0.
  - destruct Hx0 as (lb' & lf' & Hf & Hlb' & Hlf' & Hlen & Hsh); cbn [fst snd] in *.
    unfold range in *; rewrite length_seq in *.
    destruct lb'; [| simpl in Hlb'; lia]. destruct lf'; [| simpl in Hlf'; lia].
    split; [exact Hf |].
    intros Hext Hlow Hall.
    destruct (Hsh (conj Hext Hlow) Hall) as [_ Hout].
    pose proof (@outcome_stack1_size _ _ sh Hx1 Hout) as Hsz; cbv beta iota delta [sh] in Hsz.
    now rewrite Hsz, Hlen.
  - intros k i [outs fs] [outs' fs'] (lb' & lf' & Hf & Hlb' & Hlf' & Hlen & Hsh) Hstep.
    cbn [fst snd] in Hf, Hlen, Hsh; subst fs.
    apply upsample_step_spec in Hstep
      as (b & lb'' & fw & lf'' & hr & -> & -> & -> & -> & Hhr).
    exists lb'', lf''; cbn [fst snd length] in *. repeat split; try lia.
    + rewrite length_app; simpl; lia.
    + destruct (Hsh H H0) as [Hall _]. now apply Forall_inv_tail in Hall.
    + destruct (Hsh H H0) as [Hall Houts]. destruct H as [Hext Hlow].
      apply Forall_app; split; [exact Houts |].
      constructor; [| constructor]. apply Hhr; auto. now apply Forall_inv in Hall.
  - exists lb, lf; cbn [fst snd length]. repeat split; auto; lia.
Qed.


(** C3: in the low-resolution mode, when the vendored operators produce
    the sizes they are documented to produce, an output of [forward] has
    the batch size and the number of frames of the input, 3 channels, and
    4 times its height and width. *)
Theorem output_is_four_times_larger self lqs out :
  ext_respects_shapes ->
  is_low_res_input self = true ->
  outcome (snd (forward self lqs)) = inr out ->
  size5 out = [batch lqs; length (frames lqs); 3; 4 * height lqs; 4 * width lqs].
Proof.
  intros Hext Hlow H; unfold forward in H.
  set (self0 := set_cpu_cache self _) in H.
  destruct (check_keeps_config self0 lqs) as (Hl & _ & _).
  set (self1 := check_if_mirror_extended self0 lqs) in *.
  assert (Hlow1 : is_low_res_input self1 = true) by (rewrite Hl; exact Hlow).
  unfold downsample in H. change (is_low_res_input self0) with (is_low_res_input self) in H.
  rewrite Hlow in H. cbn [ret snd] in H.
  rewrite (outcome_bind_of (@nil (event V), inr lqs) _ eq_refl) in H.
  unfold forward_rest in H. ok_inv H. subst t.
  apply forward_features_spec in Hx
    as (spatial & lb & lf & -> & _ & Hlb & Hlf & Hb); [| reflexivity].
  apply upsample_spec in Hx0 as [_ Hsize]; auto.
  apply Hsize; auto. now apply Hb.
Qed.

(** ** The batch size of the spatial features *)

Lemma broadcast4_batch b c1 h1 w1 c2 h2 w2 r :
  Some r = broadcast [b; c1; h1; w1] [b; c2; h2; w2] ->
  exists c h w, r = [b; c; h; w].
Proof.
  unfold broadcast; cbn [rev app broadcast_rev option_map].
  rewrite Nat.eqb_refl.
  destruct (Nat.eqb_spec c1 c2), (Nat.eqb_spec h1 h2), (Nat.eqb_spec w1 w2);
    repeat match goal with
    | |- context [?x =? 1] => destruct (Nat.eqb_spec x 1)
    end;
    cbn [rev app option_map]; intros H; try discriminate;
    injection H as ->; eauto.
Qed.

Lemma batch4_prim_broadcast what o (x y r : tensor V) b :
  outcome (prim what o (broadcast (shape_of x) (shape_of y)) [x; y]) = inr r ->
  batch4 b x -> batch4 b y -> batch4 b r.
Proof.
  intros H (c1 & h1 & w1 & Hx) (c2 & h2 & w2 & Hy).
  apply outcome_prim in H. rewrite Hx, Hy in H.
  symmetry in H. apply broadcast4_batch in H. exact H.
Qed.

Lemma batch4_add (x y r : tensor V) b :
  outcome (add x y) = inr r -> batch4 b x -> batch4 b y -> batch4 b r.
Proof. apply batch4_prim_broadcast. Qed.

Lemma batch4_mul (x y r : tensor V) b :
  outcome (mul x y) = inr r -> batch4 b x -> batch4 b y -> batch4 b r.
Proof. apply batch4_prim_broadcast. Qed.

Lemma batch4_conv2d layer cin cout k s p (x r : tensor V) b :
  outcome (conv2d layer cin cout k s p x) = inr r -> batch4 b x -> batch4 b r.
Proof.
  intros H (c & h & w & Hx). apply outcome_prim in H.
  unfold conv2d_shape in H; rewrite Hx in H.
  destruct (c =? cin); [| discriminate].
  destruct (conv_out h k s p), (conv_out w k s p); try discriminate.
  unfold batch4. injection H as <-. eauto.
Qed.

Lemma batch4_interpolate mode h w (x r : tensor V) b :
  outcome (interpolate_size mode h w x) = inr r -> batch4 b x -> batch4 b r.
Proof.
  intros H (c & h0 & w0 & Hx). apply outcome_prim in H.
  unfold interpolate_shape in H; rewrite Hx in H.
  destruct (_ && _); [| discriminate].
  unfold batch4. injection H as <-. eauto.
Qed.

Lemma batch4_pointwise o (x : tensor V) b : batch4 b x -> batch4 b (pointwise o x).
Proof. auto. Qed.

Lemma batch4_call f (x r : tensor V) b :
  ext_respects_shapes ->
  match f with
  | ConvResidualBlocks _ _ _ _ | ConvResidualBlocksModified _ _ _ _
  | DeformConv2d _ _ _ _ _ => True
  | _ => False
  end ->
  outcome (call f [x]) = inr r -> batch4 b x -> batch4 b r.
Proof.
  intros Hext Hf H (c & h & w & Hx).
  apply outcome_call, Hext in H. cbn [map] in H. rewrite Hx in H.
  destruct f; try contradiction; cbn in H.
  - destruct H as [_ H]. red; eauto.
  - destruct H as (_ & h' & w' & H). red; eauto.
  - destruct H as (_ & h' & w' & H). red; eauto.
Qed.

Lemma known_size_nat (l : list nat) :
  known_size (map Z.of_nat l) = Some (fold_right Nat.mul 1 l).
Proof.
  induction l as [| x l IH]; [reflexivity |].
  cbn [map known_size fold_right]. rewrite IH.
  destruct (Z.eqb_spec (Z.of_nat x) (-1)); [lia |].
  destruct (Z.ltb_spec (Z.of_nat x) 0); [lia |].
  now rewrite Nat2Z.id.
Qed.

Lemma count_occ_nat (l : list nat) : count_occ Z.eq_dec (map Z.of_nat l) (-1)%Z = 0.
Proof.
  induction l as [| x l IH]; [reflexivity |].
  cbn [map count_occ]. destruct (Z.eq_dec (Z.of_nat x) (-1)); [lia | exact IH].
Qed.

Lemma outcome_flatten4 (lqs : tseq V) (x : tensor V) :
  outcome (flatten4 lqs (chans lqs) (height lqs) (width lqs)) = inr x ->
  batch4 (batch lqs * length (frames lqs)) x.
Proof.
  unfold flatten4, infer_size.
  change [(-1)%Z; Z.of_nat (chans lqs); Z.of_nat (height lqs); Z.of_nat (width lqs)]
    with ((-1)%Z :: map Z.of_nat [chans lqs; height lqs; width lqs]).
  cbn [known_size count_occ]. rewrite known_size_nat, count_occ_nat.
  destruct (Z.eq_dec (-1) (-1)); [| contradiction].
  cbn [Z.eqb Pos.eqb fold_right]. cbn [map].
  set (p := chans lqs * (height lqs * (width lqs * 1))).
  set (N := numel (size5 lqs)).
  destruct (_ || _); [| discriminate].
  destruct (Nat.eqb_spec p 0) as [| Hp]; [discriminate |].
  cbn [outcome snd ret]. intros [= <-]. cbn [shape_of].
  assert (E : N / p = batch lqs * length (frames lqs)).
  { unfold N, numel, size5; cbn [fold_right]. fold p.
    rewrite Nat.mul_assoc. now apply Nat.div_mul. }
  rewrite E.
  destruct (Z.eqb_spec (Z.of_nat (chans lqs)) (-1)); [lia |].
  destruct (Z.eqb_spec (Z.of_nat (height lqs)) (-1)); [lia |].
  destruct (Z.eqb_spec (Z.of_nat (width lqs)) (-1)); [lia |].
  red; cbn [shape_of]; eauto.
Qed.

(** Propagates [batch4 b] along the successful steps in the context. *)
Ltac batch_chain Hext b :=
  repeat match goal with
  | H : outcome (call ?f [?x]) = inr ?r |- _ =>
      assert (batch4 b r)
        by (eapply (@batch4_call f x r b Hext I H); assumption);
      clear H
  | H : outcome (add ?x ?y) = inr ?r |- _ =>
      assert (batch4 b r) by (apply (@batch4_add x y r b H); assumption); clear H
  | H : outcome (mul ?x ?y) = inr ?r |- _ =>
      assert (batch4 b r) by (apply (@batch4_mul x y r b H); assumption); clear H
  | H : outcome (conv2d _ _ _ _ _ _ ?x) = inr ?r |- _ =>
      assert (batch4 b r) by (eapply batch4_conv2d; [exact H | assumption]); clear H
  | H : outcome (interpolate_size _ _ _ ?x) = inr ?r |- _ =>
      assert (batch4 b r) by (eapply batch4_interpolate; [exact H | assumption]); clear H
  end.

Lemma batch4_small_kernel layer c (x r : tensor V) b :
  ext_respects_shapes ->
  outcome (MultiScaleSmallKernelConvAndAttention_forward layer c x) = inr r ->
  batch4 b x -> batch4 b r.
Proof.
  intros Hext H Hb; unfold MultiScaleSmallKernelConvAndAttention_forward in H.
  ok_inv H. batch_chain Hext b. assumption.
Qed.

Lemma batch4_large_kernel layer c (x r : tensor V) b :
  ext_respects_shapes ->
  outcome (MultiScaleLargeKernelConvAndAttention_forward layer c x) = inr r ->
  batch4 b x -> batch4 b r.
Proof.
  intros Hext H Hb; unfold MultiScaleLargeKernelConvAndAttention_forward in H.
  ok_inv H. batch_chain Hext b. assumption.
Qed.

Lemma batch4_extract self (lqs : tseq V) (r : tensor V) :
  ext_respects_shapes ->
  outcome (extract self lqs) = inr r ->
  batch4 (batch lqs * length (frames lqs)) r.
Proof.
  intros Hext H; unfold extract, feat_extract1, feat_extract2 in H. ok_inv H.
  ok_inv Hx. ok_inv Hx0.
  repeat match goal with
  | Hf : outcome (flatten4 _ _ _ _) = inr _ |- _ => apply outcome_flatten4 in Hf
  end.
  set (b := batch lqs * length (frames lqs)) in *.
  batch_chain Hext b.
  repeat match goal with
  | Hs : outcome (MultiScaleSmallKernelConvAndAttention_forward _ _ _) = inr _ |- _ =>
      apply (@batch4_small_kernel _ _ _ _ b Hext) in Hs; [| assumption]
  | Hl : outcome (MultiScaleLargeKernelConvAndAttention_forward _ _ _) = inr _ |- _ =>
      apply (@batch4_large_kernel _ _ _ _ b Hext) in Hl; [| assumption]
  end.
  batch_chain Hext b. assumption.
Qed.

(** ** The cached branch *)

Lemma spatial_features_cached self (lqs : tseq V) spatial hw :
  ext_respects_shapes ->
  cpu_cache self = Some true ->
  outcome (spatial_features self lqs) = inr (spatial, hw) ->
  Forall (batch4 (batch lqs * length (frames lqs))) spatial.
Proof.
  intros Hext Hc H; unfold spatial_features, get_cpu_cache in H.
  rewrite Hc in H. cbn [lift_opt] in H.
  rewrite (@outcome_bind_of _ _ (ret true) _ true eq_refl) in H.
  ok_inv H. injection H as <- _.
  apply for_each_collect
    with (g := fun _ : nat => extract self lqs)
         (P := batch4 (batch lqs * length (frames lqs))) in Hx.
  - apply Hx.
  - intros _ y Hy. now apply batch4_extract in Hy.
  - constructor.
Qed.

Tactic Notation "bind_inv" hyp(H) ident(x) ident(Hx) :=
  apply outcome_bind_inr in H; destruct H as (x & Hx & H); cbv beta in H.

(** With spatial features of a batch size other than that of the
    propagated state, the first step of the backward propagation raises in
    [torch.stack]. *)
Lemma propagate_step_batch_mismatch self (flows : tseq V) flow_idx mapping_idx idx
    spatial b n mid h w res :
  ext_respects_shapes ->
  Forall (batch4 b) spatial ->
  b <> n ->
  outcome (propagate_step self flows "backward_1" flow_idx mapping_idx (0, idx)
             (new_zeros [n; mid; h; w], [("spatial", spatial); ("backward_1", [])]))
  <> inr res.
Proof.
  intros Hext Hsp Hb H; unfold propagate_step in H.
  bind_inv H sp Hget.
  apply outcome_getitem in Hget; cbn in Hget; injection Hget as <-.
  bind_inv H k Hk. bind_inv H fc Hfc.
  apply outcome_list_item, nth_error_In in Hfc.
  rewrite Forall_forall in Hsp; apply Hsp in Hfc.
  bind_inv H cache Hcache. bind_inv H moved Hmoved.
  destruct moved as [fc' fp'].
  assert (E : fc' = fc /\ fp' = new_zeros [n; mid; h; w]).
  { destruct cache; ok_inv Hmoved; cuda_inv; split; congruence. }
  destruct E as [-> ->].
  rewrite align_stage_first in H.
  rewrite (@outcome_bind_of _ _ (ret (new_zeros [n; mid; h; w])) _ _ eq_refl) in H.
  unfold fuse_stage in H.
  rewrite (@outcome_bind_of _ _
             (last_feats [("spatial", spatial); ("backward_1", [])] "backward_1" idx)
             _ [] eq_refl) in H.
  bind_inv H c1 Hc1. bind_inv H bb Hbb. destruct bb as [[cin cout] nblk].
  bind_inv H fc2 Hfc2. bind_inv H cache2 Hcache2. bind_inv H feat Hfeat.
  bind_inv H st Hst.
  assert (B1 : batch4 b c1).
  { apply outcome_prim in Hc1. destruct Hfc as (c & h0 & w0 & Hs).
    cbn [map] in Hc1. rewrite Hs in Hc1. cbn in Hc1. injection Hc1 as Hc1.
    red; eauto. }
  assert (B2 : batch4 b fc2).
  { eapply batch4_call; [exact Hext | | exact Hfc2 | exact B1]. exact I. }
  assert (E : feat = [fc2; new_zeros [n; mid; h; w]]).
  { destruct cache2; ok_inv Hfeat; cuda_inv; congruence. }
  subst feat. apply outcome_stack1_pair in Hst as [Hs _].
  destruct B2 as (c & h0 & w0 & Hs2). rewrite Hs2 in Hs.
  cbn in Hs. congruence.
Qed.

Lemma propagate_batch_mismatch self spatial (flows : tseq V) b feats' :
  ext_respects_shapes ->
  Forall (batch4 b) spatial ->
  b <> batch flows ->
  outcome (propagate self [("spatial", spatial); ("backward_1", [])] flows "backward_1")
  <> inr feats'.
Proof.
  intros Hext Hsp Hb H; unfold propagate in H.
  bind_inv H sp Hget. bind_inv H acc Hloop. clear H.
  change (str_in "backward" "backward_1") with true in Hloop. cbv iota in Hloop.
  destruct (rev (range (length (frames flows) + 1))) as [| idx idxs] eqn:Hl.
  { apply (f_equal (@length nat)) in Hl.
    unfold range in Hl; rewrite length_rev, length_seq in Hl. simpl in Hl. lia. }
  unfold enumerate in Hloop. cbn [length seq combine for_each] in Hloop.
  bind_inv Hloop res Hstep.
  revert Hstep. apply propagate_step_batch_mismatch with (b := b); auto.
Qed.

(** A clip of two frames or more, longer than [cpu_cache_length], never
    comes back from [forward]: the features of the whole clip are stored
    once per frame, with the batch size [n * t], and the propagated
    state has the batch size [n] of the flows. *)
Lemma cached_forward_never_returns self (lqs : tseq V) out :
  ext_respects_shapes ->
  (cpu_cache_length self < Z.of_nat (length (frames lqs)))%Z ->
  2 <= length (frames lqs) ->
  1 <= batch lqs ->
  outcome (snd (forward self lqs)) <> inr out.
Proof.
  intros Hext Hlen Ht Hn H; unfold forward in H.
  replace (Z.of_nat (length (frames lqs)) >? cpu_cache_length self)%Z with true in H
    by (symmetry; apply Z.gtb_lt; lia).
  set (self0 := set_cpu_cache self true) in H.
  destruct (downsample self0 lqs) as [tr [e | d]] eqn:Hd; [discriminate |].
  assert (Hd' : outcome (downsample self0 lqs) = inr d) by now rewrite Hd.
  apply downsample_spec in Hd' as (_ & Hbd & _).
  cbn [snd] in H. bind_inv H d' Hd''.
  cbn in Hd''; injection Hd'' as <-.
  set (self1 := check_if_mirror_extended self0 lqs) in H.
  assert (Hc : cpu_cache self1 = Some true).
  { destruct (check_keeps_config self0 lqs) as (_ & _ & E). unfold self1.
    rewrite E. reflexivity. }
  unfold forward_rest in H. bind_inv H feats Hf. clear H.
  unfold forward_features in Hf.
  bind_inv Hf sp Hsp. destruct sp as [spatial [h w]].
  bind_inv Hf u Hu. bind_inv Hf fl Hfl. destruct fl as [ff fb].
  cbn [for_each] in Hf. bind_inv Hf fe Hp. clear Hf.
  apply spatial_features_cached in Hsp; auto.
  unfold propagate_direction in Hp. cbn -[propagate] in Hp.
  revert Hp. apply propagate_batch_mismatch with (b := batch lqs * length (frames lqs)); auto.
  apply compute_flow_spec in Hfl as (_ & Hbb & _).
  rewrite Hbb, Hbd. nia.
Qed.

(** * Further properties *)

(** ** The constructor in the low-resolution mode *)

(** X1: in the low-resolution mode, when the constructors of the vendored
    classes return, [__init__] returns an instance.  Alignment is enabled
    exactly when CUDA is available: then both directions have an
    alignment module and nothing is logged, otherwise there is none and
    the warning is issued once.  The backbone of the backward branch takes
    [mid_channels] channels, that of the forward branch twice as many; the
    mirror flag starts unset and [cpu_cache] is not defined yet. *)
Theorem low_res_construction_succeeds (a : init_args) :
  arg_is_low_res_input a = true ->
  (forall name, ctor_ok name = true) ->
  exists self,
    outcome (MFRSR_init a) = inr self /\
    is_with_alignment self = cuda_is_available /\
    dict_keys (deform_align self)
    = (if cuda_is_available then ["backward_1"; "forward_1"] else []) /\
    backbone self
    = [("backward_1", (1 * arg_mid_channels a, arg_mid_channels a, arg_num_blocks a));
       ("forward_1", (2 * arg_mid_channels a, arg_mid_channels a, arg_num_blocks a))] /\
    is_mirror_extended self = false /\
    cpu_cache self = None /\
    (if cuda_is_available then trace (MFRSR_init a) = []
     else exists msg, trace (MFRSR_init a) = [EvWarning msg]).
Proof.
  intros Ha Hc; unfold MFRSR_init, init_branch, SecondOrderDeformableAlignment_init,
    MultiScaleKernelConvAndAttention_init, construct.
  rewrite Ha. cbn -[Nat.mul]. rewrite !Hc.
  destruct cuda_is_available; cbn -[Nat.mul]; rewrite ?Hc; cbn -[Nat.mul];
    eexists; repeat split; eauto.
Qed.

(** ** The optical flows *)

Lemma view5_exact (x : tensor V) (n t c h w : Z) (s : tseq V) :
  outcome (view5 x [n; t; c; h; w]) = inr s ->
  (0 <= n)%Z -> (0 <= t)%Z -> (0 <= c)%Z -> (0 <= h)%Z -> (0 <= w)%Z ->
  size5 s = [Z.to_nat n; Z.to_nat t; Z.to_nat c; Z.to_nat h; Z.to_nat w].
Proof.
  intros H Hn Ht Hc Hh Hw; apply outcome_view5 in H. unfold size5.
  pose proof (@infer_size_nth _ _ _ 0 n H eq_refl) as E0.
  pose proof (@infer_size_nth _ _ _ 1 t H eq_refl) as E1.
  pose proof (@infer_size_nth _ _ _ 2 c H eq_refl) as E2.
  pose proof (@infer_size_nth _ _ _ 3 h H eq_refl) as E3.
  pose proof (@infer_size_nth _ _ _ 4 w H eq_refl) as E4.
  cbn in E0, E1, E2, E3, E4.
  injection (E0 ltac:(lia)) as ->. injection (E1 ltac:(lia)) as ->.
  injection (E2 ltac:(lia)) as ->. injection (E3 ltac:(lia)) as ->.
  injection (E4 ltac:(lia)) as ->. reflexivity.
Qed.

(** X3: for a sequence of at least one frame, the two flows that
    [compute_flow] returns have size (n, t - 1, 2, h, w). *)
Theorem flows_have_one_frame_less self (lqs ff fb : tseq V) :
  1 <= length (frames lqs) ->
  outcome (compute_flow self lqs) = inr (ff, fb) ->
  size5 ff = [batch lqs; length (frames lqs) - 1; 2; height lqs; width lqs] /\
  size5 fb = [batch lqs; length (frames lqs) - 1; 2; height lqs; width lqs].
Proof.
  intros Ht H; unfold compute_flow in H.
  bind_inv H lqs_1 H1. bind_inv H lqs_2 H2. bind_inv H f Hf. bind_inv H b Hb.
  bind_inv H f' Hf'. bind_inv H c Hc. apply outcome_ret in H. injection H as <- <-.
  assert (Eb : size5 b = [batch lqs; length (frames lqs) - 1; 2; height lqs; width lqs]).
  { apply view5_exact in Hb; try lia. rewrite Hb, !Nat2Z.id.
    do 2 f_equal. lia. }
  split; [| exact Eb].
  destruct (is_mirror_extended self).
  - apply outcome_ret in Hf'; subst f'.
    unfold size5, flip_t, with_frames in *; cbn [batch frames chans height width] in *.
    now rewrite length_rev.
  - bind_inv Hf' g Hg. apply view5_exact in Hf'; try lia. rewrite Hf', !Nat2Z.id.
    do 2 f_equal. lia.
Qed.

(** ** Logs along a successful run *)

Lemma quiet_trace {A : Type} (m : M V A) : obeys (fun _ => False) m -> trace m = [].
Proof.
  intros [H _]. destruct (trace m) as [| e tr]; [reflexivity |].
  inversion H; contradiction.
Qed.

Lemma trace_bind_ok {A B : Type} (m : M V A) (k : A -> M V B) (a : A) :
  outcome m = inr a -> trace (bind m k) = trace m ++ trace (k a).
Proof. intros H; now rewrite trace_bind, H. Qed.

Lemma trace_bind_quiet {A B : Type} (m : M V A) (k : A -> M V B) (a : A) :
  obeys (fun _ => False) m -> outcome m = inr a -> trace (bind m k) = trace (k a).
Proof. intros Hq H. now rewrite (@trace_bind_ok _ _ _ _ _ H), (@quiet_trace _ _ Hq). Qed.

Lemma trace_spynet (ref supp : tensor V) : trace (spynet ref supp) = [EvSpyNet ref supp].
Proof. unfold spynet, call. cbn. destruct (ext SpyNet _); reflexivity. Qed.

(** Rewrites the log of a chain of binds whose next step is known to
    return and to log nothing. *)
Ltac quiet_step H :=
  match type of H with
  | outcome ?m = inr ?a =>
      rewrite (@trace_bind_quiet _ _ m _ a ltac:(solve [obey]) H)
  end.

Lemma compute_flow_trace self (lqs ff fb : tseq V) :
  outcome (compute_flow self lqs) = inr (ff, fb) ->
  exists lqs_1 lqs_2,
    outcome (flatten4 (drop_last lqs) (chans lqs) (height lqs) (width lqs)) = inr lqs_1 /\
    outcome (flatten4 (drop_first lqs) (chans lqs) (height lqs) (width lqs)) = inr lqs_2 /\
    trace (compute_flow self lqs)
    = if is_mirror_extended self then [EvSpyNet lqs_1 lqs_2]
      else [EvSpyNet lqs_1 lqs_2; EvSpyNet lqs_2 lqs_1].
Proof.
  intros H; unfold compute_flow in *.
  bind_inv H lqs_1 H1. bind_inv H lqs_2 H2. bind_inv H f Hf. bind_inv H b Hb.
  bind_inv H f' Hf'. bind_inv H c Hc. clear H.
  exists lqs_1, lqs_2. repeat split; auto.
  quiet_step H1. quiet_step H2.
  rewrite (@trace_bind_ok _ _ _ _ _ Hf), trace_spynet.
  quiet_step Hb.
  rewrite (@trace_bind_ok _ _ _ _ _ Hf'). quiet_step Hc. cbn [ret trace fst].
  rewrite app_nil_r.
  destruct (is_mirror_extended self).
  - reflexivity.
  - bind_inv Hf' g Hg. rewrite (@trace_bind_ok _ _ _ _ _ Hg), trace_spynet.
    rewrite (@quiet_trace _ _ (view5_obeys _ _ _)). reflexivity.
Qed.

(** X4: when [compute_flow] returns, it has called the flow estimator on
    the frames but the last against the frames but the first, and, unless
    the mirror flag is set, once more with the two operands exchanged;
    with the flag set there is no second call. *)
Theorem flow_estimator_operands self (lqs ff fb : tseq V) :
  outcome (compute_flow self lqs) = inr (ff, fb) ->
  exists lqs_1 lqs_2,
    outcome (flatten4 (drop_last lqs) (chans lqs) (height lqs) (width lqs)) = inr lqs_1 /\
    outcome (flatten4 (drop_first lqs) (chans lqs) (height lqs) (width lqs)) = inr lqs_2 /\
    trace (compute_flow self lqs)
    = if is_mirror_extended self then [EvSpyNet lqs_1 lqs_2]
      else [EvSpyNet lqs_1 lqs_2; EvSpyNet lqs_2 lqs_1].
Proof.
  intros H. apply compute_flow_trace in H as (lqs_1 & lqs_2 & H1 & H2 & Htr).
  exists lqs_1, lqs_2. auto.
Qed.

(** ** The propagation *)

Lemma dict_get_set_other {A : Type} (d : dict A) k k' v :
  k' <> k -> dict_get (dict_set d k v) k' = dict_get d k'.
Proof.
  intros Hk; induction d as [| [k0 v0] d IH]; simpl.
  - destruct (String.eqb_spec k' k); [contradiction | reflexivity].
  - destruct (String.eqb_spec k k0) as [-> | Hn]; simpl.
    + destruct (String.eqb_spec k' k0); [contradiction | reflexivity].
    + destruct (String.eqb_spec k' k0); auto.
Qed.

Lemma dict_keys_set {A : Type} (d : dict A) k v v0 :
  dict_get d k = Some v0 -> dict_keys (dict_set d k v) = dict_keys d.
Proof.
  induction d as [| [k0 v1] d IH]; simpl; [discriminate |].
  destruct (String.eqb_spec k k0) as [-> | Hn]; simpl; [reflexivity |].
  intros H; f_equal; auto.
Qed.

(** X5: called as [forward] calls it, with an empty list under
    [module_name], a run of [propagate] that returns has changed the
    dictionary under that key only: the keys and their order are the
    same, every other list is the same, and the list of the branch holds
    one feature per frame, [t + 1] for flows of [t] frames, each with the
    batch size of the flows when the vendored operators produce the sizes
    they are documented to produce. *)
Theorem propagate_fills_its_branch self feats (flows : tseq V) module_name feats' :
  dict_get feats module_name = Some [] ->
  outcome (propagate self feats flows module_name) = inr feats' ->
  dict_keys feats' = dict_keys feats /\
  (forall k, k <> module_name -> dict_get feats' k = dict_get feats k) /\
  exists l,
    dict_get feats' module_name = Some l /\
    length l = length (frames flows) + 1 /\
    (ext_respects_shapes -> Forall (has_batch (batch flows)) l).
Proof.
  intros Hown H. apply propagate_spec in H; [| exact Hown].
  destruct H as (l & -> & Hlen & _ & Hb).
  split; [eapply dict_keys_set; eauto |].
  split; [intros k Hk; now apply dict_get_set_other |].
  exists l. split; [apply dict_get_set_same | auto].
Qed.

Lemma for_each_ok_each {A S : Type} (body : A -> S -> M V S) (xs : list A) :
  forall acc r, outcome (for_each xs body acc) = inr r ->
  forall x, In x xs -> exists acc' r', outcome (body x acc') = inr r'.
Proof.
  induction xs as [| y xs IH]; intros acc r H x Hin; [contradiction |].
  cbn [for_each] in H. bind_inv H acc1 H1.
  destruct Hin as [<- | Hin]; eauto.
Qed.

Lemma In_enumerate {A : Type} (l : list A) (x : A) :
  In x l -> exists i, In (i, x) (enumerate l).
Proof.
  unfold enumerate. generalize 0.
  induction l as [| y l IH]; intros k Hin; [contradiction |].
  destruct Hin as [<- | Hin]; cbn.
  - eauto.
  - destruct (IH (S k) Hin) as [i Hi]. eauto.
Qed.

(** X6: [propagate] reads the spatial feature of every frame through the
    index map [0, ..., m-1, m-1, ..., 0] over the [m] spatial features,
    so a run over flows of [t] frames returns only if [t + 1 <= 2 m]; in
    particular not without spatial features. *)
Theorem propagate_needs_enough_features self feats (flows : tseq V) module_name
    spatial feats' :
  dict_get feats "spatial" = Some spatial ->
  outcome (propagate self feats flows module_name) = inr feats' ->
  length (frames flows) + 1 <= 2 * length spatial.
Proof.
  intros Hsp H; unfold propagate in H.
  bind_inv H sp Hget. apply outcome_getitem in Hget.
  rewrite Hsp in Hget; injection Hget as <-.
  bind_inv H acc Hloop. clear H.
  set (t := length (frames flows)) in *.
  assert (Hin : In t (if str_in "backward" module_name
                      then rev (range (t + 1)) else range (t + 1))).
  { assert (H0 : In t (range (t + 1))) by (unfold range; apply in_seq; lia).
    destruct (str_in "backward" module_name); [rewrite <- in_rev |]; exact H0. }
  apply In_enumerate in Hin as [i Hi].
  destruct (for_each_ok_each _ _ _ Hloop _ Hi) as ([fp fs] & r' & Hstep).
  unfold propagate_step in Hstep.
  bind_inv Hstep sp' Hsp'. bind_inv Hstep k Hk.
  apply outcome_list_item in Hk.
  assert (Hlt : t < length (range (length spatial) ++ rev (range (length spatial)))).
  { apply nth_error_Some. congruence. }
  unfold range in Hlt. rewrite length_app, length_rev, length_seq in Hlt. lia.
Qed.

(** ** One fusion per frame *)

Lemma fusion_steps_app (a b : list (event V)) :
  fusion_steps (a ++ b) = fusion_steps a ++ fusion_steps b.
Proof. apply flat_map_app. Qed.

Lemma align_steps_app (a b : list (event V)) :
  align_steps (a ++ b) = align_steps a ++ align_steps b.
Proof. apply flat_map_app. Qed.

Lemma align_stage_trace self feats (flows : tseq V) module_name flow_idx i fc fp fp' :
  outcome (align_stage self feats flows module_name flow_idx i fc fp) = inr fp' ->
  fusion_steps (trace (align_stage self feats flows module_name flow_idx i fc fp)) = [] /\
  align_steps (trace (align_stage self feats flows module_name flow_idx i fc fp))
  = if (0 <? i) && is_with_alignment self then [i] else [].
Proof.
  intros H; unfold align_stage in *.
  destruct ((0 <? i) && is_with_alignment self); [| auto].
  bind_inv H k1 Hk1. quiet_step Hk1.
  bind_inv H f1 Hf1. quiet_step Hf1.
  bind_inv H f1' Hf1'. quiet_step Hf1'.
  bind_inv H p1 Hp1. quiet_step Hp1.
  bind_inv H c1 Hc1. quiet_step Hc1.
  bind_inv H second Hsecond. quiet_step Hsecond.
  destruct second as [[feat_n2 flow_n2] cond_n2].
  bind_inv H cond Hcond. quiet_step Hcond.
  bind_inv H fp2 Hfp2. quiet_step Hfp2.
  bind_inv H a Ha. quiet_step Ha.
  bind_inv H u Hu. rewrite (@trace_bind_ok _ _ _ _ _ Hu).
  rewrite (@quiet_trace _ _ (alignment_forward_obeys _ _ _ _ _ _)).
  auto.
Qed.

Lemma fuse_stage_trace self feats module_name i idx fc fp r :
  outcome (fuse_stage self feats module_name i idx fc fp) = inr r ->
  fusion_steps (trace (fuse_stage self feats module_name i idx fc fp)) = [i] /\
  align_steps (trace (fuse_stage self feats module_name i idx fc fp)) = [].
Proof.
  intros H; unfold fuse_stage in *.
  bind_inv H lf Hlf. quiet_step Hlf.
  bind_inv H c Hc. quiet_step Hc.
  bind_inv H bb Hbb. quiet_step Hbb. destruct bb as [[cin cout] nblk].
  bind_inv H fc2 Hfc2. quiet_step Hfc2.
  bind_inv H cache Hcache. quiet_step Hcache.
  bind_inv H feat Hfeat. quiet_step Hfeat.
  bind_inv H st Hst. quiet_step Hst.
  bind_inv H fu Hfu. quiet_step Hfu. destruct fu as [[nf nfr] center].
  bind_inv H u Hu. rewrite (@trace_bind_ok _ _ _ _ _ Hu).
  bind_inv H fused Hfused. quiet_step Hfused.
  bind_inv H fp2 Hfp2. quiet_step Hfp2.
  bind_inv H own Hown. quiet_step Hown.
  auto.
Qed.

Lemma propagate_step_trace self (flows : tseq V) module_name flow_idx mapping_idx
    i idx acc r :
  outcome (propagate_step self flows module_name flow_idx mapping_idx (i, idx) acc) = inr r ->
  let tr := trace (propagate_step self flows module_name flow_idx mapping_idx (i, idx) acc) in
  fusion_steps tr = [i] /\
  align_steps tr = if (0 <? i) && is_with_alignment self then [i] else [].
Proof.
  intros H tr; subst tr. destruct acc as [fp feats]. unfold propagate_step in *.
  bind_inv H sp Hsp. quiet_step Hsp.
  bind_inv H k Hk. quiet_step Hk.
  bind_inv H fc Hfc. quiet_step Hfc.
  bind_inv H cache Hcache. quiet_step Hcache.
  bind_inv H moved Hmoved. quiet_step Hmoved. destruct moved as [fc' fp'].
  bind_inv H fp2 Hfp2. rewrite (@trace_bind_ok _ _ _ _ _ Hfp2).
  apply align_stage_trace in Hfp2 as [Ef Ea].
  apply fuse_stage_trace in H as [Ff Fa].
  rewrite fusion_steps_app, align_steps_app, Ef, Ea, Ff, Fa.
  now rewrite app_nil_r.
Qed.

Lemma propagate_loop_trace self (flows : tseq V) module_name flow_idx mapping_idx :
  forall (idxs : list nat) (k : nat) (acc r : tensor V * features),
    let loop := for_each (combine (seq k (length idxs)) idxs)
                  (propagate_step self flows module_name flow_idx mapping_idx) acc in
    outcome loop = inr r ->
    fusion_steps (trace loop) = seq k (length idxs) /\
    align_steps (trace loop)
    = if is_with_alignment self then filter (fun i => 0 <? i) (seq k (length idxs)) else [].
Proof.
  induction idxs as [| idx idxs IH]; intros k acc r loop H; subst loop.
  - cbn. destruct (is_with_alignment self); auto.
  - cbn [length seq combine for_each] in *.
    bind_inv H acc1 H1. rewrite (@trace_bind_ok _ _ _ _ _ H1).
    apply propagate_step_trace in H1 as [Ef Ea].
    apply IH in H as [Ff Fa].
    rewrite fusion_steps_app, align_steps_app, Ef, Ea, Ff, Fa.
    split; [reflexivity |].
    cbn [filter]. destruct (0 <? k), (is_with_alignment self); reflexivity.
Qed.

Lemma filter_positive k n : 1 <= k -> filter (fun i => 0 <? i) (seq k n) = seq k n.
Proof.
  revert k; induction n as [| n IH]; intros k Hk; [reflexivity |].
  cbn [seq filter]. destruct (Nat.ltb_spec 0 k); [| lia].
  f_equal. apply IH. lia.
Qed.

(** X7: a run of [propagate] over flows of [t] frames that returns has
    called the fusion module of the branch once per step, for the steps
    [0, ..., t] in this order, and the alignment module once per step
    from step 1 on when alignment is enabled, never otherwise. *)
Theorem one_fusion_per_frame self feats (flows : tseq V) module_name feats' :
  outcome (propagate self feats flows module_name) = inr feats' ->
  fusion_steps (trace (propagate self feats flows module_name))
  = range (length (frames flows) + 1) /\
  align_steps (trace (propagate self feats flows module_name))
  = if is_with_alignment self then seq 1 (length (frames flows)) else [].
Proof.
  intros H; unfold propagate in *.
  bind_inv H sp Hsp. quiet_step Hsp.
  bind_inv H acc Hloop. rewrite (@trace_bind_ok _ _ _ _ _ Hloop).
  destruct acc as [fp fs]. cbv beta iota.
  match goal with
  | |- context [_ ++ ?tail] =>
      replace tail with (@nil (event V)) by (symmetry; apply quiet_trace; obey)
  end.
  rewrite !app_nil_r. clear H.
  set (idxs := if str_in "backward" module_name
               then rev (range (length (frames flows) + 1))
               else range (length (frames flows) + 1)) in *.
  assert (Hl : length idxs = length (frames flows) + 1).
  { subst idxs. unfold range.
    destruct (str_in "backward" module_name); now rewrite ?length_rev, length_seq. }
  unfold enumerate in *.
  apply propagate_loop_trace in Hloop as [Ef Ea].
  rewrite Ef, Ea, Hl. split; [reflexivity |].
  destruct (is_with_alignment self); [| reflexivity].
  rewrite Nat.add_1_r. cbn [seq filter]. cbn. apply filter_positive. lia.
Qed.

(** ** Popping the features *)

Lemma dict_get_app_fresh {A : Type} (d1 d2 : dict A) k :
  ~ In k (dict_keys d1) -> dict_get (d1 ++ d2) k = dict_get d2 k.
Proof.
  induction d1 as [| [k0 v0] d1 IH]; simpl; intros Hn; [reflexivity |].
  destruct (String.eqb_spec k k0) as [-> | Hk]; [tauto |]. apply IH; tauto.
Qed.

Lemma dict_set_app_fresh {A : Type} (d1 d2 : dict A) k v :
  ~ In k (dict_keys d1) -> dict_set (d1 ++ d2) k v = d1 ++ dict_set d2 k v.
Proof.
  induction d1 as [| [k0 v0] d1 IH]; simpl; intros Hn; [reflexivity |].
  destruct (String.eqb_spec k k0) as [-> | Hk]; [tauto |]. f_equal; apply IH; tauto.
Qed.

Lemma bind_ret {A B : Type} (a : A) (k : A -> M V B) : bind (ret a) k = k a.
Proof. unfold bind, ret. destruct (k a); reflexivity. Qed.

Lemma dict_keys_app {A : Type} (d1 d2 : dict A) :
  dict_keys (d1 ++ d2) = dict_keys d1 ++ dict_keys d2.
Proof. apply map_app. Qed.

Lemma pop_features_heads (todo : features (V := V)) :
  forall done,
    NoDup (dict_keys (done ++ todo)) ->
    Forall (fun e => fst e = "spatial" \/ snd e <> []) todo ->
    pop_features (dict_keys todo) (done ++ todo)
    = ret (popped todo, done ++ after_pop todo).
Proof.
  induction todo as [| [k l] todo IH]; intros done Hnd Hall.
  - cbn. now rewrite app_nil_r.
  - inversion Hall as [| ? ? Hkl Hrest]; subst. cbn [fst snd] in Hkl.
    assert (Hfresh : ~ In k (dict_keys done)).
    { rewrite dict_keys_app in Hnd. cbn in Hnd.
      apply NoDup_remove_2 in Hnd. intros Hin; apply Hnd, in_or_app; auto. }
    assert (Hstep : forall l', pop_features (dict_keys todo) (done ++ (k, l') :: todo)
                               = ret (popped todo, done ++ (k, l') :: after_pop todo)).
    { intros l'. specialize (IH (done ++ [(k, l')])).
      rewrite <- !app_assoc in IH. cbn [app] in IH. apply IH; [| exact Hrest].
      rewrite dict_keys_app in *. exact Hnd. }
    cbn [dict_keys map fst pop_features popped after_pop flat_map].
    fold (dict_keys todo). fold (popped todo). fold (after_pop todo).
    destruct (String.eqb_spec k "spatial") as [-> | Hk].
    + apply Hstep.
    + unfold getitem. rewrite dict_get_app_fresh by exact Hfresh. cbn [dict_get].
      rewrite String.eqb_refl. destruct l as [| x l']; [destruct Hkl; congruence |].
      cbn [lift_opt]. rewrite bind_ret.
      rewrite dict_set_app_fresh by exact Hfresh. cbn [dict_set].
      rewrite String.eqb_refl, Hstep. reflexivity.
Qed.

Lemma pop_features_empty (todo : features (V := V)) :
  forall done,
    NoDup (dict_keys (done ++ todo)) ->
    Exists (fun e => fst e <> "spatial" /\ snd e = []) todo ->
    outcome (pop_features (dict_keys todo) (done ++ todo)) = inl IndexError.
Proof.
  induction todo as [| [k l] todo IH]; intros done Hnd Hex; [inversion Hex |].
  assert (Hfresh : ~ In k (dict_keys done)).
  { rewrite dict_keys_app in Hnd. cbn in Hnd.
    apply NoDup_remove_2 in Hnd. intros Hin; apply Hnd, in_or_app; auto. }
  assert (Hstep : forall l', Exists (fun e => fst e <> "spatial" /\ snd e = []) todo ->
                             outcome (pop_features (dict_keys todo) (done ++ (k, l') :: todo))
                             = inl IndexError).
  { intros l' Hex'. specialize (IH (done ++ [(k, l')])).
    rewrite <- !app_assoc in IH. cbn [app] in IH. apply IH; [| exact Hex'].
    rewrite dict_keys_app in *. exact Hnd. }
  cbn [dict_keys map fst pop_features]. fold (dict_keys todo).
  destruct (String.eqb_spec k "spatial") as [-> | Hk].
  - apply Hstep. inversion Hex as [? ? [Hne _] | ? ? Hex']; subst; [| exact Hex'].
    now destruct Hne.
  - unfold getitem. rewrite dict_get_app_fresh by exact Hfresh. cbn [dict_get].
    rewrite String.eqb_refl. destruct l as [| x l']; [reflexivity |].
    cbn [lift_opt]. rewrite bind_ret.
    rewrite dict_set_app_fresh by exact Hfresh. cbn [dict_set].
    rewrite String.eqb_refl.
    apply outcome_bind_inl, Hstep.
    inversion Hex as [? ? [_ Hnil] | ? ? Hex']; subst; [discriminate | exact Hex'].
Qed.

(** X8: on a dictionary without repeated keys, the comprehension
    [[feats[k].pop(0) for k in feats if k != 'spatial']] of [upsample]
    returns the first element of every list but that of ['spatial'], in
    the order of the keys, and leaves these lists without their first
    element and the rest as it was, when none of these lists is empty;
    when one is empty it raises [IndexError]. *)
Theorem pop_takes_the_heads (feats : features (V := V)) :
  NoDup (dict_keys feats) ->
  (Forall (fun e => fst e = "spatial" \/ snd e <> []) feats ->
   pop_features (dict_keys feats) feats = ret (popped feats, after_pop feats)) /\
  (Exists (fun e => fst e <> "spatial" /\ snd e = []) feats ->
   outcome (pop_features (dict_keys feats) feats) = inl IndexError).
Proof.
  intros Hnd; split; intros H.
  - apply (@pop_features_heads feats [] Hnd H).
  - apply (@pop_features_empty feats [] Hnd H).
Qed.

(** ** Edge cases of forward *)

(** X9: a clip without frames never comes back from [forward]: whatever
    the earlier stages do, [upsample] ends in [torch.stack] of an empty
    list of outputs. *)
Theorem empty_clip_never_returns self (lqs : tseq V) out :
  frames lqs = [] ->
  outcome (snd (forward self lqs)) <> inr out.
Proof.
  intros Hempty H; unfold forward in H.
  destruct (downsample _ lqs) as [tr [e | d]]; [discriminate |].
  cbn [snd] in H. bind_inv H d' Hd. clear Hd.
  unfold forward_rest in H. bind_inv H feats Hf. clear Hf.
  bind_inv H r Hups. destruct r as [o fs]. clear H.
  unfold upsample in Hups. rewrite Hempty in Hups.
  bind_inv Hups sp Hsp. cbn [length range seq for_each] in Hups.
  rewrite bind_ret in Hups. bind_inv Hups st Hst. discriminate.
Qed.


(** ** Calls of the flow estimator *)

Lemma calls_bind_ok {A B : Type} (m : M V A) (k : A -> M V B) (a : A) :
  outcome m = inr a ->
  spynet_calls (trace (bind m k)) = spynet_calls (trace m) + spynet_calls (trace (k a)).
Proof. intros H. now rewrite (@trace_bind_ok _ _ _ _ _ H), spynet_calls_app. Qed.

Lemma quiet_calls {A : Type} (m : M V A) :
  obeys (fun _ => False) m -> spynet_calls (trace m) = 0.
Proof. intros H. now rewrite (@quiet_trace _ _ H). Qed.

Lemma trace_assert_size (d : tseq V) h w : trace (assert_size d h w) = [].
Proof. unfold assert_size. destruct (_ && _); reflexivity. Qed.

Lemma propagate_calls self feats (flows : tseq V) module_name :
  spynet_calls (trace (propagate self feats flows module_name)) = 0.
Proof. pose proof (propagate_no_calls self feats flows module_name). lia. Qed.

Lemma upsample_calls self (lqs : tseq V) feats :
  spynet_calls (trace (upsample self lqs feats)) = 0.
Proof.
  assert (H : spynet_calls (trace (upsample self lqs feats)) <= 0); [| lia].
  apply no_calls. apply upsample_obeys.
Qed.

(** X11: a call of [forward] that returns and leaves the mirror flag
    unset has called the flow estimator exactly twice. *)
Theorem two_flow_estimations_without_mirror self (lqs out : tseq V) :
  is_mirror_extended (fst (forward self lqs)) = false ->
  outcome (snd (forward self lqs)) = inr out ->
  spynet_calls (trace (snd (forward self lqs))) = 2.
Proof.
  unfold forward.
  pose proof (downsample_obeys (fun _ => False)
                (set_cpu_cache self
                   (Z.of_nat (length (frames lqs)) >? cpu_cache_length self)%Z) lqs) as Hq.
  destruct (downsample _ lqs) as [tr [e | d]]; cbn [fst snd]; [discriminate |].
  intros Hflag H.
  apply quiet_calls in Hq. cbn [trace fst] in Hq.
  set (self1 := check_if_mirror_extended _ lqs) in *.
  bind_inv H d' Hd. rewrite (@calls_bind_ok _ _ _ _ _ Hd). cbn [trace fst]. rewrite Hq.
  cbn in Hd; injection Hd as <-.
  unfold forward_rest in *.
  bind_inv H feats Hf. rewrite (@calls_bind_ok _ _ _ _ _ Hf).
  bind_inv H r Hups. rewrite (@calls_bind_ok _ _ _ _ _ Hups), upsample_calls.
  destruct r as [o fs]. cbn [ret trace fst spynet_calls filter length]. clear H Hups.
  unfold forward_features in *.
  bind_inv Hf sp Hsp. rewrite (@calls_bind_ok _ _ _ _ _ Hsp).
  rewrite (@quiet_calls _ _ (spatial_features_obeys _ _ _)).
  destruct sp as [spatial [h w]].
  bind_inv Hf u Hu. rewrite (@calls_bind_ok _ _ _ _ _ Hu), trace_assert_size.
  bind_inv Hf fl Hfl. rewrite (@calls_bind_ok _ _ _ _ _ Hfl).
  destruct fl as [ff fb].
  apply compute_flow_trace in Hfl as (a & b & _ & _ & ->). rewrite Hflag.
  cbn [for_each] in *.
  bind_inv Hf f1 Hf1. rewrite (@calls_bind_ok _ _ _ _ _ Hf1).
  bind_inv Hf f2 Hf2. rewrite (@calls_bind_ok _ _ _ _ _ Hf2).
  unfold propagate_direction. rewrite !propagate_calls. reflexivity.
Qed.

(** ** The low-resolution copy *)

(** X12: in the low-resolution mode [lqs_downsample] is the input; in the
    other mode it has size (n, t, c, h // 4, w // 4), and its computation
    returns only for inputs of height and width at least 4. *)
Theorem downsample_sizes self (lqs d : tseq V) :
  outcome (downsample self lqs) = inr d ->
  if is_low_res_input self then d = lqs
  else
    size5 d = [batch lqs; length (frames lqs); chans lqs; height lqs / 4; width lqs / 4] /\
    4 <= height lqs /\ 4 <= width lqs.
Proof.
  intros H; unfold downsample in H.
  destruct (is_low_res_input self); [now apply outcome_ret in H |].
  bind_inv H x Hx. bind_inv H y Hy.
  apply view5_exact in H; try lia. rewrite !Nat2Z.id in H.
  split; [exact H |].
  apply outcome_prim in Hy. unfold interpolate_shape in Hy.
  destruct (shape_of x) as [| n [| c [| h [| w [| ? ?]]]]]; try discriminate.
  destruct (Nat.ltb_spec 0 (height lqs / 4)), (Nat.ltb_spec 0 (width lqs / 4));
    rewrite ?andb_false_r in Hy; try discriminate.
  split.
  - destruct (Nat.lt_ge_cases (height lqs) 4) as [Hlt | Hge]; [| exact Hge].
    rewrite Nat.div_small in * by exact Hlt. lia.
  - destruct (Nat.lt_ge_cases (width lqs) 4) as [Hlt | Hge]; [| exact Hge].
    rewrite (Nat.div_small (width lqs)) in * by exact Hlt. lia.
Qed.

(** ** The spatial features without the cache *)

(** X13: with [cpu_cache] false, the spatial features are one tensor per
    frame, all of one size (n, c', h', w'), where [n] is the batch size
    of the input and [h', w'] is the size that the local variables [h, w]
    are rebound to. *)
Theorem per_frame_spatial_features self (lqs : tseq V) spatial h w :
  cpu_cache self = Some false ->
  outcome (spatial_features self lqs) = inr (spatial, (h, w)) ->
  length spatial = length (frames lqs) /\
  exists c, Forall (fun x => shape_of x = [batch lqs; c; h; w]) spatial.
Proof.
  intros Hc H. split; [eapply spatial_features_length; eauto |].
  unfold spatial_features, get_cpu_cache in H. rewrite Hc in H.
  cbn [lift_opt] in H. rewrite bind_ret in H.
  bind_inv H f Hf. bind_inv H hw Hhw. destruct hw as [h' w'].
  bind_inv H s Hs. bind_inv H l Hl.
  apply outcome_ret in H. injection H as <- <- <-.
  exists (chans s).
  pose proof Hs as Eb; apply view5_batch in Eb.
  apply outcome_view5 in Hs.
  pose proof (@infer_size_nth _ _ _ 3 _ Hs eq_refl) as E3.
  pose proof (@infer_size_nth _ _ _ 4 _ Hs eq_refl) as E4.
  cbn in E3, E4.
  injection (E3 ltac:(lia)) as Eh. injection (E4 ltac:(lia)) as Ew.
  rewrite Nat2Z.id in Eh, Ew.
  apply for_each_collect
    with (g := fun i => select_t s (Z.of_nat i))
         (P := fun x : tensor V => shape_of x = [batch lqs; chans s; h'; w']) in Hl.
  - apply Hl.
  - intros i y Hy. apply outcome_select_t in Hy. now rewrite Hy, Eb, Eh, Ew.
  - constructor.
Qed.

(** ** What upsample consumes *)

Lemma skipn_cons_next {A : Type} (l : list A) k x l' :
  skipn k l = x :: l' -> skipn (S k) l = l' /\ S k <= length l.
Proof.
  revert l; induction k as [| k IH]; intros l H.
  - cbn in H; subst l. cbn; split; [reflexivity | lia].
  - destruct l as [| y l]; [discriminate |]. cbn [skipn] in H.
    destruct (IH _ H) as [E Hlen]. cbn [length]. split; [exact E | lia].
Qed.

Lemma stack1_frames (ts : list (tensor V)) (s : tseq V) :
  outcome (stack1 ts) = inr s -> length (frames s) = length ts.
Proof.
  unfold stack1. destruct ts as [| x ts]; [discriminate |].
  destruct (shape_of x) as [| n [| c [| h [| w [| ? ?]]]]]; try discriminate.
  destruct (forallb _ _); [| discriminate].
  intros H; apply outcome_ret in H; subst s. cbn [frames]. apply length_map.
Qed.

(** X20: on the dictionary that [forward] hands over, a run of
    [upsample] over [t] frames that returns has taken the first [t]
    features of each branch, which therefore had at least [t], has left
    the rest of each list and the spatial features as they were, and
    returns [t] frames. *)
Theorem upsample_takes_one_feature_per_frame self (lqs : tseq V) spatial lb lf out feats' :
  outcome (upsample self lqs
             [("spatial", spatial); ("backward_1", lb); ("forward_1", lf)])
  = inr (out, feats') ->
  length (frames lqs) <= length lb /\
  length (frames lqs) <= length lf /\
  feats' = [("spatial", spatial);
            ("backward_1", skipn (length (frames lqs)) lb);
            ("forward_1", skipn (length (frames lqs)) lf)] /\
  length (frames out) = length (frames lqs).
Proof.
  intros H; unfold upsample in H.
  bind_inv H sp Hsp. bind_inv H acc Hloop. destruct acc as [outputs fs].
  bind_inv H st Hst. apply outcome_ret in H. injection H as <- <-.
  apply stack1_frames in Hst.
  apply (for_each_invariant
           (fun k (acc : list (tensor V) * features) =>
              snd acc = [("spatial", spatial); ("backward_1", skipn k lb);
                         ("forward_1", skipn k lf)] /\
              k <= length lb /\ k <= length lf /\ length (fst acc) = k))
    with (k := 0) in Hloop.
  - unfold range in Hloop. rewrite length_seq in Hloop. cbn [fst snd Nat.add] in Hloop.
    destruct Hloop as (Hf & Hlb & Hlf & Hlen). repeat split; auto. congruence.
  - intros k i [outs fs0] [outs' fs'] (Hf & Hlb & Hlf & Hlen) Hstep.
    cbn [fst snd] in Hf, Hlen |- *. subst fs0.
    apply upsample_step_spec in Hstep
      as (b & lb' & fw & lf' & hr & Eb & Ef & -> & -> & _).
    apply skipn_cons_next in Eb as [-> Hb]. apply skipn_cons_next in Ef as [-> Hf].
    repeat split; auto. rewrite length_app. cbn [length]. lia.
  - cbn [fst snd skipn length]. repeat split; auto; lia.
Qed.

(** ** The cache and the device *)

(** X21: without a CUDA device, a call of [forward] whose number of
    frames exceeds [cpu_cache_length] never returns: with the cache
    active the first propagation step moves its operands with
    [.cuda()]. *)
Theorem cache_needs_cuda self (lqs out : tseq V) :
  cuda_is_available = false ->
  (cpu_cache_length self < Z.of_nat (length (frames lqs)))%Z ->
  outcome (snd (forward self lqs)) <> inr out.
Proof.
  intros Hcuda Hlen H; unfold forward in H.
  replace (Z.of_nat (length (frames lqs)) >? cpu_cache_length self)%Z with true in H
    by (symmetry; apply Z.gtb_lt; lia).
  set (self0 := set_cpu_cache self true) in H.
  destruct (downsample self0 lqs) as [tr [e | d]]; [discriminate |].
  cbn [snd] in H. bind_inv H d' Hd. clear Hd.
  set (self1 := check_if_mirror_extended self0 lqs) in H.
  assert (Hc : cpu_cache self1 = Some true).
  { destruct (check_keeps_config self0 lqs) as (_ & _ & E). unfold self1.
    rewrite E. reflexivity. }
  unfold forward_rest in H. bind_inv H feats Hf. clear H.
  unfold forward_features in Hf.
  bind_inv Hf sp Hsp. destruct sp as [spatial [h w]].
  bind_inv Hf u Hu. bind_inv Hf fl Hfl. destruct fl as [ff fb].
  cbn [for_each] in Hf. bind_inv Hf fe Hp. clear Hf.
  unfold propagate_direction in Hp. cbn -[propagate] in Hp. unfold propagate in Hp.
  bind_inv Hp sp' Hsp'. bind_inv Hp acc Hloop. clear Hp.
  change (str_in "backward" "backward_1") with true in Hloop. cbv iota in Hloop.
  destruct (rev (range (length (frames fb) + 1))) as [| idx idxs] eqn:Hl.
  { apply (f_equal (@length nat)) in Hl.
    unfold range in Hl; rewrite length_rev, length_seq in Hl. cbn in Hl. lia. }
  unfold enumerate in Hloop. cbn [length seq combine for_each] in Hloop.
  bind_inv Hloop res Hstep. clear Hloop.
  unfold propagate_step in Hstep.
  bind_inv Hstep s0 Hs0. bind_inv Hstep k Hk. bind_inv Hstep fc Hfc.
  bind_inv Hstep cache Hcache.
  unfold get_cpu_cache in Hcache. rewrite Hc in Hcache.
  apply outcome_ret in Hcache. subst cache.
  bind_inv Hstep moved Hmoved. bind_inv Hmoved a Ha.
  unfold cuda in Ha. rewrite Hcuda in Ha. discriminate.
Qed.

(** ** The size floor *)

(** X22: in the low-resolution mode [forward] returns only for inputs of
    height and width at least 64: the assertion stands between the
    feature extraction and everything after it. *)
Theorem forward_returns_only_above_the_floor self (lqs out : tseq V) :
  is_low_res_input self = true ->
  outcome (snd (forward self lqs)) = inr out ->
  64 <= height lqs /\ 64 <= width lqs.
Proof.
  intros Hlow H; unfold forward in H.
  unfold downsample in H. cbn [is_low_res_input set_cpu_cache] in H.
  rewrite Hlow in H. cbn [ret snd] in H.
  bind_inv H d Hd. apply outcome_ret in Hd. subst d.
  unfold forward_rest in H. bind_inv H feats Hf. clear H.
  unfold forward_features in Hf.
  bind_inv Hf sp Hsp. destruct sp as [spatial [h w]].
  bind_inv Hf u Hu. clear Hf.
  unfold assert_size in Hu.
  destruct (Nat.leb_spec 64 (height lqs)), (Nat.leb_spec 64 (width lqs));
    try discriminate.
  auto.
Qed.

(** ** The reconstruction drains the features *)

Lemma conv_out_ok h : 1 <= h -> conv_out h 3 1 1 = Some h.
Proof.
  intros Hh; unfold conv_out. cbn [Nat.eqb orb].
  destruct (Nat.ltb_spec (h + 2 * 1) 3); [lia |].
  f_equal. rewrite Nat.div_1_r. lia.
Qed.

Lemma conv2d_returns layer cin cout (x : tensor V) n h w :
  shape_of x = [n; cin; h; w] -> 1 <= h -> 1 <= w ->
  exists r, conv2d layer cin cout 3 1 1 x = ret r /\ shape_of r = [n; cout; h; w].
Proof.
  intros Hx Hh Hw; unfold conv2d, conv2d_shape.
  rewrite Hx, Nat.eqb_refl, !conv_out_ok by assumption.
  eexists; split; reflexivity.
Qed.

Lemma pixel_shuffle_returns (x : tensor V) n c h w :
  shape_of x = [n; c * 4; h; w] ->
  exists r, pixel_shuffle 2 x = ret r /\ shape_of r = [n; c; h * 2; w * 2].
Proof.
  intros Hx; unfold pixel_shuffle, pixel_shuffle_shape. rewrite Hx.
  change (2 * 2) with 4. rewrite Nat.Div0.mod_mul, Nat.div_mul by lia.
  eexists; split; reflexivity.
Qed.

Lemma cat3_returns (a b c : tensor V) n c1 c2 c3 h w :
  shape_of a = [n; c1; h; w] -> shape_of b = [n; c2; h; w] -> shape_of c = [n; c3; h; w] ->
  exists r, cat1 [a; b; c] = ret r /\ shape_of r = [n; c1 + (c2 + c3); h; w].
Proof.
  intros Ha Hb Hc; unfold cat1. cbn [map]. rewrite Ha, Hb, Hc.
  cbn [cat1_shape]. repeat (rewrite !Nat.eqb_refl; cbn [andb]).
  eexists; split; reflexivity.
Qed.

Lemma select_t_returns (x : tseq V) i :
  i < length (frames x) ->
  exists r, select_t x (Z.of_nat i) = ret r /\
            shape_of r = [batch x; chans x; height x; width x].
Proof.
  intros Hi; unfold select_t, py_index.
  destruct (Z.leb_spec 0 (Z.of_nat i)); [| lia].
  destruct (Z.ltb_spec (Z.of_nat i) (Z.of_nat (length (frames x)))); [| lia].
  cbn [andb]. rewrite Nat2Z.id.
  destruct (nth_error (frames x) i) as [v |] eqn:E.
  - cbn [lift_opt]. rewrite bind_ret. eexists; split; reflexivity.
  - apply nth_error_None in E. lia.
Qed.

Lemma img_upsample_returns (x : tensor V) n c h w :
  shape_of x = [n; c; h; w] -> 1 <= h -> 1 <= w ->
  exists r, img_upsample x = ret r /\ shape_of r = [n; c; 4 * h; 4 * w].
Proof.
  intros Hx Hh Hw; unfold img_upsample, interpolate_size, interpolate_shape.
  rewrite Hx.
  destruct (Nat.ltb_spec 0 h); [| lia]. destruct (Nat.ltb_spec 0 w); [| lia].
  destruct (Nat.ltb_spec 0 (4 * h)); [| lia]. destruct (Nat.ltb_spec 0 (4 * w)); [| lia].
  eexists; split; reflexivity.
Qed.

Lemma iadd_returns (a b : tensor V) s :
  shape_of a = s -> shape_of b = s ->
  exists r, iadd a b = ret r /\ shape_of r = s.
Proof.
  intros Ha Hb; unfold iadd. rewrite Ha, Hb, broadcast_same.
  unfold shape_eqb. destruct (list_eq_dec Nat.eq_dec s s); [| contradiction].
  eexists; split; reflexivity.
Qed.

Lemma cuda_if_cached_returns self (x : tensor V) :
  device_ready self -> cuda_if_cached self x = ret x.
Proof.
  intros (cache & Hc & Hdev); unfold cuda_if_cached, get_cpu_cache.
  rewrite Hc. cbn [lift_opt]. rewrite bind_ret.
  destruct cache; [| reflexivity]. unfold cuda. now rewrite Hdev.
Qed.

Lemma stack1_returns (ts : list (tensor V)) n c h w :
  ts <> [] -> Forall (fun x => shape_of x = [n; c; h; w]) ts ->
  exists s, outcome (stack1 ts) = inr s /\ length (frames s) = length ts.
Proof.
  intros Hne Hall; unfold stack1. destruct ts as [| x ts]; [contradiction |].
  rewrite (Forall_inv Hall).
  assert (E : forallb (fun y => shape_eqb (shape_of y) [n; c; h; w]) (x :: ts) = true).
  { apply forallb_forall. intros y Hy. rewrite Forall_forall in Hall.
    rewrite (Hall y Hy). unfold shape_eqb.
    destruct (list_eq_dec Nat.eq_dec [n; c; h; w] [n; c; h; w]); [reflexivity | contradiction]. }
  rewrite E. eexists; split; [reflexivity |]. cbn [frames]. apply length_map.
Qed.

Lemma mapping_idx_front m i :
  i < m -> nth_error (range m ++ rev (range m)) i = Some i.
Proof.
  intros Hi; unfold range. rewrite nth_error_app1 by (rewrite length_seq; lia).
  rewrite nth_error_nth' with (d := 0) by (rewrite length_seq; lia).
  now rewrite seq_nth.
Qed.

(** One step of the loop of [upsample] returns, with one feature less
    in each branch. *)
Lemma upsample_step_returns self (lqs : tseq V) i outputs spatial b lb f lf :
  ext_respects_shapes -> reconstruction_returns self -> device_ready self ->
  is_low_res_input self = true ->
  chans lqs = 3 -> 1 <= height lqs -> 1 <= width lqs ->
  i < length (frames lqs) -> i < length spatial ->
  Forall (feature_of self lqs) spatial ->
  feature_of self lqs b -> feature_of self lqs f ->
  exists hr,
    upsample_step self lqs (range (length spatial) ++ rev (range (length spatial))) i
      (outputs, [("spatial", spatial); ("backward_1", b :: lb); ("forward_1", f :: lf)])
    = ret (outputs ++ [hr], [("spatial", spatial); ("backward_1", lb); ("forward_1", lf)]) /\
    shape_of hr = [batch lqs; 3; 4 * height lqs; 4 * width lqs].
Proof.
  intros Hext Hrec Hdev Hlow Hc Hh Hw Hi Him Hsp Hb Hf.
  unfold feature_of in *.
  set (n := batch lqs) in *. set (mid := mid_channels self) in *.
  set (h := height lqs) in *. set (w := width lqs) in *.
  destruct (nth_error spatial i) as [s |] eqn:Es; [| apply nth_error_None in Es; lia].
  assert (Hs : shape_of s = [n; mid; h; w]).
  { rewrite Forall_forall in Hsp. apply Hsp. eapply nth_error_In; eauto. }
  destruct (@cat3_returns s b f n mid mid mid h w Hs Hb Hf) as (x1 & E1 & S1).
  replace (mid + (mid + mid)) with (3 * mid) in S1 by lia.
  destruct (Hrec x1 n h w S1) as (x2 & E2).
  pose proof (Hext _ _ _ E2) as S2. cbn [map ext_shape_ok] in S2. rewrite S1 in S2.
  destruct S2 as [_ S2]. fold mid in S2, E2.
  destruct (@conv2d_returns "upconv1" mid (mid * 4) x2 n h w S2 Hh Hw) as (x3 & E3 & S3).
  destruct (@pixel_shuffle_returns x3 n mid h w S3) as (x4 & E4 & S4).
  destruct (@conv2d_returns "upconv2" mid (64 * 4) (lrelu x4) n (h * 2) (w * 2) S4
              ltac:(lia) ltac:(lia)) as (x5 & E5 & S5).
  destruct (@pixel_shuffle_returns x5 n 64 (h * 2) (w * 2) S5) as (x6 & E6 & S6).
  destruct (@conv2d_returns "conv_hr" 64 64 (lrelu x6) n (h * 2 * 2) (w * 2 * 2) S6
              ltac:(lia) ltac:(lia)) as (x7 & E7 & S7).
  destruct (@conv2d_returns "conv_last" 64 3 (lrelu x7) n (h * 2 * 2) (w * 2 * 2) S7
              ltac:(lia) ltac:(lia)) as (x8 & E8 & S8).
  destruct (@select_t_returns lqs i Hi) as (fr & E9 & S9).
  fold n h w in S9. rewrite Hc in S9.
  destruct (@img_upsample_returns fr n 3 h w S9 Hh Hw) as (up & E10 & S10).
  assert (S8' : shape_of x8 = [n; 3; 4 * h; 4 * w]).
  { rewrite S8. do 2 f_equal. f_equal; [lia |]. f_equal. lia. }
  destruct (@iadd_returns x8 up _ S8' S10) as (hr & E11 & S11).
  exists hr. split; [| exact S11].
  unfold upsample_step. rewrite pop_features_three, bind_ret.
  cbv beta iota. unfold getitem, list_item. cbn [dict_get String.eqb Ascii.eqb Bool.eqb].
  cbn [lift_opt]. rewrite bind_ret, mapping_idx_front by exact Him.
  cbn [lift_opt]. rewrite bind_ret, Es. cbn [lift_opt]. rewrite bind_ret.
  fold mid. rewrite E1, bind_ret, (@cuda_if_cached_returns self x1 Hdev), bind_ret.
  unfold call. rewrite E2. cbn [lift_opt]. rewrite bind_ret.
  rewrite E3, bind_ret, E4, bind_ret, E5, bind_ret, E6, bind_ret, E7, bind_ret,
    E8, bind_ret, E9, bind_ret, Hlow, E10, bind_ret, E11, bind_ret.
  destruct Hdev as (cache & Hcache & _). unfold get_cpu_cache. rewrite Hcache.
  cbn [lift_opt]. now rewrite bind_ret.
Qed.

Lemma upsample_loop_returns self (lqs : tseq V) spatial :
  ext_respects_shapes -> reconstruction_returns self -> device_ready self ->
  is_low_res_input self = true ->
  chans lqs = 3 -> 1 <= height lqs -> 1 <= width lqs ->
  Forall (feature_of self lqs) spatial ->
  forall lb lf k outputs,
    length lf = length lb ->
    k + length lb <= length (frames lqs) ->
    k + length lb <= length spatial ->
    Forall (feature_of self lqs) lb -> Forall (feature_of self lqs) lf ->
    exists news,
      for_each (seq k (length lb))
        (upsample_step self lqs (range (length spatial) ++ rev (range (length spatial))))
        (outputs, [("spatial", spatial); ("backward_1", lb); ("forward_1", lf)])
      = ret (outputs ++ news, [("spatial", spatial); ("backward_1", []); ("forward_1", [])]) /\
      length news = length lb /\
      Forall (fun hr => shape_of hr = [batch lqs; 3; 4 * height lqs; 4 * width lqs]) news.
Proof.
  intros Hext Hrec Hdev Hlow Hc Hh Hw Hsp.
  induction lb as [| b lb IH]; intros lf k outputs Hlen Hk Hm Hlb Hlf.
  - destruct lf; [| discriminate]. exists []. cbn [length seq for_each].
    rewrite app_nil_r. auto.
  - destruct lf as [| f lf]; [discriminate |]. cbn [length] in *.
    destruct (@upsample_step_returns self lqs k outputs spatial b lb f lf
                Hext Hrec Hdev Hlow Hc Hh Hw ltac:(lia) ltac:(lia) Hsp
                (Forall_inv Hlb) (Forall_inv Hlf)) as (hr & Estep & Shr).
    destruct (IH lf (S k) (outputs ++ [hr]) ltac:(lia) ltac:(lia) ltac:(lia)
                (Forall_inv_tail Hlb) (Forall_inv_tail Hlf)) as (news & Eloop & Ln & Sn).
    exists (hr :: news). cbn [seq for_each]. rewrite Estep, bind_ret, Eloop.
    rewrite <- app_assoc. cbn [app length]. repeat split; auto.
Qed.

Lemma upsample_returns self (lqs : tseq V) spatial lb lf :
  ext_respects_shapes -> reconstruction_returns self -> device_ready self ->
  is_low_res_input self = true ->
  chans lqs = 3 -> 1 <= height lqs -> 1 <= width lqs ->
  1 <= length (frames lqs) ->
  length spatial = length (frames lqs) ->
  length lb = length (frames lqs) ->
  length lf = length (frames lqs) ->
  Forall (feature_of self lqs) spatial ->
  Forall (feature_of self lqs) lb -> Forall (feature_of self lqs) lf ->
  exists out,
    outcome (upsample self lqs
               [("spatial", spatial); ("backward_1", lb); ("forward_1", lf)])
    = inr (out, [("spatial", spatial); ("backward_1", []); ("forward_1", [])]) /\
    length (frames out) = length (frames lqs).
Proof.
  intros Hext Hrec Hdev Hlow Hc Hh Hw Ht Hs Hlb Hlf Fs Fb Ff.
  destruct (@upsample_loop_returns self lqs spatial Hext Hrec Hdev Hlow Hc Hh Hw Fs
              lb lf 0 [] ltac:(lia) ltac:(lia) ltac:(lia) Fb Ff) as (news & Eloop & Ln & Sn).
  destruct (@stack1_returns news (batch lqs) 3 (4 * height lqs) (4 * width lqs))
    as (out & Eout & Lout); [destruct news; [cbn in Ln; lia | discriminate] | exact Sn |].
  exists out. split; [| lia].
  unfold upsample, getitem. cbn [dict_get String.eqb Ascii.eqb Bool.eqb lift_opt].
  rewrite bind_ret. cbv beta.
  change (range (length (frames lqs))) with (seq 0 (length (frames lqs))).
  rewrite <- Hlb.
  match goal with
  | |- outcome (bind ?m _) = _ =>
      replace m
        with (ret (V := V)
                ([] ++ news,
                 [("spatial", spatial); ("backward_1", @nil (tensor V));
                  ("forward_1", @nil (tensor V))]))
        by (symmetry; exact Eloop)
  end.
  rewrite bind_ret. cbn [app]. rewrite (@outcome_bind_of _ _ _ _ _ Eout). reflexivity.
Qed.

Lemma upsample_loop_drains self (lqs : tseq V) mapping_idx spatial lb lf outputs feats' :
  outcome (for_each (range (length (frames lqs))) (upsample_step self lqs mapping_idx)
             ([], [("spatial", spatial); ("backward_1", lb); ("forward_1", lf)]))
  = inr (outputs, feats') ->
  length (frames lqs) <= length lb /\
  length (frames lqs) <= length lf /\
  feats' = [("spatial", spatial);
            ("backward_1", skipn (length (frames lqs)) lb);
            ("forward_1", skipn (length (frames lqs)) lf)] /\
  length outputs = length (frames lqs).
Proof.
  intros Hloop.
  apply (for_each_invariant
           (fun k (acc : list (tensor V) * features) =>
              snd acc = [("spatial", spatial); ("backward_1", skipn k lb);
                         ("forward_1", skipn k lf)] /\
              k <= length lb /\ k <= length lf /\ length (fst acc) = k))
    with (k := 0) in Hloop.
  - unfold range in Hloop. rewrite length_seq in Hloop. cbn [fst snd Nat.add] in Hloop.
    destruct Hloop as (Hf & Hlb & Hlf & Hlen). auto.
  - intros k i [outs fs0] [outs' fs'] (Hf & Hlb & Hlf & Hlen) Hstep.
    cbn [fst snd] in Hf, Hlen |- *. subst fs0.
    apply upsample_step_spec in Hstep
      as (b & lb' & fw & lf' & hr & Eb & Ef & -> & -> & _).
    apply skipn_cons_next in Eb as [-> Hb]. apply skipn_cons_next in Ef as [-> Hf].
    repeat split; auto. rewrite length_app. cbn [length]. lia.
  - cbn [fst snd skipn length]. repeat split; auto; lia.
Qed.

Lemma forward_features_frames self (lqs d : tseq V) feats :
  outcome (forward_features self lqs d) = inr feats ->
  1 <= length (frames lqs).
Proof.
  intros H; unfold forward_features in H.
  bind_inv H sp Hsp. destruct sp as [spatial [h w]].
  apply spatial_features_length in Hsp.
  bind_inv H u Hu. bind_inv H fl Hfl. destruct fl as [ff fb].
  cbn [for_each] in H. bind_inv H f1 Hf1. clear H.
  unfold propagate_direction in Hf1. cbn -[propagate] in Hf1.
  apply propagate_spec in Hf1 as (l & _ & _ & (s & y & Hs & Hin) & _); [| reflexivity].
  cbn in Hs. injection Hs as <-. rewrite <- Hsp.
  destruct spatial; [contradiction | cbn; lia].
Qed.

(** C7: when the propagation in both directions is over, the dictionary
    holds the spatial features and one list per direction, each of as many
    features as the input has frames.  Every run of the loop of
    [upsample] over the frames that returns has produced one output per
    frame and left both lists empty, and so has every run of [upsample]
    that returns.  [upsample] does return, with both lists empty and one
    output frame per input frame, when the features have the size of the
    clip with [mid_channels] channels, the clip has 3 channels, the
    reconstruction blocks return on the size they are built for and a
    device is there if the cache is active. *)
Theorem feature_lists_are_drained self (lqs d : tseq V) feats :
  outcome (downsample self lqs) = inr d ->
  outcome (forward_features self lqs d) = inr feats ->
  exists spatial lb lf,
    let drained := [("spatial", spatial); ("backward_1", []); ("forward_1", [])] in
    feats = [("spatial", spatial); ("backward_1", lb); ("forward_1", lf)] /\
    length lb = length (frames lqs) /\
    length lf = length (frames lqs) /\
    (forall outputs feats',
       outcome (for_each (range (length (frames lqs)))
                  (upsample_step self lqs
                     (range (length spatial) ++ rev (range (length spatial))))
                  ([], feats))
       = inr (outputs, feats') ->
       feats' = drained /\ length outputs = length (frames lqs)) /\
    (forall out feats',
       outcome (upsample self lqs feats) = inr (out, feats') -> feats' = drained) /\
    (ext_respects_shapes -> reconstruction_returns self -> device_ready self ->
     is_low_res_input self = true ->
     chans lqs = 3 -> 1 <= height lqs -> 1 <= width lqs ->
     Forall (feature_of self lqs) (spatial ++ lb ++ lf) ->
     exists out,
       outcome (upsample self lqs feats) = inr (out, drained) /\
       length (frames out) = length (frames lqs)).
Proof.
  intros Hd H.
  apply downsample_spec in Hd as (Hlen & _ & _).
  pose proof H as Ht; apply forward_features_frames in Ht.
  apply forward_features_spec in H as (spatial & lb & lf & -> & Hs & Hlb & Hlf & _);
    [| exact Hlen].
  exists spatial, lb, lf. cbv zeta. repeat split; auto.
  - apply upsample_loop_drains in H as (_ & _ & -> & _).
    rewrite <- Hlb at 1. rewrite <- Hlf. now rewrite !skipn_all.
  - now apply upsample_loop_drains in H as (_ & _ & _ & ->).
  - intros out feats' Hu. now apply upsample_spec in Hu as [-> _].
  - intros Hext Hrec Hdev Hlow Hc Hh Hw Hall.
    apply Forall_app in Hall as [Fs Hall]. apply Forall_app in Hall as [Fb Ff].
    now apply upsample_returns.
Qed.

End Properties.

(** ** The sampling offsets *)

Section Offsets.

Import Channels.

Local Open Scope R_scope.



Local Close Scope R_scope.

Lemma chunk_sizes_3 n : chunk_sizes (3 * n) 3 = [n; n; n].
Proof.
  unfold chunk_sizes.
  assert (E : (3 * n + 3 - 1) / 3 = n).
  { symmetry; apply Nat.div_unique with (r := 2); lia. }
  rewrite E. destruct (Nat.eqb_spec n 0) as [-> | Hn]; [reflexivity |].
  rewrite Nat.div_mul by exact Hn. rewrite Nat.Div0.mod_mul. reflexivity.
Qed.

Lemma chunk_sizes_2 n : chunk_sizes (2 * n) 2 = [n; n].
Proof.
  unfold chunk_sizes.
  assert (E : (2 * n + 2 - 1) / 2 = n).
  { symmetry; apply Nat.div_unique with (r := 1); lia. }
  rewrite E. destruct (Nat.eqb_spec n 0) as [-> | Hn]; [reflexivity |].
  rewrite Nat.div_mul by exact Hn. rewrite Nat.Div0.mod_mul. reflexivity.
Qed.


Lemma length_repeat_pair (x : vec) (m : nat) :
  length x = 2 -> length (repeat_channels x m) = 2 * m.
Proof.
  intros Hx; unfold repeat_channels; induction m as [| m IH]; [reflexivity |].
  cbn [repeat concat]. rewrite length_app, IH, Hx. lia.
Qed.





(** ** The offsets of a freshly built alignment module *)

Lemma tanh_zero : tanh 0 = 0%R.
Proof. unfold tanh. rewrite sinh_0, cosh_0. lra. Qed.

Lemma firstn_repeat_add (x : R) (n m : nat) :
  firstn n (repeat x (n + m)) = repeat x n.
Proof.
  rewrite repeat_app, firstn_app, repeat_length, Nat.sub_diag, firstn_O, app_nil_r.
  apply firstn_all2. rewrite repeat_length. lia.
Qed.

Lemma skipn_repeat_add (x : R) (n m : nat) :
  skipn n (repeat x (n + m)) = repeat x m.
Proof.
  rewrite repeat_app, skipn_app, repeat_length, Nat.sub_diag, skipn_O.
  rewrite skipn_all2 by (rewrite repeat_length; lia). reflexivity.
Qed.

Lemma add_zeros (b : vec) : add (repeat 0%R (length b)) b = Some b.
Proof.
  assert (E : map (fun p : R * R => (fst p + snd p)%R)
                (combine (repeat 0%R (length b)) b) = b).
  { induction b as [| v b IH]; [reflexivity |].
    cbn [length repeat combine map fst snd]. rewrite IH. f_equal. lra. }
  unfold add. now rewrite repeat_length, Nat.eqb_refl, E.
Qed.

(** X19: when the last layer of [conv_offset] outputs zeros, which is
    the state [init_offset] puts it in by setting its weight and bias to
    0, the offsets handed to the deformable convolution are the two flows
    alone, each with its two channels swapped and repeated [9 G // 2]
    times, whatever the maximum residue magnitude. *)
Theorem zero_residuals_give_the_flows (M : Z) (G : nat) (flow_1 flow_2 : vec) :
  Nat.even G = true ->
  length flow_1 = 2 ->
  length flow_2 = 2 ->
  offsets M (repeat 0%R (27 * G)) flow_1 flow_2
  = Some (repeat_channels (flip flow_1) (9 * G / 2)
          ++ repeat_channels (flip flow_2) (9 * G / 2)).
Proof.
  intros HG H1 H2. apply Nat.even_spec in HG as [g ->].
  set (n := 9 * (2 * g)).
  assert (Hn2 : n / 2 = 9 * g).
  { unfold n. replace (9 * (2 * g)) with (9 * g * 2) by lia. apply Nat.div_mul; lia. }
  replace (27 * (2 * g)) with (n + (n + n)) by (unfold n; lia).
  unfold offsets, chunk. rewrite repeat_length.
  replace (n + (n + n)) with (3 * n) at 1 by lia.
  rewrite chunk_sizes_3. cbn [split_sizes cat concat].
  rewrite firstn_repeat_add, skipn_repeat_add, firstn_repeat_add, app_nil_r.
  rewrite <- repeat_app.
  assert (Hz : scaled_tanh M (repeat 0%R (n + n)) = repeat 0%R (n + n)).
  { unfold scaled_tanh. induction (n + n) as [| k IH]; [reflexivity |].
    cbn [repeat map]. rewrite IH, tanh_zero. f_equal. lra. }
  rewrite Hz, repeat_length.
  replace (n + n) with (2 * n) at 1 by lia.
  rewrite chunk_sizes_2. cbn [split_sizes].
  rewrite firstn_repeat_add, skipn_repeat_add.
  replace (n + 0) with n by lia. rewrite (firstn_all2 (n := n)) by (rewrite repeat_length; lia).
  rewrite repeat_length, Hn2.
  assert (L1 : length (repeat_channels (flip flow_1) (9 * g)) = n).
  { rewrite length_repeat_pair; [unfold n; lia | unfold flip; now rewrite length_rev]. }
  assert (L2 : length (repeat_channels (flip flow_2) (9 * g)) = n).
  { rewrite length_repeat_pair; [unfold n; lia | unfold flip; now rewrite length_rev]. }
  rewrite <- L1 at 1. rewrite add_zeros. rewrite <- L2 at 1. rewrite add_zeros.
  cbn [concat]. now rewrite app_nil_r.
Qed.

End Offsets.

(** * The reference runtime: evaluations *)

Section Evaluation.

Import Reference.

Lemma instance_is_built (cuda : bool) (cache_length : Z) :
  MFRSR_init (R := runtime cuda) (args cache_length)
  = (if cuda then [] else
       [EvWarning "Deformable alignment module is not added. Probably your CUDA is not configured correctly. DCN can only be used with CUDA enabled. Alignment is skipped now."],
     inr (instance cuda cache_length)).
Proof. destruct cuda; reflexivity. Qed.

Lemma forallb_shape_eqb s rest :
  forallb (shape_eqb s) rest = true -> Forall (eq s) rest.
Proof.
  induction rest as [| x rest IH]; simpl; [constructor |].
  intros H; apply andb_true_iff in H as [Hx Hr].
  constructor; [now apply shape_eqb_eq | auto].
Qed.

Lemma shape_eqb_true a b : shape_eqb a b = true -> a = b.
Proof. unfold shape_eqb; destruct (list_eq_dec Nat.eq_dec a b); congruence. Qed.

Lemma reference_respects_shapes (cuda : bool) :
  ext_respects_shapes (R := runtime cuda).
Proof.
  intros f xs r H; cbn [ext runtime] in H; unfold ref_ext in H.
  destruct (ext_shape f (map shape_of xs)) as [s |] eqn:Hs; [| discriminate].
  injection H as <-; cbn [shape_of].
  generalize dependent (map shape_of xs); intros l Hs.
  destruct f; cbn [ext_shape ext_shape_ok] in *;
    repeat match type of Hs with
    | match ?x with _ => _ end = Some _ => destruct x eqn:?; try discriminate
    end;
    injection Hs as <-;
    repeat match goal with
    | E : (_ && _) = true |- _ => apply andb_true_iff in E as [? ?]
    | E : (_ =? _) = true |- _ => apply Nat.eqb_eq in E
    | E : shape_eqb _ _ = true |- _ => apply shape_eqb_true in E
    | E : forallb _ _ = true |- _ => apply forallb_shape_eqb in E
    end; subst; eauto 6.
Qed.

(** C1: the memory policy changes the outcome.  For two frames of 64 by
    64 pixels the call returns a sequence of size (1, 2, 3, 256, 256) when
    the threshold is the default 100, and raises in [torch.stack] of the
    first propagation step when the threshold is 1, because every spatial
    feature of the cached branch is the feature of the whole flattened
    sequence (batch 2) while the propagated state has batch 1. *)
Theorem spill_branch_changes_the_outcome :
  let lqs := clip 64 64 [1; 2]%Z in
  (outcome (snd (forward (R := runtime true) (instance true 100) lqs))
   = inr (output true (instance true 100) lqs) /\
   size5 (output true (instance true 100) lqs) = [1; 2; 3; 256; 256]) /\
  cpu_cache (fst (forward (R := runtime true) (instance true 1) lqs)) = Some true /\
  outcome (snd (forward (R := runtime true) (instance true 1) lqs))
  = inl (RuntimeError "stack expects each tensor to be equal size") /\
  map shape_of (fst (spatial true (set_cpu_cache (instance true 1) true) lqs))
  = [[2; 64; 64; 64]; [2; 64; 64; 64]] /\
  map shape_of (fst (spatial true (set_cpu_cache (instance true 100) false) lqs))
  = [[1; 64; 64; 64]; [1; 64; 64; 64]].
Proof. vm_compute. repeat split; reflexivity. Qed.

(** The claim C2 as it is stated fails on values that are not finite:
    two equal frames of infinite values are a mirror-extended sequence,
    but the difference of the halves is not a number, the test
    [torch.norm(...) == 0] fails, the flag stays unset and the flow
    estimator is called twice. *)
Lemma infinite_mirror_input_is_not_detected :
  let lqs := Ieee.clip 64 64 [Ieee.PosInf; Ieee.PosInf] in
  mirror_extended lqs /\
  is_mirror_extended
    (check_if_mirror_extended (R := Ieee.runtime true) (instance true 100) lqs) = false /\
  is_mirror_extended (fst (forward (R := Ieee.runtime true) (instance true 100) lqs))
  = false /\
  spynet_calls (trace (snd (forward (R := Ieee.runtime true) (instance true 100) lqs))) = 2.
Proof. vm_compute. repeat split; reflexivity. Qed.

(** The claim C6 as it is stated fails on inputs that do not reach the
    assertion: a clip of 63 by 63 pixels without frames raises in
    [feats_.view(n, t, -1, h, w)], and a clip of 8 by 8 pixels with one
    channel raises in the first block of the feature extraction. *)
Lemma small_clips_can_fail_before_the_assertion :
  height (clip 63 63 []) < 64 /\
  outcome (snd (forward (R := runtime true) (instance true 100) (clip 63 63 [])))
  = inl (RuntimeError "view") /\
  height (mkSeq 1 1 8 8 [1; 2]%Z) < 64 /\
  outcome (snd (forward (R := runtime true) (instance true 100) (mkSeq 1 1 8 8 [1; 2]%Z)))
  = inl (RuntimeError "vendored operator").
Proof.
  split; [vm_compute; lia |]. split; [vm_compute; reflexivity |].
  split; [vm_compute; lia |]. vm_compute; reflexivity.
Qed.

(** ** Instances of the theorems *)

Lemma high_res_construction_fails_witness :
  arg_is_low_res_input high_res_args = false /\
  outcome (MFRSR_init (R := runtime true) high_res_args)
  = inl (NameError "MultiScaleAttention").
Proof.
  split; [reflexivity |].
  apply (@high_res_construction_fails Z (runtime true) high_res_args);
    reflexivity.
Defined.

Lemma alignment_only_after_first_step_witness :
  is_with_alignment (instance false 100) = false /\
  align_stage (R := runtime false) (instance false 100) [] (clip 64 64 [1; 2]%Z)
    "forward_1" [] 1 (new_zeros (R := runtime false) [1; 64; 64; 64])
    (new_zeros (R := runtime false) [1; 64; 64; 64])
  = ret (new_zeros (R := runtime false) [1; 64; 64; 64]).
Proof.
  split; [reflexivity |].
  apply (@alignment_only_after_first_step Z (runtime false) (instance false 100) []
           (clip 64 64 [1; 2]%Z) "forward_1").
  reflexivity.
Defined.

Lemma mirror_extended_input_reuses_backward_flow_witness :
  let lqs := Ieee.clip 64 64 [Ieee.Finite 1; Ieee.Finite 2; Ieee.Finite 2; Ieee.Finite 1] in
  is_low_res_input (instance false 100) = true /\
  mirror_extended lqs /\
  cancels (R := Ieee.runtime false) (fst (chunk2_t lqs)) /\
  is_mirror_extended (fst (forward (R := Ieee.runtime false) (instance false 100) lqs))
  = true.
Proof.
  intros lqs.
  split; [reflexivity |]. split; [split; reflexivity |]. split; [reflexivity |].
  apply (@mirror_extended_input_reuses_backward_flow Ieee.value (Ieee.runtime false)
           (instance false 100) lqs);
    [reflexivity | split; reflexivity | reflexivity].
Defined.

Lemma mirror_flag_is_never_reset_witness :
  is_mirror_extended (set_is_mirror_extended (instance false 100) true) = true /\
  is_mirror_extended
    (fst (forward (R := runtime false)
            (after_calls (R := runtime false)
               (set_is_mirror_extended (instance false 100) true)
               [clip 64 64 [1; 2; 3]%Z])
            (clip 64 64 [4; 5]%Z)))
  = true.
Proof.
  split; [reflexivity |].
  apply (@mirror_flag_is_never_reset Z (runtime false)
           (set_is_mirror_extended (instance false 100) true)
           [clip 64 64 [1; 2; 3]%Z] (clip 64 64 [4; 5]%Z)).
  reflexivity.
Defined.

Lemma small_inputs_fail_the_size_assertion_witness :
  height (clip 63 64 [1; 2]%Z) < 64 /\
  outcome (snd (forward (R := runtime false) (instance false 100) (clip 63 64 [1; 2]%Z)))
  = inl (AssertionError
           "The height and width of low-res inputs must be at least 64, but got 63 and 64.").
Proof.
  split; [vm_compute; lia |].
  pose (lqs := clip 63 64 [1; 2]%Z).
  pose (self1 := check_if_mirror_extended (R := runtime false)
                   (set_cpu_cache (instance false 100) false) lqs).
  apply (@small_inputs_fail_the_size_assertion Z (runtime false) (instance false 100)
           lqs lqs (fst (spatial false self1 lqs))
           (fst (snd (spatial false self1 lqs))) (snd (snd (spatial false self1 lqs)))).
  - reflexivity.
  - vm_compute; reflexivity.
  - left; vm_compute; lia.
Defined.

Lemma reference_reconstruction_returns (cuda : bool) (self : MFRSR) :
  reconstruction_returns (R := runtime cuda) self.
Proof.
  intros x n h w Hx. cbn [ext runtime]. unfold ref_ext. cbn [map ext_shape].
  rewrite Hx, Nat.eqb_refl. eauto.
Qed.

Lemma feature_lists_are_drained_witness :
  let lqs := clip 64 64 [1; 2]%Z in
  let self := set_cpu_cache (instance false 100) false in
  exists spatial lb lf out,
    propagated false self lqs
    = [("spatial", spatial); ("backward_1", lb); ("forward_1", lf)] /\
    length lb = 2 /\ length lf = 2 /\
    outcome (upsample (R := runtime false) self lqs (propagated false self lqs))
    = inr (out, [("spatial", spatial); ("backward_1", []); ("forward_1", [])]) /\
    length (frames out) = 2.
Proof.
  intros lqs self.
  destruct (@feature_lists_are_drained Z (runtime false) self lqs lqs
              (propagated false self lqs))
    as (spatial & lb & lf & H1 & H2 & H3 & _ & _ & Hret).
  - reflexivity.
  - vm_compute; reflexivity.
  - destruct Hret as (out & Hout & Hlen).
    + apply reference_respects_shapes.
    + apply reference_reconstruction_returns.
    + exists false. split; [reflexivity | discriminate].
    + reflexivity.
    + reflexivity.
    + cbn; lia.
    + cbn; lia.
    + vm_compute in H1. injection H1 as <- <- <-.
      unfold feature_of. repeat constructor.
    + exists spatial, lb, lf, out. auto.
Defined.

Lemma output_is_four_times_larger_witness :
  size5 (output true (instance true 100) (clip 64 64 [1; 2; 3]%Z)) = [1; 3; 3; 256; 256].
Proof.
  apply (@output_is_four_times_larger Z (runtime true) (instance true 100)
           (clip 64 64 [1; 2; 3]%Z)).
  - apply reference_respects_shapes.
  - reflexivity.
  - vm_compute; reflexivity.
Defined.


End Evaluation.

(** * The alignment module and the attention blocks *)

Section Modules.

Context {V : Type} {R : Runtime V}.

Tactic Notation "bind_inv" hyp(H) ident(x) ident(Hx) :=
  apply outcome_bind_inr in H; destruct H as (x & Hx & H); cbv beta in H.

(** ** Sizes through the alignment module *)

Lemma cat1_shape_two s1 s2 r :
  cat1_shape [s1; s2] = Some r ->
  exists n c1 c2 h w,
    s1 = [n; c1; h; w] /\ s2 = [n; c2; h; w] /\ r = [n; c1 + c2; h; w].
Proof.
  destruct s1 as [| n [| c1 [| h [| w [| ? ?]]]]]; try discriminate.
  destruct s2 as [| n' [| c2 [| h' [| w' [| ? ?]]]]]; try discriminate.
  cbn. destruct (Nat.eqb_spec n n'), (Nat.eqb_spec h h'), (Nat.eqb_spec w w');
    try discriminate.
  intros [= <-]; subst. exists n', c1, c2, h', w'. auto.
Qed.

Lemma cat1_shape_three s1 s2 s3 r :
  cat1_shape [s1; s2; s3] = Some r ->
  exists n c1 c2 c3 h w,
    s1 = [n; c1; h; w] /\ s2 = [n; c2; h; w] /\ s3 = [n; c3; h; w] /\
    r = [n; c1 + (c2 + c3); h; w].
Proof.
  intros H. change (cat1_shape [s1; s2; s3]) with
    (match s1 with
     | [n; c; h; w] =>
         match cat1_shape [s2; s3] with
         | Some [n'; c'; h'; w'] =>
             if (n =? n') && (h =? h') && (w =? w') then Some [n; c + c'; h; w] else None
         | _ => None
         end
     | _ => None
     end) in H.
  destruct s1 as [| n [| c1 [| h [| w [| ? ?]]]]]; try discriminate.
  destruct (cat1_shape [s2; s3]) as [r' |] eqn:E; [| discriminate].
  apply cat1_shape_two in E as (n' & c2 & c3 & h' & w' & -> & -> & ->).
  destruct (Nat.eqb_spec n n'), (Nat.eqb_spec h h'), (Nat.eqb_spec w w');
    try discriminate.
  injection H as <-; subst. exists n', c1, c2, c3, h', w'. auto.
Qed.

Lemma outcome_chunk1 (x : tensor V) k l :
  outcome (chunk1 x k) = inr l ->
  exists n c h w,
    shape_of x = [n; c; h; w] /\
    map shape_of l = map (fun ci => [n; ci; h; w]) (chunk_sizes c k).
Proof.
  unfold chunk1.
  destruct (shape_of x) as [| n [| c [| h [| w [| ? ?]]]]]; try discriminate.
  intros H; apply outcome_ret in H; subst l.
  exists n, c, h, w. split; [reflexivity |].
  unfold enumerate. generalize 0. induction (chunk_sizes c k) as [| ci cs IH]; intros i.
  - reflexivity.
  - cbn. f_equal. apply IH.
Qed.

Lemma conv_offset_shape a (x r : tensor V) :
  outcome (conv_offset a x) = inr r ->
  exists n h w,
    shape_of x = [n; 3 * out_channels a + 4; h; w] /\
    shape_of r = [n; 27 * deformable_groups a; h; w].
Proof.
  intros H; unfold conv_offset in H.
  bind_inv H y1 H1. bind_inv H y2 H2. bind_inv H y3 H3.
  apply outcome_conv2d_same in H1 as (n & h & w & E1 & F1).
  apply outcome_conv2d_same in H2 as (n2 & h2 & w2 & E2 & F2).
  apply outcome_conv2d_same in H3 as (n3 & h3 & w3 & E3 & F3).
  apply outcome_conv2d_same in H as (n4 & h4 & w4 & E4 & F4).
  cbn in E2, E3, E4.
  exists n, h, w. split; [exact E1 |]. congruence.
Qed.

Lemma broadcast_rev_cons x y a b r :
  broadcast_rev (x :: a) (y :: b) = Some r ->
  exists r0 r',
    r = r0 :: r' /\ broadcast_rev a b = Some r' /\
    (x = y /\ r0 = x \/ x = 1 /\ r0 = y \/ y = 1 /\ r0 = x).
Proof.
  cbn [broadcast_rev]. destruct (broadcast_rev a b) as [r' |]; [| discriminate].
  destruct (Nat.eqb_spec x y); [intros [= <-]; eauto 8 |].
  destruct (Nat.eqb_spec x 1); [intros [= <-]; eauto 8 |].
  destruct (Nat.eqb_spec y 1); [intros [= <-]; eauto 8 | discriminate].
Qed.

Lemma broadcast4 a1 a2 a3 a4 b1 b2 b3 b4 r :
  broadcast [a1; a2; a3; a4] [b1; b2; b3; b4] = Some r ->
  exists r1 r2 r3 r4,
    r = [r1; r2; r3; r4] /\
    (a1 = b1 /\ r1 = a1 \/ a1 = 1 /\ r1 = b1 \/ b1 = 1 /\ r1 = a1) /\
    (a2 = b2 /\ r2 = a2 \/ a2 = 1 /\ r2 = b2 \/ b2 = 1 /\ r2 = a2) /\
    (a3 = b3 /\ r3 = a3 \/ a3 = 1 /\ r3 = b3 \/ b3 = 1 /\ r3 = a3) /\
    (a4 = b4 /\ r4 = a4 \/ a4 = 1 /\ r4 = b4 \/ b4 = 1 /\ r4 = a4).
Proof.
  unfold broadcast; cbn [rev app].
  destruct (broadcast_rev [a4; a3; a2; a1] [b4; b3; b2; b1]) as [s |] eqn:E;
    [| discriminate].
  cbn [option_map]. intros [= <-].
  apply broadcast_rev_cons in E as (r4 & s4 & -> & E & H4).
  apply broadcast_rev_cons in E as (r3 & s3 & -> & E & H3).
  apply broadcast_rev_cons in E as (r2 & s2 & -> & E & H2).
  apply broadcast_rev_cons in E as (r1 & s1 & -> & E & H1).
  cbn in E. injection E as <-.
  exists r1, r2, r3, r4. cbn. auto.
Qed.

Lemma three_of_map {A B : Type} (f : A -> B) (l : list A) b1 b2 b3 :
  map f l = [b1; b2; b3] ->
  exists a1 a2 a3, l = [a1; a2; a3] /\ f a1 = b1 /\ f a2 = b2 /\ f a3 = b3.
Proof.
  destruct l as [| a1 [| a2 [| a3 [| ? ?]]]]; try discriminate.
  intros [= <- <- <-]. eauto 7.
Qed.

Lemma two_of_map {A B : Type} (f : A -> B) (l : list A) b1 b2 :
  map f l = [b1; b2] ->
  exists a1 a2, l = [a1; a2] /\ f a1 = b1 /\ f a2 = b2.
Proof.
  destruct l as [| a1 [| a2 [| ? ?]]]; try discriminate.
  intros [= <- <-]. eauto 6.
Qed.

(** The sizes along a run of [SecondOrderDeformableAlignment.forward]
    that returns, with [G] the number of deformable groups: the three
    inputs but [x] agree in batch and spatial size and have [3 c + 4]
    channels together, each flow repeated [9 G // 2] times broadcasts
    against the [9 G] channels of its half of the offsets, and the
    deformable convolution takes offsets of [18 G] channels and a mask of
    [9 G]. *)
Lemma alignment_forward_shapes a (x extra flow_1 flow_2 r : tensor V) :
  outcome (SecondOrderDeformableAlignment_forward a x extra flow_1 flow_2) = inr r ->
  let G := deformable_groups a in
  exists n h w ce c1 c2,
    shape_of extra = [n; ce; h; w] /\
    shape_of flow_1 = [n; c1; h; w] /\
    shape_of flow_2 = [n; c2; h; w] /\
    ce + (c1 + c2) = 3 * out_channels a + 4 /\
    (c1 * (9 * G / 2) = 9 * G \/ c1 * (9 * G / 2) = 1) /\
    (c2 * (9 * G / 2) = 9 * G \/ c2 * (9 * G / 2) = 1) /\
    deform_conv2d_shape (in_channels a) (out_channels a) (kernel_size a)
      (stride a) (padding a) (dilation a)
      (shape_of x) [n; 18 * G; h; w] [n; 9 * G; h; w]
    = Some (shape_of r).
Proof.
  intros H G; unfold SecondOrderDeformableAlignment_forward in H.
  bind_inv H ef Hef. bind_inv H out Hout. bind_inv H chunks Hchunks.
  apply outcome_prim in Hef. cbn [map] in Hef.
  apply cat1_shape_three in Hef as (n & ce & c1 & c2 & h & w & Ee & E1 & E2 & Eef).
  apply conv_offset_shape in Hout as (n' & h' & w' & Eef' & Eout).
  rewrite Eef in Eef'.
  assert (Hn : n' = n /\ h' = h /\ w' = w /\ ce + (c1 + c2) = 3 * out_channels a + 4)
    by (injection Eef'; intros; repeat split; lia).
  destruct Hn as (-> & -> & -> & Hch). clear Eef'.
  apply outcome_chunk1 in Hchunks as (n0 & c0 & h0 & w0 & Eout' & Hmap).
  rewrite Eout in Eout'.
  assert (Hn : n0 = n /\ h0 = h /\ w0 = w /\ c0 = 3 * (9 * G))
    by (injection Eout'; intros; subst G; repeat split; lia).
  destruct Hn as (-> & -> & -> & ->). clear Eout'.
  rewrite chunk_sizes_3 in Hmap. cbn [map] in Hmap.
  apply three_of_map in Hmap as (o1 & o2 & mask & -> & Eo1 & Eo2 & Emask).
  bind_inv H o12 Ho12. bind_inv H halves Hhalves.
  apply outcome_prim in Ho12. cbn [map] in Ho12. rewrite Eo1, Eo2 in Ho12.
  apply cat1_shape_two in Ho12 as (n1 & d1 & d2 & h1 & w1 & Ea & Eb & Eo12).
  assert (Hn : n1 = n /\ h1 = h /\ w1 = w /\ d1 + d2 = 2 * (9 * G))
    by (injection Ea; injection Eb; intros; repeat split; lia).
  destruct Hn as (-> & -> & -> & Hd). rewrite Hd in Eo12. clear Ea Eb Hd.
  apply outcome_chunk1 in Hhalves as (n0 & c0 & h0 & w0 & Eoff & Hmap).
  unfold pointwise in Eoff; cbn [shape_of] in Eoff. rewrite Eo12 in Eoff.
  assert (Hn : n0 = n /\ h0 = h /\ w0 = w /\ c0 = 2 * (9 * G))
    by (injection Eoff; intros; repeat split; lia).
  destruct Hn as (-> & -> & -> & ->). clear Eoff.
  rewrite chunk_sizes_2 in Hmap. cbn [map] in Hmap.
  apply two_of_map in Hmap as (offset_1 & offset_2 & -> & Ef1 & Ef2).
  bind_inv H s1 Hs1. bind_inv H r1 Hr1. bind_inv H off1 Hoff1.
  bind_inv H s2 Hs2. bind_inv H r2 Hr2. bind_inv H off2 Hoff2.
  bind_inv H offset Hoffset.
  apply outcome_lift_opt in Hs1. rewrite Ef1 in Hs1. cbn [nth_error] in Hs1.
  assert (Es1 : s1 = 9 * G) by congruence. subst s1. clear Hs1.
  apply outcome_lift_opt in Hs2. rewrite Ef2 in Hs2. cbn [nth_error] in Hs2.
  assert (Es2 : s2 = 9 * G) by congruence. subst s2. clear Hs2.
  apply outcome_prim in Hr1. unfold flip_channels, pointwise in Hr1.
  cbn [shape_of] in Hr1. rewrite E1 in Hr1.
  assert (Er1 : shape_of r1 = [n; c1 * (9 * G / 2); h; w]) by congruence. clear Hr1.
  apply outcome_prim in Hr2. unfold flip_channels, pointwise in Hr2.
  cbn [shape_of] in Hr2. rewrite E2 in Hr2.
  assert (Er2 : shape_of r2 = [n; c2 * (9 * G / 2); h; w]) by congruence. clear Hr2.
  apply outcome_prim in Hoff1. rewrite Ef1, Er1 in Hoff1.
  apply broadcast4 in Hoff1 as (a1 & a2 & a3 & a4 & Eoff1 & B1 & B2 & B3 & B4).
  apply outcome_prim in Hoff2. rewrite Ef2, Er2 in Hoff2.
  apply broadcast4 in Hoff2 as (b1 & b2 & b3 & b4 & Eoff2 & B1' & B2' & B3' & B4').
  assert (Ha : a1 = n /\ a2 = 9 * G /\ a3 = h /\ a4 = w) by lia.
  assert (Hb : b1 = n /\ b2 = 9 * G /\ b3 = h /\ b4 = w) by lia.
  destruct Ha as (-> & -> & -> & ->). destruct Hb as (-> & -> & -> & ->).
  apply outcome_prim in Hoffset. cbn [map] in Hoffset.
  rewrite Eoff1, Eoff2 in Hoffset.
  apply cat1_shape_two in Hoffset as (n1 & e1 & e2 & h1 & w1 & Ea & Eb & Eoffset).
  assert (Hn : n1 = n /\ h1 = h /\ w1 = w /\ e1 + e2 = 18 * G)
    by (injection Ea; injection Eb; intros; repeat split; lia).
  destruct Hn as (-> & -> & -> & Hd). rewrite Hd in Eoffset. clear Ea Eb Hd.
  apply outcome_prim in H. rewrite Eoffset in H.
  unfold sigmoid, pointwise in H; cbn [shape_of] in H. rewrite Emask in H.
  exists n, h, w, ce, c1, c2.
  repeat split; auto; lia.
Qed.

(** X14: for an alignment module as [MFRSR] builds it (kernel 3, stride,
    padding and dilation 1), an output of [forward] has the batch and
    spatial size of [x] and [out_channels] channels; the other three
    inputs then have that batch and spatial size too, and [3 c + 4]
    channels together, [c] being [out_channels]. *)
Theorem alignment_keeps_the_spatial_size a (x extra flow_1 flow_2 r : tensor V) b c h w :
  kernel_size a = 3 -> stride a = 1 -> padding a = 1 -> dilation a = 1 ->
  shape_of x = [b; c; h; w] ->
  outcome (SecondOrderDeformableAlignment_forward a x extra flow_1 flow_2) = inr r ->
  shape_of r = [b; out_channels a; h; w] /\
  exists ce c1 c2,
    shape_of extra = [b; ce; h; w] /\
    shape_of flow_1 = [b; c1; h; w] /\
    shape_of flow_2 = [b; c2; h; w] /\
    ce + c1 + c2 = 3 * out_channels a + 4.
Proof.
  intros Hk Hs Hp Hd Hx H.
  apply alignment_forward_shapes in H
    as (n & h' & w' & ce & c1 & c2 & Ee & E1 & E2 & Hc & _ & _ & Hconv).
  rewrite Hk, Hs, Hp, Hd, Hx in Hconv. unfold deform_conv2d_shape in Hconv.
  match type of Hconv with
  | (if ?cond then _ else _) = _ => destruct cond eqn:Hcond; [| discriminate]
  end.
  match type of Hconv with
  | (if ?cond then _ else _) = _ => destruct cond eqn:Hcond2; [| discriminate]
  end.
  repeat (apply andb_prop in Hcond as [Hcond ?]).
  repeat (apply andb_prop in Hcond2 as [Hcond2 ?]).
  repeat match goal with
         | Hb : (_ <=? _) = true |- _ => apply Nat.leb_le in Hb
         | Hb : (_ =? _) = true |- _ => apply Nat.eqb_eq in Hb
         end.
  assert (Eh : (h + 2 * 1 - (1 * (3 - 1) + 1)) / 1 + 1 = h).
  { rewrite Nat.div_1_r. cbn in *. lia. }
  assert (Ew : (w + 2 * 1 - (1 * (3 - 1) + 1)) / 1 + 1 = w).
  { rewrite Nat.div_1_r. cbn in *. lia. }
  rewrite Eh, Ew in *. subst n h' w'.
  split; [congruence |].
  exists ce, c1, c2. repeat split; auto. lia.
Qed.

(** X15: with an odd number of deformable groups and flows of two
    channels, [forward] of the alignment module never returns: a flow
    repeated [9 G // 2] times has [9 G - 1] channels, which do not
    broadcast against the [9 G] channels of the offsets. *)
Theorem odd_groups_never_align a (x extra flow_1 flow_2 r : tensor V) n h w :
  Nat.odd (deformable_groups a) = true ->
  shape_of flow_1 = [n; 2; h; w] ->
  outcome (SecondOrderDeformableAlignment_forward a x extra flow_1 flow_2) <> inr r.
Proof.
  intros Hodd Hf H.
  apply alignment_forward_shapes in H
    as (n' & h' & w' & ce & c1 & c2 & _ & E1 & _ & _ & Hb & _).
  rewrite Hf in E1. injection E1 as <- <- <- <-.
  apply Nat.odd_spec in Hodd as [m Hm]. rewrite Hm in Hb.
  replace (9 * (2 * m + 1)) with (1 + (9 * m + 4) * 2) in Hb by lia.
  rewrite Nat.div_add in Hb by lia. cbn [Nat.div] in Hb.
  change (1 / 2) with 0 in Hb. lia.
Qed.

(** ** Sizes through the attention blocks *)

Lemma add_same_shape (a b r : tensor V) s :
  outcome (add a b) = inr r -> shape_of a = s -> shape_of b = s -> shape_of r = s.
Proof.
  intros H Ha Hb. apply outcome_prim in H. rewrite Ha, Hb, broadcast_same in H.
  now injection H.
Qed.

Lemma mul_same_shape (a b r : tensor V) s :
  outcome (mul a b) = inr r -> shape_of a = s -> shape_of b = s -> shape_of r = s.
Proof.
  intros H Ha Hb. apply outcome_prim in H. rewrite Ha, Hb, broadcast_same in H.
  now injection H.
Qed.

Lemma conv2d_same_padding layer c k pad (x r : tensor V) :
  k = 2 * pad + 1 ->
  outcome (conv2d layer c c k 1 pad x) = inr r ->
  shape_of r = shape_of x /\ exists n h w, shape_of x = [n; c; h; w].
Proof.
  intros Hk H. apply outcome_prim in H. unfold conv2d_shape, conv_out in H.
  destruct (shape_of x) as [| n [| c' [| h [| w [| ? ?]]]]]; try discriminate.
  destruct (Nat.eqb_spec c' c) as [-> | ]; [| discriminate].
  cbn [Nat.eqb orb] in H.
  destruct (Nat.ltb_spec (h + 2 * pad) k); [discriminate |].
  destruct (Nat.ltb_spec (w + 2 * pad) k); [discriminate |].
  assert (Eh : (h + 2 * pad - k) / 1 + 1 = h) by (rewrite Nat.div_1_r; lia).
  assert (Ew : (w + 2 * pad - k) / 1 + 1 = w) by (rewrite Nat.div_1_r; lia).
  rewrite Eh, Ew in H. split; [congruence | eauto].
Qed.

(** The part that the two blocks share: the attention over the sum of
    the three branches. *)
Lemma attention_keeps_shape layer c (msf att1 att2 att3 a12 a123 gated r : tensor V) :
  outcome (conv2d (layer ++ ".att_conv1") c c 1 1 0 msf) = inr att1 ->
  outcome (conv2d (layer ++ ".att_conv2") c c 3 1 1 msf) = inr att2 ->
  outcome (conv2d (layer ++ ".att_conv3") c c 5 1 2 msf) = inr att3 ->
  outcome (add att1 att2) = inr a12 ->
  outcome (add a12 att3) = inr a123 ->
  outcome (mul msf (sigmoid a123)) = inr gated ->
  outcome (add gated msf) = inr r ->
  shape_of r = shape_of msf /\ exists n h w, shape_of msf = [n; c; h; w].
Proof.
  intros H1 H2 H3 H12 H123 Hg Hr.
  apply conv2d_same_padding in H1 as [E1 Hx]; [| reflexivity].
  apply conv2d_same_padding in H2 as [E2 _]; [| reflexivity].
  apply conv2d_same_padding in H3 as [E3 _]; [| reflexivity].
  assert (E12 : shape_of a12 = shape_of msf).
  { eapply add_same_shape; [exact H12 | exact E1 | exact E2]. }
  assert (E123 : shape_of a123 = shape_of msf).
  { eapply add_same_shape; [exact H123 | exact E12 | exact E3]. }
  assert (Eg : shape_of gated = shape_of msf).
  { eapply mul_same_shape; [exact Hg | reflexivity | exact E123]. }
  split; [| exact Hx]. eapply add_same_shape; [exact Hr | exact Eg | reflexivity].
Qed.

Lemma small_kernel_keeps_size layer c (x r : tensor V) :
  deform_conv_keeps_size ->
  outcome (MultiScaleSmallKernelConvAndAttention_forward layer c x) = inr r ->
  shape_of r = shape_of x /\ exists n h w, shape_of x = [n; c; h; w].
Proof.
  intros Hk H; unfold MultiScaleSmallKernelConvAndAttention_forward in H.
  bind_inv H d1 H1. bind_inv H d2 H2. bind_inv H d3 H3.
  apply outcome_call, Hk in H1; [| reflexivity].
  apply outcome_call, Hk in H2; [| reflexivity].
  apply outcome_call, Hk in H3; [| reflexivity].
  bind_inv H s12 Hs12. bind_inv H msf Hmsf.
  assert (E12 : shape_of s12 = shape_of x).
  { eapply add_same_shape; [exact Hs12 | exact H1 | exact H2]. }
  assert (Em : shape_of msf = shape_of x).
  { eapply add_same_shape; [exact Hmsf | exact E12 | exact H3]. }
  bind_inv H att1 Ha1. bind_inv H att2 Ha2. bind_inv H att3 Ha3.
  bind_inv H a12 Ha12. bind_inv H a123 Ha123. bind_inv H gated Hg.
  assert (Hatt : shape_of r = shape_of msf /\ exists n h w, shape_of msf = [n; c; h; w])
    by (eapply attention_keeps_shape; eassumption).
  destruct Hatt as [E Hx]. rewrite Em in E, Hx. auto.
Qed.

Lemma large_kernel_shape layer c (x r : tensor V) :
  ext_respects_shapes ->
  outcome (MultiScaleLargeKernelConvAndAttention_forward layer c x) = inr r ->
  exists d3,
    ext (DeformConv2d (layer ++ ".deform_conv13x13") c c 13 6) [x] = Some d3 /\
    shape_of r = shape_of d3.
Proof.
  intros Hext H; unfold MultiScaleLargeKernelConvAndAttention_forward in H.
  bind_inv H d1 H1. bind_inv H d2 H2. bind_inv H d3 H3.
  apply outcome_call in H1, H2, H3. exists d3. split; [exact H3 |].
  apply Hext in H1, H2, H3. cbn [map ext_shape_ok] in H1, H2, H3.
  destruct (shape_of x) as [| n [| cx [| h [| w [| ? ?]]]]]; try contradiction.
  destruct H1 as (_ & h1 & w1 & E1). destruct H2 as (_ & h2 & w2 & E2).
  destruct H3 as (_ & h3 & w3 & E3).
  bind_inv H hw Hhw. destruct hw as [h3' w3'].
  unfold spatial_of, lrelu, pointwise in Hhw. cbn [shape_of] in Hhw.
  rewrite E3 in Hhw. apply outcome_ret in Hhw. injection Hhw as <- <-.
  bind_inv H x1 Hx1. bind_inv H x2 Hx2.
  apply outcome_prim in Hx1, Hx2. unfold lrelu, pointwise in Hx1, Hx2.
  cbn [shape_of] in Hx1, Hx2. rewrite E1 in Hx1. rewrite E2 in Hx2.
  unfold interpolate_shape in Hx1, Hx2.
  destruct (_ && _) in Hx1; [| discriminate]. destruct (_ && _) in Hx2; [| discriminate].
  injection Hx1 as Hx1. injection Hx2 as Hx2. symmetry in Hx1, Hx2.
  bind_inv H s12 Hs12. bind_inv H msf Hmsf.
  assert (E12 : shape_of s12 = [n; c; h3; w3]).
  { eapply add_same_shape; [exact Hs12 | exact Hx1 | exact Hx2]. }
  assert (Em : shape_of msf = [n; c; h3; w3]).
  { eapply add_same_shape; [exact Hmsf | exact E12 | exact E3]. }
  bind_inv H att1 Ha1. bind_inv H att2 Ha2. bind_inv H att3 Ha3.
  bind_inv H a12 Ha12. bind_inv H a123 Ha123. bind_inv H gated Hg.
  assert (Hatt : shape_of r = shape_of msf /\ exists n h w, shape_of msf = [n; c; h; w])
    by (eapply attention_keeps_shape; eassumption).
  destruct Hatt as [E _]. congruence.
Qed.

Lemma large_kernel_keeps_size layer c (x r : tensor V) :
  deform_conv_keeps_size ->
  ext_respects_shapes ->
  outcome (MultiScaleLargeKernelConvAndAttention_forward layer c x) = inr r ->
  shape_of r = shape_of x.
Proof.
  intros Hk Hext H. apply large_kernel_shape in H as (d3 & Hd3 & E); [| exact Hext].
  apply Hk in Hd3; [| reflexivity]. congruence.
Qed.

(** X16: when the deformable convolutions keep the size of their input,
    an output of either attention block has the size of the input of the
    block, which has as many channels as the block was built for. *)
Theorem attention_blocks_keep_the_size layer c (x r : tensor V) :
  deform_conv_keeps_size ->
  ext_respects_shapes ->
  outcome (MultiScaleSmallKernelConvAndAttention_forward layer c x) = inr r \/
  outcome (MultiScaleLargeKernelConvAndAttention_forward layer c x) = inr r ->
  shape_of r = shape_of x /\ exists n h w, shape_of x = [n; c; h; w].
Proof.
  intros Hk Hext [H | H].
  - eapply small_kernel_keeps_size; [exact Hk | exact H].
  - pose proof H as H'. apply large_kernel_shape in H as (d3 & Hd3 & E); [| exact Hext].
    pose proof Hd3 as Hs. apply Hk in Hs; [| reflexivity].
    apply Hext in Hd3. cbn [map ext_shape_ok] in Hd3.
    destruct (shape_of x) as [| n [| cx [| h [| w [| ? ?]]]]]; try contradiction.
    destruct Hd3 as (-> & _). split; [congruence | eauto].
Qed.

(** X17: whatever sizes the three deformable convolutions of the
    large-kernel block produce, the block resizes the first two branches
    to the third, and its output has the size of the output of the 13x13
    convolution. *)
Theorem large_kernel_follows_the_last_branch layer c (x r : tensor V) :
  ext_respects_shapes ->
  outcome (MultiScaleLargeKernelConvAndAttention_forward layer c x) = inr r ->
  exists d3 n h w,
    ext (DeformConv2d (layer ++ ".deform_conv13x13") c c 13 6) [x] = Some d3 /\
    shape_of d3 = [n; c; h; w] /\
    shape_of r = [n; c; h; w] /\
    hd_error (shape_of x) = Some n.
Proof.
  intros Hext H. apply large_kernel_shape in H as (d3 & Hd3 & E); [| exact Hext].
  pose proof Hd3 as Hs. apply Hext in Hs. cbn [map ext_shape_ok] in Hs.
  destruct (shape_of x) as [| n [| cx [| h [| w [| ? ?]]]]]; try contradiction.
  destruct Hs as (_ & h3 & w3 & E3).
  exists d3, n, h3, w3. repeat split; auto. congruence.
Qed.

(** ** Sizes through the feature extraction *)

Lemma flatten4_shape (lqs : tseq V) (x : tensor V) :
  outcome (flatten4 lqs (chans lqs) (height lqs) (width lqs)) = inr x ->
  shape_of x = [batch lqs * length (frames lqs); chans lqs; height lqs; width lqs].
Proof.
  unfold flatten4, infer_size.
  change [(-1)%Z; Z.of_nat (chans lqs); Z.of_nat (height lqs); Z.of_nat (width lqs)]
    with ((-1)%Z :: map Z.of_nat [chans lqs; height lqs; width lqs]).
  cbn [known_size count_occ]. rewrite known_size_nat, count_occ_nat.
  destruct (Z.eq_dec (-1) (-1)); [| contradiction].
  cbn [Z.eqb Pos.eqb fold_right]. cbn [map].
  set (p := chans lqs * (height lqs * (width lqs * 1))).
  set (N := numel (size5 lqs)).
  destruct (_ || _); [| discriminate].
  destruct (Nat.eqb_spec p 0) as [| Hp]; [discriminate |].
  cbn [outcome snd ret]. intros [= <-]. cbn [shape_of].
  assert (E : N / p = batch lqs * length (frames lqs)).
  { unfold N, numel, size5; cbn [fold_right]. fold p.
    rewrite Nat.mul_assoc. now apply Nat.div_mul. }
  rewrite E.
  destruct (Z.eqb_spec (Z.of_nat (chans lqs)) (-1)); [lia |].
  destruct (Z.eqb_spec (Z.of_nat (height lqs)) (-1)); [lia |].
  destruct (Z.eqb_spec (Z.of_nat (width lqs)) (-1)); [lia |].
  now rewrite !Nat2Z.id.
Qed.

(** X18: when the vendored operators produce the sizes they are
    documented to produce and the deformable convolutions keep the size of
    their input, the features that [forward] extracts from a clip of size
    (n, t, c, h, w) have size (n * t, mid_channels, h, w), and [c] is 3. *)
Theorem extracted_features_size self (lqs : tseq V) (r : tensor V) :
  ext_respects_shapes ->
  deform_conv_keeps_size ->
  outcome (extract self lqs) = inr r ->
  shape_of r
  = [batch lqs * length (frames lqs); mid_channels self; height lqs; width lqs] /\
  chans lqs = 3.
Proof.
  intros Hext Hk H; unfold extract in H.
  bind_inv H f1 H1. bind_inv H f2 H2.
  unfold feat_extract1 in H1. bind_inv H1 u1 Hu1. bind_inv H1 x1 Hx1. bind_inv H1 y1 Hy1.
  unfold feat_extract2 in H2. bind_inv H2 u2 Hu2. bind_inv H2 x2 Hx2. bind_inv H2 y2 Hy2.
  apply flatten4_shape in Hx1, Hx2.
  apply outcome_call, Hext in Hy1, Hy2. cbn [map ext_shape_ok] in Hy1, Hy2.
  rewrite Hx1 in Hy1. rewrite Hx2 in Hy2.
  destruct Hy1 as [Hc Ey1]. destruct Hy2 as (_ & h2 & w2 & Ey2).
  apply small_kernel_keeps_size in H1 as [E1 _]; [| exact Hk].
  assert (E2 : shape_of f2 = shape_of y2).
  { eapply large_kernel_keeps_size; eauto. }
  rewrite Ey1 in E1. rewrite Ey2 in E2.
  bind_inv H hw Hhw. destruct hw as [h1 w1].
  unfold spatial_of in Hhw. rewrite E1 in Hhw. apply outcome_ret in Hhw.
  injection Hhw as <- <-.
  bind_inv H f2' Hf2'. apply outcome_prim in Hf2'. rewrite E2 in Hf2'.
  unfold interpolate_shape in Hf2'. destruct (_ && _) in Hf2'; [| discriminate].
  injection Hf2' as Hf2'. symmetry in Hf2'.
  split; [| exact Hc]. eapply add_same_shape; [exact H | exact E1 | exact Hf2'].
Qed.

End Modules.

(** * Instances of the further properties *)

Section Instances.

Import Reference.

Lemma reference_deform_keeps_size (cuda : bool) :
  deform_conv_keeps_size (R := runtime cuda).
Proof.
  intros layer c k pad x r _ H; cbn [ext runtime] in H; unfold ref_ext in H.
  cbn [map ext_shape] in H.
  destruct (shape_of x) as [| n [| c' [| h [| w [| ? ?]]]]]; try discriminate.
  destruct (Nat.eqb_spec c' c) as [-> | ]; [| discriminate].
  injection H as <-. reflexivity.
Qed.

(** Two spatial features of size (1, 64, 64, 64) and a flow between two
    frames. *)
Local Abbreviation feature v := (mkTensor [1; 64; 64; 64] v%Z).

Local Abbreviation two_features := [feature 5; feature 6].

Local Abbreviation one_flow := (mkSeq 1 2 64 64 [7%Z]).

Local Abbreviation ready := (set_cpu_cache (instance false 100) false).

Lemma low_res_construction_succeeds_witness :
  exists self,
    outcome (MFRSR_init (R := runtime false) (args 100)) = inr self /\
    is_with_alignment self = false.
Proof.
  destruct (@low_res_construction_succeeds Z (runtime false) (args 100))
    as (self & H1 & H2 & _).
  - reflexivity.
  - intros name; reflexivity.
  - exists self. auto.
Defined.


Lemma flows_have_one_frame_less_witness :
  match outcome (compute_flow (R := runtime false) ready (clip 64 64 [1; 2; 3]%Z)) with
  | inr (ff, fb) => size5 ff = [1; 2; 2; 64; 64] /\ size5 fb = [1; 2; 2; 64; 64]
  | inl _ => False
  end.
Proof.
  destruct (outcome (compute_flow (R := runtime false) ready (clip 64 64 [1; 2; 3]%Z)))
    as [e | [ff fb]] eqn:E; [vm_compute in E; discriminate |].
  apply (@flows_have_one_frame_less Z (runtime false) ready (clip 64 64 [1; 2; 3]%Z) ff fb).
  - cbn; lia.
  - exact E.
Defined.

Lemma flow_estimator_operands_witness :
  length (trace (compute_flow (R := runtime false) ready (clip 64 64 [1; 2; 3]%Z))) = 2.
Proof.
  destruct (outcome (compute_flow (R := runtime false) ready (clip 64 64 [1; 2; 3]%Z)))
    as [e | [ff fb]] eqn:E; [vm_compute in E; discriminate |].
  destruct (@flow_estimator_operands Z (runtime false) ready (clip 64 64 [1; 2; 3]%Z) ff fb E)
    as (a & b & _ & _ & ->).
  reflexivity.
Defined.

Lemma propagate_fills_its_branch_witness :
  match outcome (propagate (R := runtime false) ready
                   [("spatial", two_features); ("backward_1", [])] one_flow "backward_1") with
  | inr feats' => dict_keys feats' = ["spatial"; "backward_1"]
  | inl _ => False
  end.
Proof.
  destruct (outcome (propagate (R := runtime false) ready
                       [("spatial", two_features); ("backward_1", [])] one_flow "backward_1"))
    as [e | feats'] eqn:E; [vm_compute in E; discriminate |].
  apply (@propagate_fills_its_branch Z (runtime false) ready
           [("spatial", two_features); ("backward_1", [])] one_flow "backward_1" feats').
  - reflexivity.
  - exact E.
Defined.

Lemma propagate_needs_enough_features_witness :
  length (frames one_flow) + 1 <= 2 * length two_features.
Proof.
  destruct (outcome (propagate (R := runtime false) ready
                       [("spatial", two_features); ("backward_1", [])] one_flow "backward_1"))
    as [e | feats'] eqn:E; [vm_compute in E; discriminate |].
  apply (@propagate_needs_enough_features Z (runtime false) ready
           [("spatial", two_features); ("backward_1", [])] one_flow "backward_1"
           two_features feats').
  - reflexivity.
  - exact E.
Defined.

Lemma one_fusion_per_frame_witness :
  fusion_steps (trace (propagate (R := runtime false) ready
                         [("spatial", two_features); ("backward_1", [])] one_flow
                         "backward_1"))
  = [0; 1].
Proof.
  destruct (outcome (propagate (R := runtime false) ready
                       [("spatial", two_features); ("backward_1", [])] one_flow "backward_1"))
    as [e | feats'] eqn:E; [vm_compute in E; discriminate |].
  apply (@one_fusion_per_frame Z (runtime false) ready
           [("spatial", two_features); ("backward_1", [])] one_flow "backward_1" feats' E).
Defined.

Lemma pop_takes_the_heads_witness :
  pop_features ["spatial"; "backward_1"; "forward_1"]
    [("spatial", two_features); ("backward_1", [feature 1]); ("forward_1", [feature 2])]
  = ret ([feature 1; feature 2],
         [("spatial", two_features); ("backward_1", []); ("forward_1", [])]).
Proof.
  apply (proj1 (@pop_takes_the_heads Z
                  [("spatial", two_features); ("backward_1", [feature 1]);
                   ("forward_1", [feature 2])]
                  ltac:(repeat constructor; cbn; intuition discriminate))).
  constructor; [left; reflexivity |].
  constructor; [right; discriminate |].
  constructor; [right; discriminate | constructor].
Defined.

Lemma empty_clip_never_returns_witness :
  outcome (snd (forward (R := runtime true) (instance true 100) (clip 64 64 [])))
  <> inr (clip 64 64 []).
Proof.
  apply (@empty_clip_never_returns Z (runtime true) (instance true 100) (clip 64 64 [])).
  reflexivity.
Defined.


Lemma two_flow_estimations_without_mirror_witness :
  spynet_calls
    (trace (snd (forward (R := runtime true) (instance true 100) (clip 64 64 [1; 2]%Z))))
  = 2.
Proof.
  apply (@two_flow_estimations_without_mirror Z (runtime true) (instance true 100)
           (clip 64 64 [1; 2]%Z) (output true (instance true 100) (clip 64 64 [1; 2]%Z))).
  - vm_compute; reflexivity.
  - vm_compute; reflexivity.
Defined.

Lemma per_frame_spatial_features_witness :
  match outcome (spatial_features (R := runtime true)
                   (set_cpu_cache (instance true 100) false) (clip 64 64 [1; 2]%Z)) with
  | inr (spatial, (h, w)) =>
      length spatial = 2 /\
      exists c, Forall (fun x => shape_of x = [1; c; h; w]) spatial
  | inl _ => False
  end.
Proof.
  destruct (outcome (spatial_features (R := runtime true)
                       (set_cpu_cache (instance true 100) false) (clip 64 64 [1; 2]%Z)))
    as [e | [spatial [h w]]] eqn:E; [vm_compute in E; discriminate |].
  apply (@per_frame_spatial_features Z (runtime true)
           (set_cpu_cache (instance true 100) false) (clip 64 64 [1; 2]%Z) spatial h w).
  - reflexivity.
  - exact E.
Defined.

Lemma alignment_keeps_the_spatial_size_witness :
  match outcome (SecondOrderDeformableAlignment_forward (R := runtime true)
                   (alignment "backward_1") (mkTensor [1; 128; 64; 64] 1%Z)
                   (mkTensor [1; 192; 64; 64] 2%Z) (mkTensor [1; 2; 64; 64] 3%Z)
                   (mkTensor [1; 2; 64; 64] 4%Z)) with
  | inr r => shape_of r = [1; 64; 64; 64]
  | inl _ => False
  end.
Proof.
  destruct (outcome (SecondOrderDeformableAlignment_forward (R := runtime true)
                       (alignment "backward_1") (mkTensor [1; 128; 64; 64] 1%Z)
                       (mkTensor [1; 192; 64; 64] 2%Z) (mkTensor [1; 2; 64; 64] 3%Z)
                       (mkTensor [1; 2; 64; 64] 4%Z)))
    as [e | r] eqn:E; [vm_compute in E; discriminate |].
  apply (@alignment_keeps_the_spatial_size Z (runtime true) (alignment "backward_1")
           (mkTensor [1; 128; 64; 64] 1%Z) (mkTensor [1; 192; 64; 64] 2%Z)
           (mkTensor [1; 2; 64; 64] 3%Z) (mkTensor [1; 2; 64; 64] 4%Z) r 1 128 64 64);
    try reflexivity.
  exact E.
Defined.

Lemma attention_blocks_keep_the_size_witness :
  match outcome (MultiScaleSmallKernelConvAndAttention_forward (R := runtime true)
                   "feat_extract1.1" 64 (feature 1)) with
  | inr r => shape_of r = [1; 64; 64; 64]
  | inl _ => False
  end.
Proof.
  destruct (outcome (MultiScaleSmallKernelConvAndAttention_forward (R := runtime true)
                       "feat_extract1.1" 64 (feature 1)))
    as [e | r] eqn:E; [vm_compute in E; discriminate |].
  apply (@attention_blocks_keep_the_size Z (runtime true) "feat_extract1.1" 64
           (feature 1) r).
  - apply reference_deform_keeps_size.
  - apply reference_respects_shapes.
  - left; exact E.
Defined.

Lemma large_kernel_follows_the_last_branch_witness :
  match outcome (MultiScaleLargeKernelConvAndAttention_forward (R := runtime true)
                   "feat_extract2.1" 64 (feature 1)) with
  | inr r => exists n h w, shape_of r = [n; 64; h; w]
  | inl _ => False
  end.
Proof.
  destruct (outcome (MultiScaleLargeKernelConvAndAttention_forward (R := runtime true)
                       "feat_extract2.1" 64 (feature 1)))
    as [e | r] eqn:E; [vm_compute in E; discriminate |].
  destruct (@large_kernel_follows_the_last_branch Z (runtime true) "feat_extract2.1" 64
              (feature 1) r (reference_respects_shapes true) E)
    as (d3 & n & h & w & _ & _ & H & _).
  exists n, h, w. exact H.
Defined.

Lemma extracted_features_size_witness :
  match outcome (extract (R := runtime true) (instance true 100) (clip 64 64 [1; 2]%Z)) with
  | inr r => shape_of r = [2; 64; 64; 64]
  | inl _ => False
  end.
Proof.
  destruct (outcome (extract (R := runtime true) (instance true 100) (clip 64 64 [1; 2]%Z)))
    as [e | r] eqn:E; [vm_compute in E; discriminate |].
  apply (@extracted_features_size Z (runtime true) (instance true 100)
           (clip 64 64 [1; 2]%Z) r).
  - apply reference_respects_shapes.
  - apply reference_deform_keeps_size.
  - exact E.
Defined.

Lemma zero_residuals_give_the_flows_witness :
  Channels.offsets 10 (repeat 0%R (27 * 2)) [1%R; 2%R] [3%R; 4%R]
  = Some (Channels.repeat_channels (Channels.flip [1%R; 2%R]) (9 * 2 / 2)
          ++ Channels.repeat_channels (Channels.flip [3%R; 4%R]) (9 * 2 / 2)).
Proof.
  apply (@zero_residuals_give_the_flows 10 2 [1%R; 2%R] [3%R; 4%R]); reflexivity.
Defined.

(** An instance as the other branch of the constructor would leave it,
    and an alignment module with a single deformable group. *)
Local Abbreviation high_res :=
  {| mid_channels := 64; is_low_res_input := false; cpu_cache_length := 100;
     attributes := ["feat_extract"; "feat_extract_2"]; deform_align := [];
     backbone := [("backward_1", (64, 64, 7)); ("forward_1", (128, 64, 7))];
     fusion := [("backward_1", (64, 2, 0)); ("forward_1", (64, 2, 0))];
     is_mirror_extended := false; is_with_alignment := false; cpu_cache := None |}.

Local Abbreviation one_group :=
  {| sa_layer := "deform_align.backward_1"; in_channels := 128; out_channels := 64;
     kernel_size := 3; stride := 1; padding := 1; dilation := 1;
     deformable_groups := 1; sa_max_residue_magnitude := 10 |}.

Lemma downsample_sizes_witness :
  match outcome (downsample (R := runtime true) high_res (clip 64 64 [1; 2]%Z)) with
  | inr d => size5 d = [1; 2; 3; 16; 16] /\ 4 <= 64 /\ 4 <= 64
  | inl _ => False
  end.
Proof.
  destruct (outcome (downsample (R := runtime true) high_res (clip 64 64 [1; 2]%Z)))
    as [e | d] eqn:E; [vm_compute in E; discriminate |].
  exact (@downsample_sizes Z (runtime true) high_res (clip 64 64 [1; 2]%Z) d E).
Defined.

Lemma odd_groups_never_align_witness :
  outcome (SecondOrderDeformableAlignment_forward (R := runtime true) one_group
             (mkTensor [1; 128; 64; 64] 1%Z) (mkTensor [1; 192; 64; 64] 2%Z)
             (mkTensor [1; 2; 64; 64] 3%Z) (mkTensor [1; 2; 64; 64] 4%Z))
  <> inr (mkTensor [1; 64; 64; 64] 0%Z).
Proof.
  apply (@odd_groups_never_align Z (runtime true) one_group
           (mkTensor [1; 128; 64; 64] 1%Z) (mkTensor [1; 192; 64; 64] 2%Z)
           (mkTensor [1; 2; 64; 64] 3%Z) (mkTensor [1; 2; 64; 64] 4%Z)
           (mkTensor [1; 64; 64; 64] 0%Z) 1 64 64); reflexivity.
Defined.

Lemma upsample_takes_one_feature_per_frame_witness :
  match outcome (upsample (R := runtime false) ready (clip 64 64 [1; 2]%Z)
                   [("spatial", two_features);
                    ("backward_1", [feature 1; feature 2; feature 3]);
                    ("forward_1", [feature 4; feature 5])]) with
  | inr (out, feats') =>
      feats' = [("spatial", two_features); ("backward_1", [feature 3]); ("forward_1", [])] /\
      length (frames out) = 2
  | inl _ => False
  end.
Proof.
  destruct (outcome (upsample (R := runtime false) ready (clip 64 64 [1; 2]%Z)
                       [("spatial", two_features);
                        ("backward_1", [feature 1; feature 2; feature 3]);
                        ("forward_1", [feature 4; feature 5])]))
    as [e | [out feats']] eqn:E; [vm_compute in E; discriminate |].
  destruct (@upsample_takes_one_feature_per_frame Z (runtime false) ready
              (clip 64 64 [1; 2]%Z) two_features [feature 1; feature 2; feature 3]
              [feature 4; feature 5] out feats' E)
    as (_ & _ & H1 & H2).
  split; [exact H1 | exact H2].
Defined.

Lemma cache_needs_cuda_witness :
  outcome (snd (forward (R := runtime false) (instance false 1) (clip 64 64 [1; 2]%Z)))
  <> inr (clip 64 64 []).
Proof.
  apply (@cache_needs_cuda Z (runtime false) (instance false 1) (clip 64 64 [1; 2]%Z)).
  - reflexivity.
  - cbn; lia.
Defined.

Lemma forward_returns_only_above_the_floor_witness :
  64 <= height (clip 64 64 [1; 2]%Z) /\ 64 <= width (clip 64 64 [1; 2]%Z).
Proof.
  apply (@forward_returns_only_above_the_floor Z (runtime true) (instance true 100)
           (clip 64 64 [1; 2]%Z) (output true (instance true 100) (clip 64 64 [1; 2]%Z))).
  - reflexivity.
  - vm_compute; reflexivity.
Defined.

End Instances.
